(** * The media sharing database: schema, seed script, query catalogue, addUser

    The executable artefacts of the course material are the SQL script
    [assets/media-db.sql] (table declarations and sample rows), the example
    queries of the chapter "Relational Databases & SQL 2", and the model
    function [addUser] of the validation chapter.  They are embedded here
    over a small relational engine that gives the declarations their
    MySQL/InnoDB meaning (strict SQL mode, constraints enforced): an
    INSERT, UPDATE or DELETE either succeeds and yields the next database,
    or is rejected as a whole and leaves the database as it was.  What the
    statements leave to the server (when two texts are equal, what a grouped
    query may select, the order of rows without ORDER BY) is a parameter of
    the queries that depend on it.  The server's implicit conversions
    between text and numbers are outside the model. *)

From Stdlib Require Import ZArith List String Bool Lia Permutation.
Import ListNotations.
Open Scope string_scope.
Open Scope list_scope.
Open Scope Z_scope.

(** ** Values *)

(** A literal of the script or a parameter bound to a [?] placeholder. *)
Inductive value : Type :=
| VNull
| VInt (z : Z)
| VStr (s : string).

Definition value_eqb (a b : value) : bool :=
  match a, b with
  | VNull, VNull => true
  | VInt x, VInt y => Z.eqb x y
  | VStr x, VStr y => String.eqb x y
  | _, _ => false
  end.

Definition is_null (v : value) : bool :=
  match v with VNull => true | _ => false end.

(** ** Table declarations *)

Inductive sqltype : Type :=
| INT
| VARCHAR (n : Z)
| TEXT
| TIMESTAMP.

(** The column attributes the script uses. *)
Inductive attribute : Type :=
| NOT_NULL
| UNIQUE
| AUTO_INCREMENT
| PRIMARY_KEY
| DEFAULT_CURRENT_TIMESTAMP
| CHECK_BETWEEN (lo hi : Z).

Record column : Type := col {
  col_name : string;
  col_type : sqltype;
  col_attrs : list attribute
}.

Inductive referential_action : Type :=
| RESTRICT
| CASCADE
| SET_NULL
| NO_ACTION.

(** [FOREIGN KEY (fk_col) REFERENCES fk_table(fk_ref)], with the ON DELETE
    and ON UPDATE clauses when they are written. *)
Record foreign_key : Type := FOREIGN_KEY {
  fk_col : string;
  fk_table : string;
  fk_ref : string;
  fk_on_delete : option referential_action;
  fk_on_update : option referential_action
}.

Record table : Type := CREATE_TABLE {
  tbl_name : string;
  tbl_cols : list column;
  tbl_primary_key : list string;   (* table-level PRIMARY KEY (c1, c2, ...) *)
  tbl_fks : list foreign_key
}.

Definition schema : Type := list table.

Definition find_table (sch : schema) (t : string) : option table :=
  find (fun tbl => String.eqb (tbl_name tbl) t) sch.

Definition has_not_null (c : column) : bool :=
  existsb (fun a => match a with NOT_NULL | PRIMARY_KEY => true | _ => false end)
          (col_attrs c).

Definition has_unique (c : column) : bool :=
  existsb (fun a => match a with UNIQUE | PRIMARY_KEY => true | _ => false end)
          (col_attrs c).

Definition has_auto_increment (c : column) : bool :=
  existsb (fun a => match a with AUTO_INCREMENT => true | _ => false end)
          (col_attrs c).

Definition has_default_now (c : column) : bool :=
  existsb (fun a => match a with DEFAULT_CURRENT_TIMESTAMP => true | _ => false end)
          (col_attrs c).

Definition mem (c : string) (l : list string) : bool :=
  existsb (String.eqb c) l.

(** A column rejects NULL when it is declared NOT NULL or is part of the
    primary key. *)
Definition not_null_in (tbl : table) (c : column) : bool :=
  has_not_null c || mem (col_name c) (tbl_primary_key tbl).

(** The keys of a table: every PRIMARY KEY or UNIQUE column on its own, and
    the table-level primary key. *)
Definition unique_keys (tbl : table) : list (list string) :=
  map (fun c => [col_name c]) (filter has_unique (tbl_cols tbl))
  ++ match tbl_primary_key tbl with [] => [] | k => [k] end.

(** ** Database states *)

Definition row : Type := list (string * value).

Definition get (r : row) (c : string) : value :=
  match find (fun p => String.eqb (fst p) c) r with
  | Some p => snd p
  | None => VNull
  end.

Record table_state : Type := {
  rows : list row;     (* in insertion order *)
  next_id : Z          (* the AUTO_INCREMENT counter *)
}.

Definition database : Type := string -> table_state.

(** The state after the CREATE TABLE statements. *)
Definition empty_db : database :=
  fun _ => {| rows := []; next_id := 1 |}.

Definition set_table (db : database) (t : string) (s : table_state) : database :=
  fun t' => if String.eqb t' t then s else db t'.

(** ** Errors *)

(** What a rejected row or DELETE runs against, with the server's name for
    the error. *)
Inductive violation : Type :=
| NotNull (c : string)                        (* ER_BAD_NULL_ERROR, ER_NO_DEFAULT_FOR_FIELD *)
| Domain (c : string)                         (* ER_DATA_TOO_LONG, ER_WARN_DATA_OUT_OF_RANGE *)
| CheckFailed (c : string)                    (* ER_CHECK_CONSTRAINT_VIOLATED *)
| Duplicate (key : list string)               (* ER_DUP_ENTRY *)
| ForeignKey (c : string) (parent : string)   (* ER_NO_REFERENCED_ROW_2 *)
| Restricted (child : string) (c : string).   (* ER_ROW_IS_REFERENCED_2 *)

Inductive error : Type :=
| NoSuchTable (t : string)
| UnknownColumn (c : string)
| ColumnSpecifiedTwice (c : string)
| ColumnCountMismatch
| UnsupportedAction (a : referential_action)
| ConstraintViolation (v : violation)
| AmbiguousProjection (c : string)            (* ER_WRONG_FIELD_WITH_GROUP *)
| SubqueryReturnsMoreThanOneRow.              (* ER_SUBQUERY_NO_1_ROW *)

Inductive result (A : Type) : Type :=
| Ok (a : A)
| Err (e : error).
Arguments Ok {A} a.
Arguments Err {A} e.

(** ** INSERT *)

(** The declared type of a column as a set of values.  NULL belongs to every
    type; whether a column admits it is the NOT NULL attribute's business.
    A TIMESTAMP is an instant counted in seconds.  Text is a string of
    bytes, and the length of a VARCHAR bounds their number, which for text
    in ASCII is the number of its characters.  The server converts a text
    given for a number and a number given for a text before it checks them;
    here a value of the other kind is outside the type, and what is stated
    about refused values is stated for numbers given for numbers and for
    NULL. *)
Definition in_domain (ty : sqltype) (v : value) : bool :=
  match v, ty with
  | VNull, _ => true
  | VInt z, INT => (-2147483648 <=? z) && (z <=? 2147483647)
  | VInt _, TIMESTAMP => true
  | VStr s, VARCHAR n => Z.of_nat (String.length s) <=? n
  | VStr s, TEXT => Z.of_nat (String.length s) <=? 65535
  | _, _ => false
  end.

(** CHECK (c BETWEEN lo AND hi); a check whose outcome is unknown (NULL)
    passes. *)
Definition check_ok (c : column) (v : value) : bool :=
  forallb (fun a => match a, v with
                    | CHECK_BETWEEN lo hi, VInt z => (lo <=? z) && (z <=? hi)
                    | CHECK_BETWEEN _ _, VStr _ => false
                    | _, _ => true
                    end) (col_attrs c).

Definition supplied (asg : list (string * value)) (c : string) : option value :=
  option_map snd (find (fun p => String.eqb (fst p) c) asg).

(** An AUTO_INCREMENT column generates its value when the statement omits
    it or gives NULL or 0. *)
Definition wants_auto (v : value) : bool :=
  match v with
  | VNull => true
  | VInt z => Z.eqb z 0
  | VStr _ => false
  end.

Definition cell (now next : Z) (asg : list (string * value)) (c : column) : value :=
  match supplied asg (col_name c) with
  | Some v => if has_auto_increment c && wants_auto v then VInt next else v
  | None => if has_auto_increment c then VInt next
            else if has_default_now c then VInt now
            else VNull
  end.

Definition build_row (now next : Z) (tbl : table) (asg : list (string * value)) : row :=
  map (fun c => (col_name c, cell now next asg c)) (tbl_cols tbl).

Fixpoint first_violation {A : Type} (f : A -> option violation) (l : list A)
  : option violation :=
  match l with
  | [] => None
  | x :: l' => match f x with
               | Some v => Some v
               | None => first_violation f l'
               end
  end.

Definition column_violation (tbl : table) (r : row) (c : column) : option violation :=
  let v := get r (col_name c) in
  if negb (in_domain (col_type c) v) then Some (Domain (col_name c))
  else if not_null_in tbl c && is_null v then Some (NotNull (col_name c))
  else if negb (check_ok c v) then Some (CheckFailed (col_name c))
  else None.

Definition same_on (k : list string) (r r' : row) : bool :=
  forallb (fun c => value_eqb (get r' c) (get r c)) k.

(** A key collides when an existing row agrees on all its columns; a key
    value with a NULL in it collides with nothing. *)
Definition key_violation (existing : list row) (r : row) (k : list string)
  : option violation :=
  if forallb (fun c => negb (is_null (get r c))) k && existsb (same_on k r) existing
  then Some (Duplicate k)
  else None.

Definition references (db : database) (fk : foreign_key) (v : value) : bool :=
  existsb (fun p => value_eqb (get p (fk_ref fk)) v) (rows (db (fk_table fk))).

(** A NULL in a foreign key column refers to nothing and is not checked. *)
Definition fk_violation (db : database) (r : row) (fk : foreign_key)
  : option violation :=
  let v := get r (fk_col fk) in
  if is_null v || references db fk v then None
  else Some (ForeignKey (fk_col fk) (fk_table fk)).

Definition violated (db : database) (tbl : table) (r : row) : option violation :=
  match first_violation (column_violation tbl r) (tbl_cols tbl) with
  | Some v => Some v
  | None =>
    match first_violation (key_violation (rows (db (tbl_name tbl))) r) (unique_keys tbl) with
    | Some v => Some v
    | None => first_violation (fk_violation db r) (tbl_fks tbl)
    end
  end.

Fixpoint duplicate_name (l : list string) : option string :=
  match l with
  | [] => None
  | c :: l' => if mem c l' then Some c else duplicate_name l'
  end.

(** The column list of an INSERT must name columns of the table, each once,
    and every tuple must have as many values. *)
Definition statement_error (tbl : table) (cols : list string) (vals : list value)
  : option error :=
  match find (fun c => negb (mem c (map col_name (tbl_cols tbl)))) cols with
  | Some c => Some (UnknownColumn c)
  | None =>
    match duplicate_name cols with
    | Some c => Some (ColumnSpecifiedTwice c)
    | None => if Nat.eqb (List.length vals) (List.length cols) then None
              else Some ColumnCountMismatch
    end
  end.

(** The value reported as [insertId]: the one stored in the AUTO_INCREMENT
    column of the new row, 0 when the table has no such column. *)
Definition insert_id (tbl : table) (r : row) : Z :=
  match find has_auto_increment (tbl_cols tbl) with
  | Some c => match get r (col_name c) with VInt z => z | _ => 0 end
  | None => 0
  end.

Definition insert_row (sch : schema) (now : Z) (db : database) (t : string)
           (cols : list string) (vals : list value) : result (database * Z) :=
  match find_table sch t with
  | None => Err (NoSuchTable t)
  | Some tbl =>
    match statement_error tbl cols vals with
    | Some e => Err e
    | None =>
      let st := db (tbl_name tbl) in
      let r := build_row now (next_id st) tbl (combine cols vals) in
      match violated db tbl r with
      | Some v => Err (ConstraintViolation v)
      | None =>
        let id := insert_id tbl r in
        Ok (set_table db (tbl_name tbl)
                      {| rows := rows st ++ [r];
                         next_id := Z.max (next_id st) (id + 1) |}, id)
      end
    end
  end.

(** The tuples of one INSERT, in order; the first rejected tuple rejects the
    statement.  The result carries the id of the first tuple. *)
Fixpoint insert_rows (sch : schema) (now : Z) (db : database) (t : string)
         (cols : list string) (tuples : list (list value)) : result (database * Z) :=
  match tuples with
  | [] => Ok (db, 0)
  | vals :: rest =>
    match insert_row sch now db t cols vals with
    | Err e => Err e
    | Ok (db1, id) =>
      match insert_rows sch now db1 t cols rest with
      | Err e => Err e
      | Ok (db2, _) => Ok (db2, id)
      end
    end
  end.

(** ** DELETE *)

(** The foreign keys of [child] that point at table [t]. *)
Definition fks_to (t : string) (child : table) : list foreign_key :=
  filter (fun fk => String.eqb (fk_table fk) t) (tbl_fks child).

(** A child row holds on to a victim when its foreign key value is the
    victim's referenced column. *)
Definition holds_on (victims : list row) (fk : foreign_key) (r : row) : bool :=
  negb (is_null (get r (fk_col fk)))
  && existsb (fun p => value_eqb (get p (fk_ref fk)) (get r (fk_col fk))) victims.

(** A foreign key declared without ON DELETE has the default action,
    NO ACTION, which InnoDB treats as RESTRICT: the parent row cannot go
    while a child row refers to it.  CASCADE and SET NULL do not occur in
    the script and are not given a meaning. *)
Definition fk_delete_error (db : database) (victims : list row) (child : table)
           (fk : foreign_key) : option error :=
  match fk_on_delete fk with
  | Some CASCADE => Some (UnsupportedAction CASCADE)
  | Some SET_NULL => Some (UnsupportedAction SET_NULL)
  | None | Some RESTRICT | Some NO_ACTION =>
    if existsb (holds_on victims fk) (rows (db (tbl_name child)))
    then Some (ConstraintViolation (Restricted (tbl_name child) (fk_col fk)))
    else None
  end.

Fixpoint first_error {A : Type} (f : A -> option error) (l : list A) : option error :=
  match l with
  | [] => None
  | x :: l' => match f x with
               | Some e => Some e
               | None => first_error f l'
               end
  end.

Definition delete_error (sch : schema) (db : database) (t : string) (victims : list row)
  : option error :=
  first_error (fun child => first_error (fk_delete_error db victims child) (fks_to t child))
              sch.

Definition delete_rows (sch : schema) (db : database) (t : string) (cond : row -> bool)
  : result database :=
  match find_table sch t with
  | None => Err (NoSuchTable t)
  | Some tbl =>
    let st := db (tbl_name tbl) in
    match delete_error sch db (tbl_name tbl) (filter cond (rows st)) with
    | Some e => Err e
    | None =>
      Ok (set_table db (tbl_name tbl)
                    {| rows := filter (fun r => negb (cond r)) (rows st);
                       next_id := next_id st |})
    end
  end.

(** ** UPDATE *)

Fixpoint set_cell (r : row) (c : string) (v : value) : row :=
  match r with
  | [] => [(c, v)]
  | p :: r' => if String.eqb (fst p) c then (c, v) :: r' else p :: set_cell r' c v
  end.

(** Two rows of the table agree on a key (without NULLs). *)
Fixpoint key_collision (k : list string) (rs : list row) : bool :=
  match rs with
  | [] => false
  | r :: rs' =>
    (forallb (fun c => negb (is_null (get r c))) k && existsb (same_on k r) rs')
    || key_collision k rs'
  end.

(** The foreign keys of [child] that point at column [c] of table [t]. *)
Definition fks_to_column (t c : string) (child : table) : list foreign_key :=
  filter (fun fk => String.eqb (fk_table fk) t && String.eqb (fk_ref fk) c)
         (tbl_fks child).

(** ON UPDATE has the same default as ON DELETE: a referenced value cannot
    change while a child row refers to it. *)
Definition fk_update_error (db : database) (changed : list row) (child : table)
           (fk : foreign_key) : option error :=
  match fk_on_update fk with
  | Some CASCADE => Some (UnsupportedAction CASCADE)
  | Some SET_NULL => Some (UnsupportedAction SET_NULL)
  | None | Some RESTRICT | Some NO_ACTION =>
    if existsb (holds_on changed fk) (rows (db (tbl_name child)))
    then Some (ConstraintViolation (Restricted (tbl_name child) (fk_col fk)))
    else None
  end.

Definition update_error (sch : schema) (db : database) (t c : string)
           (changed : list row) : option error :=
  first_error (fun child => first_error (fk_update_error db changed child)
                                        (fks_to_column t c child))
              sch.

(** [UPDATE t SET c = v WHERE cond].  The rows under the condition get the
    new value; they must satisfy the column constraints, the keys that
    contain [c] must still be keys of the table, a foreign key on [c] must
    find its parent row, and no child row may refer to a value of [c] that
    changes. *)
Definition update_rows (sch : schema) (db : database) (t c : string) (v : value)
           (cond : row -> bool) : result database :=
  match find_table sch t with
  | None => Err (NoSuchTable t)
  | Some tbl =>
    if negb (mem c (map col_name (tbl_cols tbl))) then Err (UnknownColumn c)
    else
      let st := db (tbl_name tbl) in
      let updated := map (fun r => if cond r then set_cell r c v else r) (rows st) in
      let db' := set_table db (tbl_name tbl)
                           {| rows := updated; next_id := next_id st |} in
      let changed := filter (fun r => cond r && negb (value_eqb (get r c) v)) (rows st) in
      match first_violation
              (fun r => first_violation (column_violation tbl (set_cell r c v))
                                        (tbl_cols tbl))
              (filter cond (rows st)) with
      | Some x => Err (ConstraintViolation x)
      | None =>
        match first_violation
                (fun k => if mem c k && key_collision k updated
                          then Some (Duplicate k) else None)
                (unique_keys tbl) with
        | Some x => Err (ConstraintViolation x)
        | None =>
          match first_violation
                  (fun r => first_violation
                              (fk_violation db' (set_cell r c v))
                              (filter (fun fk => String.eqb (fk_col fk) c) (tbl_fks tbl)))
                  (filter cond (rows st)) with
          | Some x => Err (ConstraintViolation x)
          | None =>
            match update_error sch db (tbl_name tbl) c changed with
            | Some e => Err e
            | None => Ok db'
            end
          end
        end
      end
  end.

(** ** Statements and scripts *)

Inductive statement : Type :=
| INSERT_INTO (t : string) (cols : list string) (VALUES : list (list value))
| UPDATE (t : string) (c : string) (SET : value) (WHERE : row -> bool)
| DELETE_FROM (t : string) (WHERE : row -> bool).

(** A statement is atomic: rejected, it leaves the database as it was. *)
Definition exec (sch : schema) (now : Z) (db : database) (st : statement)
  : database * option error :=
  match st with
  | INSERT_INTO t cols tuples =>
    match insert_rows sch now db t cols tuples with
    | Ok (db', _) => (db', None)
    | Err e => (db, Some e)
    end
  | UPDATE t c v cond =>
    match update_rows sch db t c v cond with
    | Ok db' => (db', None)
    | Err e => (db, Some e)
    end
  | DELETE_FROM t cond =>
    match delete_rows sch db t cond with
    | Ok db' => (db', None)
    | Err e => (db, Some e)
    end
  end.

(** A script stops at its first rejected statement. *)
Fixpoint run (sch : schema) (now : Z) (db : database) (script : list statement)
  : database * option error :=
  match script with
  | [] => (db, None)
  | st :: rest =>
    match exec sch now db st with
    | (db', None) => run sch now db' rest
    | (db', Some e) => (db', Some e)
    end
  end.

(** The states the schema store can be in: those reached from the empty
    tables by INSERT, UPDATE and DELETE statements, accepted or rejected. *)
Inductive reachable (sch : schema) : database -> Prop :=
| reachable_empty : reachable sch empty_db
| reachable_exec : forall now db st,
    reachable sch db -> reachable sch (fst (exec sch now db st)).

(** ** The schema of media-db.sql *)

Definition UserLevels : table :=
  CREATE_TABLE "UserLevels"
    [ col "level_id" INT [AUTO_INCREMENT; PRIMARY_KEY];
      col "level_name" (VARCHAR 50) [NOT_NULL] ]
    []
    [].

Definition Users : table :=
  CREATE_TABLE "Users"
    [ col "user_id" INT [AUTO_INCREMENT; PRIMARY_KEY];
      col "username" (VARCHAR 50) [NOT_NULL; UNIQUE];
      col "password" (VARCHAR 255) [NOT_NULL];
      col "email" (VARCHAR 100) [NOT_NULL; UNIQUE];
      col "user_level_id" INT [];
      col "created_at" TIMESTAMP [DEFAULT_CURRENT_TIMESTAMP] ]
    []
    [ FOREIGN_KEY "user_level_id" "UserLevels" "level_id" None None ].

Definition MediaItems : table :=
  CREATE_TABLE "MediaItems"
    [ col "media_id" INT [NOT_NULL; AUTO_INCREMENT; PRIMARY_KEY];
      col "user_id" INT [NOT_NULL];
      col "filename" (VARCHAR 255) [NOT_NULL];
      col "filesize" INT [NOT_NULL];
      col "media_type" (VARCHAR 255) [NOT_NULL];
      col "title" (VARCHAR 255) [NOT_NULL];
      col "description" (VARCHAR 255) [];
      col "created_at" TIMESTAMP [DEFAULT_CURRENT_TIMESTAMP] ]
    []
    [ FOREIGN_KEY "user_id" "Users" "user_id" None None ].

Definition Comments : table :=
  CREATE_TABLE "Comments"
    [ col "comment_id" INT [AUTO_INCREMENT; PRIMARY_KEY];
      col "media_id" INT [NOT_NULL];
      col "user_id" INT [NOT_NULL];
      col "comment_text" TEXT [NOT_NULL];
      col "created_at" TIMESTAMP [DEFAULT_CURRENT_TIMESTAMP] ]
    []
    [ FOREIGN_KEY "media_id" "MediaItems" "media_id" None None;
      FOREIGN_KEY "user_id" "Users" "user_id" None None ].

Definition Likes : table :=
  CREATE_TABLE "Likes"
    [ col "like_id" INT [AUTO_INCREMENT; PRIMARY_KEY];
      col "media_id" INT [NOT_NULL];
      col "user_id" INT [NOT_NULL];
      col "created_at" TIMESTAMP [DEFAULT_CURRENT_TIMESTAMP] ]
    []
    [ FOREIGN_KEY "media_id" "MediaItems" "media_id" None None;
      FOREIGN_KEY "user_id" "Users" "user_id" None None ].

Definition Ratings : table :=
  CREATE_TABLE "Ratings"
    [ col "rating_id" INT [AUTO_INCREMENT; PRIMARY_KEY];
      col "media_id" INT [NOT_NULL];
      col "user_id" INT [NOT_NULL];
      col "rating_value" INT [NOT_NULL; CHECK_BETWEEN 1 5];
      col "created_at" TIMESTAMP [DEFAULT_CURRENT_TIMESTAMP] ]
    []
    [ FOREIGN_KEY "media_id" "MediaItems" "media_id" None None;
      FOREIGN_KEY "user_id" "Users" "user_id" None None ].

Definition Tags : table :=
  CREATE_TABLE "Tags"
    [ col "tag_id" INT [AUTO_INCREMENT; PRIMARY_KEY];
      col "tag_name" (VARCHAR 50) [NOT_NULL] ]
    []
    [].

Definition MediaItemTags : table :=
  CREATE_TABLE "MediaItemTags"
    [ col "media_id" INT [NOT_NULL];
      col "tag_id" INT [NOT_NULL] ]
    [ "media_id"; "tag_id" ]
    [ FOREIGN_KEY "media_id" "MediaItems" "media_id" None None;
      FOREIGN_KEY "tag_id" "Tags" "tag_id" None None ].

Definition MediaSharingApp : schema :=
  [ UserLevels; Users; MediaItems; Comments; Likes; Ratings; Tags; MediaItemTags ].

(** ** The sample data of media-db.sql *)

Definition sample_data : list statement :=
  [ INSERT_INTO "UserLevels" ["level_name"]
      [ [VStr "Admin"]; [VStr "User"]; [VStr "Guest"] ];
    INSERT_INTO "Users" ["username"; "password"; "email"; "user_level_id"]
      [ [VStr "JohnDoe"; VStr "to-be-hashed-pw1"; VStr "johndoe@example.com"; VInt 2];
        [VStr "JaneSmith"; VStr "to-be-hashed-pw2"; VStr "janesmith@example.com"; VInt 2];
        [VStr "Anon5468"; VStr "to-be-hashed-pw3"; VStr "anon5468@example.com"; VInt 2];
        [VStr "AdminUser"; VStr "to-be-hashed-pw4"; VStr "adminuser@example.com"; VInt 1] ];
    INSERT_INTO "MediaItems"
      ["user_id"; "filename"; "filesize"; "media_type"; "title"; "description"]
      [ [VInt 1; VStr "sunset.jpg"; VInt 1024; VStr "image/jpeg"; VStr "Sunset";
         VStr "A beautiful sunset"];
        [VInt 2; VStr "sample.mp4"; VInt 20480; VStr "video/mp4"; VStr "Sample Video";
         VStr "A sample video file"];
        [VInt 2; VStr "ffd8.jpg"; VInt 2048; VStr "image/jpeg"; VStr "Favorite food";
         VNull];
        [VInt 1; VStr "2f9b.jpg"; VInt 1024; VStr "image/jpeg"; VStr "Aksux and Jane";
         VStr "friends"] ];
    INSERT_INTO "Comments" ["media_id"; "user_id"; "comment_text"]
      [ [VInt 1; VInt 2; VStr "This is a wonderful photo!"];
        [VInt 2; VInt 1; VStr "Really nice video, thanks for sharing!"] ];
    INSERT_INTO "Likes" ["media_id"; "user_id"]
      [ [VInt 1; VInt 2];
        [VInt 2; VInt 1];
        [VInt 2; VInt 2];
        [VInt 3; VInt 1];
        [VInt 2; VInt 3];
        [VInt 3; VInt 3] ];
    INSERT_INTO "Ratings" ["media_id"; "user_id"; "rating_value"]
      [ [VInt 1; VInt 2; VInt 5];
        [VInt 2; VInt 1; VInt 4];
        [VInt 1; VInt 3; VInt 4] ];
    INSERT_INTO "Tags" ["tag_name"]
      [ [VStr "Nature"]; [VStr "Video"]; [VStr "Documentary"]; [VStr "Landscape"] ];
    INSERT_INTO "MediaItemTags" ["media_id"; "tag_id"]
      [ [VInt 1; VInt 1];
        [VInt 1; VInt 4];
        [VInt 2; VInt 2];
        [VInt 3; VInt 1];
        [VInt 2; VInt 3] ] ].

(** The database after the script has run at time [now]. *)
Definition seed_db (now : Z) : database :=
  fst (run MediaSharingApp now empty_db sample_data).

(** ** What the statements leave to the server

    The statements of the script and of the chapter do not say when two
    texts are equal, whether a grouped query may select a plain column that
    is not grouped, which row of a group then gives the value, and in which
    order the rows of a query without ORDER BY come out.  The server
    settles these, by its configuration or as it pleases, and the queries
    that depend on them take them as a parameter. *)

(** A collation says when two texts are equal: in a comparison, in
    GROUP BY and in DISTINCT.  The default collations of MySQL and of
    MariaDB do not tell upper case from lower case. *)
Definition collation : Type := string -> string -> bool.

Definition equivalence (co : collation) : Prop :=
  (forall a, co a a = true)
  /\ (forall a b, co a b = co b a)
  /\ (forall a b c, co a b = true -> co b c = true -> co a c = true).

Definition lower_ascii (c : Ascii.ascii) : Ascii.ascii :=
  let n := Ascii.nat_of_ascii c in
  if (65 <=? n)%nat && (n <=? 90)%nat then Ascii.ascii_of_nat (n + 32) else c.

Fixpoint lower (s : string) : string :=
  match s with
  | EmptyString => EmptyString
  | String c s' => String (lower_ascii c) (lower s')
  end.

(** An example: the collation that takes the letters A to Z for the letters
    a to z and tells every other two texts apart. *)
Definition ascii_ci : collation :=
  fun a b => String.eqb (lower a) (lower b).

(** Equality of two values, of two texts under the collation.  NULL is
    equal to NULL, as in GROUP BY and DISTINCT, where the NULLs are one
    class; a comparison in a condition is [sql_eq_under]. *)
Definition value_eqb_under (co : collation) (a b : value) : bool :=
  match a, b with
  | VStr x, VStr y => co x y
  | _, _ => value_eqb a b
  end.

Record server : Type := {
  (** the collation of the text columns *)
  collate : collation;
  (** whether [sql_mode] has ONLY_FULL_GROUP_BY: by default it has in
      MySQL, and has not in MariaDB *)
  only_full_group_by : bool;
  (** the value returned for a plain column over the rows of a group *)
  any_value : string -> list row -> value;
  (** the rows of a result in the order in which they come out of a query
      without ORDER BY *)
  unordered : list row -> list row
}.

(** What every server keeps to: equality of texts is an equivalence, the
    value returned for a column over a group is the column's value in a
    row of the group, and a result comes out with the rows it has. *)
Record lawful (srv : server) : Prop := {
  collate_equivalence : equivalence (collate srv);
  any_value_of_group :
    forall c g, g <> [] -> exists r, In r g /\ any_value srv c g = get r c;
  unordered_Permutation : forall t, Permutation t (unordered srv t)
}.

(** An example: the server that compares texts by [ascii_ci], returns the
    values of the first row of a group, and returns the rows in the order
    in which it finds them. *)
Definition first_value (c : string) (g : list row) : value :=
  match g with
  | r :: _ => get r c
  | [] => VNull
  end.

Definition plain_server (only_full_group_by : bool) : server :=
  {| collate := ascii_ci;
     only_full_group_by := only_full_group_by;
     any_value := first_value;
     unordered := fun t => t |}.

(** ** Queries *)

(** Comparison in a WHERE clause is three-valued: with a NULL on either side
    the outcome is unknown.  [sql_eq] compares numbers, and is what the
    queries use on the keys; it takes two texts for equal when they are the
    same text, which is what a binary collation does.  [sql_eq_under]
    compares texts under the collation of the server. *)
Definition sql_eq (a b : value) : option bool :=
  match a, b with
  | VNull, _ => None
  | _, VNull => None
  | _, _ => Some (value_eqb a b)
  end.

Definition sql_eq_under (co : collation) (a b : value) : option bool :=
  match a, b with
  | VNull, _ => None
  | _, VNull => None
  | _, _ => Some (value_eqb_under co a b)
  end.

(** [v IN (vs)]: true when some member equals [v]; otherwise unknown when
    [v] or a member is NULL. *)
Definition sql_in (v : value) (vs : list value) : option bool :=
  if is_null v then None
  else if existsb (value_eqb v) vs then Some true
  else if existsb is_null vs then None
  else Some false.

(** A condition holds when it is true: not false, not unknown. *)
Definition sql_true (o : option bool) : bool :=
  match o with Some true => true | _ => false end.

(** WHERE keeps the rows on which the condition holds. *)
Definition WHERE (p : row -> option bool) (rs : list row) : list row :=
  filter (fun r => sql_true (p r)) rs.

Definition SELECT (cols : list string) (rs : list row) : list (list value) :=
  map (fun r => map (get r) cols) rs.

Definition SELECT1 (c : string) (rs : list row) : list value :=
  map (fun r => get r c) rs.

(** A sub-query used as a value, [x = (SELECT ...)]: NULL when it has no row,
    an error when it has more than one.  A statement evaluates its
    sub-query first here.  Whether a server evaluates it at all when the
    statement finds no row to compare with it or to update is not settled:
    what is stated about the error is stated for the states where the
    value is needed. *)
Definition scalar (vs : list value) : result value :=
  match vs with
  | [] => Ok VNull
  | [v] => Ok v
  | _ :: _ :: _ => Err SubqueryReturnsMoreThanOneRow
  end.

(** The rows selected by
<<
    SELECT title, description, filename FROM MediaItems
      WHERE media_id IN (
        SELECT media_id FROM MediaItemTags WHERE tag_id = (
          SELECT tag_id FROM Tags WHERE tag_name = 'Nature'));
>>
    innermost query first. *)
Definition media_tagged_Nature (co : collation) (db : database) : result (list row) :=
  match scalar (SELECT1 "tag_id"
                  (WHERE (fun t => sql_eq_under co (get t "tag_name") (VStr "Nature"))
                         (rows (db "Tags")))) with
  | Err e => Err e
  | Ok tag =>
    let ids := SELECT1 "media_id"
                 (WHERE (fun mt => sql_eq (get mt "tag_id") tag)
                        (rows (db "MediaItemTags"))) in
    Ok (WHERE (fun m => sql_in (get m "media_id") ids) (rows (db "MediaItems")))
  end.

Definition nature_query (co : collation) (db : database) : result (list (list value)) :=
  match media_tagged_Nature co db with
  | Err e => Err e
  | Ok ms => Ok (SELECT ["title"; "description"; "filename"] ms)
  end.

(** *** Grouping *)

Inductive aggregate : Type := COUNT | MIN | MAX | SUM.

(** An item of the select list: a plain column, or [f(c) AS alias]. *)
Inductive select_item : Type :=
| Column (c : string)
| Aggregate (f : aggregate) (c : string) (alias : string).

(** Rows belong to one group when they agree on the grouping columns (NULLs
    group together).  The values are compared as they are: the columns
    grouped with [same_group] hold numbers, or the name of a user, of which
    a table has no two that the server takes for equal.  A text column in
    general is grouped with [same_group_under]. *)
Definition same_group (by_cols : list string) (r r' : row) : bool :=
  forallb (fun c => value_eqb (get r c) (get r' c)) by_cols.

Fixpoint add_to_groups (by_cols : list string) (r : row) (gs : list (list row))
  : list (list row) :=
  match gs with
  | [] => [[r]]
  | g :: gs' =>
    match g with
    | h :: _ => if same_group by_cols r h then (g ++ [r]) :: gs'
                else g :: add_to_groups by_cols r gs'
    | [] => g :: add_to_groups by_cols r gs'
    end
  end.

(** The groups, in the order in which their first rows appear, which is one
    of the orders in which a server may return them. *)
Definition GROUP_BY (by_cols : list string) (rs : list row) : list (list row) :=
  fold_left (fun gs r => add_to_groups by_cols r gs) rs [].

Definition ints_of (c : string) (g : list row) : list Z :=
  flat_map (fun r => match get r c with VInt z => [z] | _ => [] end) g.

(** The aggregates over the integer columns of the schema; COUNT(c) counts
    the rows where [c] is not NULL. *)
Definition eval_aggregate (f : aggregate) (c : string) (g : list row) : value :=
  match f with
  | COUNT => VInt (Z.of_nat (List.length (filter (fun r => negb (is_null (get r c))) g)))
  | SUM => match ints_of c g with [] => VNull | zs => VInt (fold_right Z.add 0 zs) end
  | MIN => match ints_of c g with [] => VNull | z :: zs => VInt (fold_right Z.min z zs) end
  | MAX => match ints_of c g with [] => VNull | z :: zs => VInt (fold_right Z.max z zs) end
  end.

Definition eval_item (g : list row) (it : select_item) : string * value :=
  match it with
  | Column c => (c, match g with h :: _ => get h c | [] => VNull end)
  | Aggregate f c alias => (alias, eval_aggregate f c g)
  end.

(** A plain column of the select list that is not grouped: what the chapter
    calls ambiguous, and what a server refuses when its [sql_mode] has
    ONLY_FULL_GROUP_BY (ER_WRONG_FIELD_WITH_GROUP).  The servers make one
    exception, for a column that the grouped columns determine through a
    key of its table; no query here is of that kind. *)
Definition ambiguous_item (by_cols : list string) (it : select_item) : bool :=
  match it with
  | Column c => negb (mem c by_cols)
  | Aggregate _ _ _ => false
  end.

(** A grouped query whose select list has grouped columns and aggregates,
    as the queries over Likes and over the joins with Users have: a server
    accepts it whatever its [sql_mode].  Another plain column in the select
    list is refused here, as under ONLY_FULL_GROUP_BY; for the query of the
    chapter that has one, [media_type_with_filesize], the mode is a
    parameter: see [SELECT_GROUP_BY_HAVING]. *)
Definition SELECT_GROUP_BY (items : list select_item) (by_cols : list string)
           (rs : list row) : result (list row) :=
  match find (ambiguous_item by_cols) items with
  | Some (Column c) => Err (AmbiguousProjection c)
  | Some (Aggregate _ _ alias) => Err (AmbiguousProjection alias)
  | None => Ok (map (fun g => map (eval_item g) items) (GROUP_BY by_cols rs))
  end.

(** The order of values under ORDER BY: NULL first, then numbers, then
    strings. *)
Definition value_leb (a b : value) : bool :=
  match a, b with
  | VNull, _ => true
  | VInt _, VNull => false
  | VInt x, VInt y => x <=? y
  | VInt _, VStr _ => true
  | VStr x, VStr y => String.leb x y
  | VStr _, _ => false
  end.

Fixpoint insert_desc (c : string) (x : row) (l : list row) : list row :=
  match l with
  | [] => [x]
  | y :: l' => if value_leb (get y c) (get x c) then x :: y :: l'
               else y :: insert_desc c x l'
  end.

(** ORDER BY c DESC; rows with equal [c] keep their order. *)
Definition ORDER_BY_DESC (c : string) (rs : list row) : list row :=
  fold_right (insert_desc c) [] rs.

Definition LIMIT (n : nat) (rs : list row) : list row := firstn n rs.

(** [SELECT media_id, COUNT(media_id) AS likes FROM Likes GROUP BY media_id
     ORDER BY likes DESC LIMIT 1] *)
Definition most_likes (db : database) : result (list row) :=
  match SELECT_GROUP_BY [Column "media_id"; Aggregate COUNT "media_id" "likes"]
                        ["media_id"] (rows (db "Likes")) with
  | Err e => Err e
  | Ok t => Ok (LIMIT 1 (ORDER_BY_DESC "likes" t))
  end.

(** The like counts before ordering: the same query without ORDER BY and
    LIMIT. *)
Definition like_counts (db : database) : result (list row) :=
  SELECT_GROUP_BY [Column "media_id"; Aggregate COUNT "media_id" "likes"]
                  ["media_id"] (rows (db "Likes")).

(** [UPDATE Users SET user_level_id =
       (SELECT level_id FROM UserLevels WHERE level_name = 'Admin')
     WHERE user_id = 2]
    The value is needed when a user has the id 2: see [scalar]. *)
Definition make_admin (co : collation) (now : Z) (db : database)
  : database * option error :=
  match scalar (SELECT1 "level_id"
                  (WHERE (fun l => sql_eq_under co (get l "level_name") (VStr "Admin"))
                         (rows (db "UserLevels")))) with
  | Err e => (db, Some e)
  | Ok level =>
    exec MediaSharingApp now db
         (UPDATE "Users" "user_level_id" level
                 (fun u => sql_true (sql_eq (get u "user_id") (VInt 2))))
  end.

(** ** user-model.js *)

(** The properties of the object passed to [addUser]: the three it reads,
    and a level the caller may have put there. *)
Record user : Type := {
  username : value;
  email : value;
  password : value;
  user_level_id : value
}.

(** What [addUser] returns: [result[0].insertId], or [{error: e.message}]. *)
Inductive returned : Type :=
| insertId (id : Z)
| error_message (e : error).

Definition addUser (now : Z) (db : database) (u : user) : database * returned :=
  let params := [username u; email u; password u; VInt 2] in
  match insert_rows MediaSharingApp now db "Users"
                    ["username"; "email"; "password"; "user_level_id"] [params] with
  | Ok (db', id) => (db', insertId id)
  | Err e => (db, error_message e)
  end.

(** The row an INSERT builds for one tuple. *)
Definition new_row (now : Z) (db : database) (tbl : table)
           (cols : list string) (vals : list value) : row :=
  build_row now (next_id (db (tbl_name tbl))) tbl (combine cols vals).

(** The value a tuple gives to column [c]; an omitted column is NULL. *)
Definition given (cols : list string) (vals : list value) (c : string) : value :=
  match supplied (combine cols vals) c with
  | Some v => v
  | None => VNull
  end.

(** ** Invariants of the store *)

(** Every stored row satisfies the column constraints of its table: declared
    type, NOT NULL, CHECK. *)
Definition rows_valid (sch : schema) (db : database) : Prop :=
  forall t tbl r c,
    find_table sch t = Some tbl -> In r (rows (db t)) -> In c (tbl_cols tbl) ->
    column_violation tbl r c = None.

(** Every foreign key value of every stored row is NULL or the referenced
    column of a stored row of the parent table. *)
Definition refs_valid (sch : schema) (db : database) : Prop :=
  forall t tbl r fk,
    find_table sch t = Some tbl -> In r (rows (db t)) -> In fk (tbl_fks tbl) ->
    fk_violation db r fk = None.

(** ** Further statements and states used below *)

(** One more row for MediaItems, over the column list of the sample data. *)
Definition insert_media (user_id filename filesize media_type title description : value)
  : statement :=
  INSERT_INTO "MediaItems"
    ["user_id"; "filename"; "filesize"; "media_type"; "title"; "description"]
    [[user_id; filename; filesize; media_type; title; description]].

(** The sample data, then two media items of user 1 with [filesize] 0 and
    -1. *)
Definition db_odd_sizes : database :=
  fst (run MediaSharingApp 0 (seed_db 0)
           [ insert_media (VInt 1) (VStr "empty.jpg") (VInt 0) (VStr "image/jpeg")
                          (VStr "Empty") VNull;
             insert_media (VInt 1) (VStr "minus.jpg") (VInt (-1)) (VStr "image/jpeg")
                          (VStr "Minus") VNull ]).

(** The sample data, then a user registered without a level. *)
Definition db_user_without_level : database :=
  fst (run MediaSharingApp 0 (seed_db 0)
           [ INSERT_INTO "Users" ["username"; "password"; "email"]
               [[VStr "NoLevel"; VStr "to-be-hashed-pw5"; VStr "nolevel@example.com"]] ]).

(** The sample data, then a second tag named Nature. *)
Definition db_two_Nature_tags : database :=
  fst (run MediaSharingApp 0 (seed_db 0)
           [ INSERT_INTO "Tags" ["tag_name"] [[VStr "Nature"]] ]).

(** The sample data, then a tag named NATURE. *)
Definition db_Nature_and_NATURE : database :=
  fst (run MediaSharingApp 0 (seed_db 0)
           [ INSERT_INTO "Tags" ["tag_name"] [[VStr "NATURE"]] ]).

(** ** The Nature query, in the words of the specification *)

(** The Tags rows named Nature: those whose name the collation takes for
    equal to 'Nature'. *)
Definition Nature_tags (co : collation) (db : database) : list row :=
  filter (fun t => value_eqb_under co (get t "tag_name") (VStr "Nature"))
         (rows (db "Tags")).

(** A media row is linked to the tag named Nature when its [media_id]
    appears in a MediaItemTags row joined to a Tags row named Nature. *)
Definition linked_to_Nature (co : collation) (db : database) (m : row) : Prop :=
  exists t mt,
    In t (Nature_tags co db)
    /\ In mt (rows (db "MediaItemTags")) /\ get mt "tag_id" = get t "tag_id"
    /\ get mt "media_id" = get m "media_id".

(** [INSERT INTO MediaItemTags (media_id, tag_id) VALUES (m.media_id, t.tag_id)] *)
Definition link (m t : row) : statement :=
  INSERT_INTO "MediaItemTags" ["media_id"; "tag_id"]
              [[get m "media_id"; get t "tag_id"]].

(** ** Keys *)

Definition no_null_on (k : list string) (r : row) : bool :=
  forallb (fun c => negb (is_null (get r c))) k.

(** In every table, no two rows agree on a key. *)
Definition keys_valid (sch : schema) (db : database) : Prop :=
  forall t tbl k,
    find_table sch t = Some tbl -> In k (unique_keys tbl) ->
    key_collision k (rows (db t)) = false.

(** ** The shape of the declarations *)

Definition column_of (tbl : table) (c : string) : option column :=
  find (fun cl => String.eqb (col_name cl) c) (tbl_cols tbl).

(** What the script's tables have in common: column names are distinct; key
    columns are declared, NOT NULL and without a default; foreign key
    columns are declared, neither generated nor defaulted, and point at
    another table. *)
Definition well_declared (tbl : table) : bool :=
  match duplicate_name (map col_name (tbl_cols tbl)) with
  | Some _ => false
  | None => true
  end
  && forallb (forallb (fun c => match column_of tbl c with
                                | Some cl => not_null_in tbl cl && negb (has_default_now cl)
                                | None => false
                                end))
             (unique_keys tbl)
  && forallb (fun fk => match column_of tbl (fk_col fk) with
                        | Some cl => negb (has_auto_increment cl)
                                     && negb (has_default_now cl)
                        | None => false
                        end
                        && negb (String.eqb (fk_table fk) (tbl_name tbl)))
             (tbl_fks tbl).

(** ** More of the query catalogue *)

(** The first row of each group: a row is kept when no row before it is in
    its group. *)
Definition first_rows (by_cols : list string) (rs : list row) : list row :=
  fold_left (fun hs r => if existsb (same_group by_cols r) hs then hs else hs ++ [r])
            rs [].

(** The group of [h] among [rs]. *)
Definition group_of (by_cols : list string) (rs : list row) (h : row) : list row :=
  filter (fun x => same_group by_cols x h) rs.

(** No two rows of the list are in one group. *)
Fixpoint apart (by_cols : list string) (hs : list row) : Prop :=
  match hs with
  | [] => True
  | h :: hs' => (forall h', In h' hs' -> same_group by_cols h' h = false)
                /\ apart by_cols hs'
  end.

(** [a > b] between numbers and between strings; unknown with a NULL. *)
Definition sql_gt (a b : value) : option bool :=
  match a, b with
  | VInt x, VInt y => Some (y <? x)
  | VStr x, VStr y => Some (negb (String.leb x y))
  | _, _ => None
  end.

(** *** Grouping a text column

    Which rows are one group is up to the collation; which value of a
    group is returned for a column, and in which order the groups come
    out, is up to the server. *)

Definition same_group_under (co : collation) (by_cols : list string) (r r' : row) : bool :=
  forallb (fun c => value_eqb_under co (get r c) (get r' c)) by_cols.

(** Of the elements that [same] takes for equal, the first. *)
Fixpoint firsts {A : Type} (same : A -> A -> bool) (l : list A) : list A :=
  match l with
  | [] => []
  | x :: l' => x :: filter (fun y => negb (same y x)) (firsts same l')
  end.

(** The rows that are in one group with [h]. *)
Definition class_of (co : collation) (by_cols : list string) (rs : list row) (h : row)
  : list row :=
  filter (fun r => same_group_under co by_cols r h) rs.

(** The groups of GROUP BY: the rows of each class. *)
Definition groups (co : collation) (by_cols : list string) (rs : list row)
  : list (list row) :=
  map (class_of co by_cols rs) (firsts (same_group_under co by_cols) rs).

Definition select_item_under (srv : server) (g : list row) (it : select_item)
  : string * value :=
  match it with
  | Column c => (c, any_value srv c g)
  | Aggregate f c alias => (alias, eval_aggregate f c g)
  end.

(** [SELECT items FROM rs GROUP BY by_cols HAVING cond].  A select list
    with a plain column that is not grouped is refused under
    ONLY_FULL_GROUP_BY, and is evaluated without it.  The condition is on the
    group, before the select list is evaluated. *)
Definition SELECT_GROUP_BY_HAVING (srv : server) (items : list select_item)
           (by_cols : list string) (cond : list row -> option bool) (rs : list row)
  : result (list row) :=
  match (if only_full_group_by srv then find (ambiguous_item by_cols) items else None) with
  | Some (Column c) => Err (AmbiguousProjection c)
  | Some (Aggregate _ _ alias) => Err (AmbiguousProjection alias)
  | None => Ok (unordered srv
                  (map (fun g => map (select_item_under srv g) items)
                       (filter (fun g => sql_true (cond g))
                               (groups (collate srv) by_cols rs))))
  end.

(** A grouped query without HAVING keeps every group. *)
Definition every_group (g : list row) : option bool := Some true.

(** [SELECT DISTINCT c FROM rs]: the rows [(c)] of the table, and of those
    that the collation takes for equal, one. *)
Definition SELECT_DISTINCT (srv : server) (c : string) (rs : list row) : list row :=
  unordered srv
    (map (fun g => [(c, any_value srv c g)])
         (groups (collate srv) [c] (map (fun r => [(c, get r c)]) rs))).

(** [SELECT DISTINCT media_type FROM MediaItems] *)
Definition distinct_media_types (srv : server) (db : database) : list row :=
  SELECT_DISTINCT srv "media_type" (rows (db "MediaItems")).

(** [SELECT media_type FROM MediaItems GROUP BY media_type] *)
Definition media_types (srv : server) (db : database) : result (list row) :=
  SELECT_GROUP_BY_HAVING srv [Column "media_type"] ["media_type"] every_group
                         (rows (db "MediaItems")).

(** [SELECT media_type, filesize FROM MediaItems GROUP BY media_type, filesize] *)
Definition media_types_and_sizes (srv : server) (db : database) : result (list row) :=
  SELECT_GROUP_BY_HAVING srv [Column "media_type"; Column "filesize"]
                         ["media_type"; "filesize"] every_group
                         (rows (db "MediaItems")).

(** [SELECT media_type, c FROM MediaItems GROUP BY media_type] *)
Definition media_type_with (srv : server) (c : string) (db : database)
  : result (list row) :=
  SELECT_GROUP_BY_HAVING srv [Column "media_type"; Column c] ["media_type"] every_group
                         (rows (db "MediaItems")).

(** [SELECT media_type, filesize FROM MediaItems GROUP BY media_type], the
    query the chapter calls ambiguous. *)
Definition media_type_with_filesize (srv : server) (db : database) : result (list row) :=
  media_type_with srv "filesize" db.

(** [SELECT media_type FROM MediaItems
       GROUP BY media_type HAVING COUNT(media_type) > 1] *)
Definition media_types_with_several_items (srv : server) (db : database)
  : result (list row) :=
  SELECT_GROUP_BY_HAVING
    srv [Column "media_type"] ["media_type"]
    (fun g => sql_gt (eval_aggregate COUNT "media_type" g) (VInt 1))
    (rows (db "MediaItems")).

(** [SELECT media_type, COUNT(media_type) AS count FROM MediaItems
       GROUP BY media_type HAVING count > 1] *)
Definition media_types_and_counts_of_several (srv : server) (db : database)
  : result (list row) :=
  SELECT_GROUP_BY_HAVING
    srv [Column "media_type"; Aggregate COUNT "media_type" "count"] ["media_type"]
    (fun g => sql_gt (snd (select_item_under srv g (Aggregate COUNT "media_type" "count")))
                     (VInt 1))
    (rows (db "MediaItems")).

(** An aggregate without GROUP BY is over the table as one group, and the
    result has one row even when the table is empty. *)
Definition SELECT_aggregates (aggs : list (aggregate * string)) (rs : list row)
  : list (list value) :=
  [map (fun a => eval_aggregate (fst a) (snd a) rs) aggs].

(** [SELECT MIN(filesize), MAX(filesize) FROM MediaItems] *)
Definition filesize_range (db : database) : list (list value) :=
  SELECT_aggregates [(MIN, "filesize"); (MAX, "filesize")] (rows (db "MediaItems")).

(** [SELECT SUM(filesize) FROM MediaItems] *)
Definition total_filesize (db : database) : list (list value) :=
  SELECT_aggregates [(SUM, "filesize")] (rows (db "MediaItems")).

(** The number of a value: the number itself, 0 for what is no number. *)
Definition number (v : value) : Z := match v with VInt z => z | _ => 0 end.

(** *** Joins *)

(** The columns of a row under the names [Table.column]. *)
Definition qualify (t : string) (r : row) : row :=
  map (fun p => (String.append t (String.append "." (fst p)), snd p)) r.

(** [lt JOIN rt ON on]: the pairs of a row of each table on which the
    condition holds, by the rows of the left table. *)
Definition JOIN (lt : string) (ls : list row) (rt : string) (rs : list row)
           (on : row -> option bool) : list row :=
  flat_map (fun l => WHERE on (map (fun r => qualify lt l ++ qualify rt r) rs)) ls.

(** [SELECT Comments.created_at, username, comment_text
       FROM Comments JOIN Users ON Comments.user_id = Users.user_id
       WHERE media_id = 1] *)
Definition comments_of_media_item_1 (db : database) : list (list value) :=
  SELECT ["Comments.created_at"; "Users.username"; "Comments.comment_text"]
    (WHERE (fun j => sql_eq (get j "Comments.media_id") (VInt 1))
       (JOIN "Comments" (rows (db "Comments")) "Users" (rows (db "Users"))
             (fun j => sql_eq (get j "Comments.user_id") (get j "Users.user_id")))).

(** [SELECT username, COUNT(media_id) AS likes
       FROM Likes JOIN Users ON Likes.user_id = Users.user_id
       GROUP BY username], the counts before ORDER BY and LIMIT. *)
Definition likes_by_username (db : database) : result (list row) :=
  SELECT_GROUP_BY [Column "Users.username"; Aggregate COUNT "Likes.media_id" "likes"]
                  ["Users.username"]
                  (JOIN "Likes" (rows (db "Likes")) "Users" (rows (db "Users"))
                        (fun j => sql_eq (get j "Likes.user_id") (get j "Users.user_id"))).

(** The same [ORDER BY likes DESC LIMIT 1]. *)
Definition username_with_most_likes (db : database) : result (list row) :=
  match likes_by_username db with
  | Err e => Err e
  | Ok t => Ok (LIMIT 1 (ORDER_BY_DESC "likes" t))
  end.

(** [SELECT Users.username, COUNT(MediaItems.media_id) AS NumberOfMediaItems
       FROM Users JOIN MediaItems ON Users.user_id = MediaItems.user_id
       GROUP BY Users.username] *)
Definition media_items_per_user (db : database) : result (list row) :=
  SELECT_GROUP_BY [Column "Users.username";
                   Aggregate COUNT "MediaItems.media_id" "NumberOfMediaItems"]
                  ["Users.username"]
                  (JOIN "Users" (rows (db "Users")) "MediaItems" (rows (db "MediaItems"))
                        (fun j => sql_eq (get j "Users.user_id")
                                         (get j "MediaItems.user_id"))).

(** The Users row a row of another table refers to with its [user_id]. *)
Definition user_of (db : database) (r : row) : row :=
  match find (fun u => value_eqb (get u "user_id") (get r "user_id")) (rows (db "Users")) with
  | Some u => u
  | None => []
  end.

(** ** More statements of the chapter *)

(** The UserLevels rows named Admin: those whose name the collation takes
    for equal to 'Admin'. *)
Definition Admin_levels (co : collation) (db : database) : list row :=
  filter (fun l => value_eqb_under co (get l "level_name") (VStr "Admin"))
         (rows (db "UserLevels")).



(** * The Express application

    The handlers, middlewares and models of the chapters on Express, on
    the database connection and on validation and error handling.  A
    handler is a function from what it reads of the request, and from the
    state it works on (the database, or the array of the mock model), to
    the new state and to the calls it makes on [res] and [next], in order.
    What express-validator found is an argument of the handler
    ([validationResult(req).array()]), and so is the integer a string
    stands for where JavaScript compares a number with a string.  The
    texts of the error messages of the server and of the driver are
    arguments as well.  The upload's limit on the file size and the
    conversions of the server between strings and numbers are outside the
    model: the upload handlers are embedded where the values have the types
    of the columns. *)

(** ** JavaScript values and responses *)

(** The values of a JSON body, and [undefined].  Numbers are the integers,
    which JavaScript holds exactly below 2^53. *)
#[warnings="-register-all"] Inductive js : Type :=
| undefined
| null
| JBool (b : bool)
| JNum (n : Z)
| JStr (s : string)
| JArray (items : list js)
| JObject (props : list (string * js)).

(** What [if (v)], [a && b] and [a || b] test. *)
Definition truthy (v : js) : bool :=
  match v with
  | undefined | null => false
  | JBool b => b
  | JNum n => negb (n =? 0)
  | JStr s => negb (String.eqb s EmptyString)
  | JArray _ | JObject _ => true
  end.

(** [o.k] for an object with the properties [o]. *)
Definition prop (o : list (string * js)) (k : string) : js :=
  match find (fun p => String.eqb (fst p) k) o with
  | Some p => snd p
  | None => undefined
  end.

(** An [Error] object: its message, and the [status] the code may set. *)
Module Error.
Record t : Type := new { message : string; status : option Z }.
End Error.

(** What a handler does to the response and to the chain of middlewares, in
    the order in which it does it. *)
Inductive effect : Type :=
| res_status (code : Z)
| res_json (body : js)
| res_sendStatus (code : Z)
| next (err : Error.t)
| throws_TypeError.

(** ** middlewares/error-handler.js *)

(** [status || 500]: 500 when the status is undefined or 0. *)
Definition or_500 (status : option Z) : Z :=
  match status with
  | Some n => if n =? 0 then 500 else n
  | None => 500
  end.

Definition notFoundHandler (originalUrl : string) : list effect :=
  [next (Error.new (String.append "Not Found - " originalUrl) (Some 404))].

Definition errorHandler (err : Error.t) : list effect :=
  [res_status (or_500 (Error.status err));
   res_json (JObject [("error",
                       JObject [("message", JStr (Error.message err));
                                ("status", JNum (or_500 (Error.status err)))])])].

(** What a handler has done when it returns: it has sent a response with
    [json] or [sendStatus], under the status set before, or it has handed
    an error to [next], and has done nothing after that.  [Nothing] stands
    for every other trace: one that ends without a response, one that
    throws, one that goes on after the response or after [next] (a second
    call of [next], a throw).  What the client sees of those depends on
    more than the trace, on whether the handler is asynchronous for one,
    and is not described here. *)
Inductive outcome : Type :=
| Sent (code : Z) (body : option js)
| Forwarded (err : Error.t)
| Nothing.

Fixpoint outcome_of (code : Z) (trace : list effect) : outcome :=
  match trace with
  | res_status c :: rest => outcome_of c rest
  | [res_json b] => Sent code (Some b)
  | [res_sendStatus c] => Sent c None
  | [next err] => Forwarded err
  | _ => Nothing
  end.

(** The status codes a response can be sent with. *)
Definition valid_status (code : Z) : bool :=
  (100 <=? code) && (code <=? 999).

(** The statuses under which no body is sent, whatever is given to
    [json]. *)
Definition without_body (code : Z) : bool :=
  (code =? 204) || (code =? 205) || (code =? 304).

(** A response sent under a status code.  The body is [None] when the
    response carries no JSON: after [sendStatus], and under a status that
    has no body.  What a client makes of an informational status, 100 to
    199, is not described. *)
Definition sent (code : Z) (body : option js) : option (Z * option js) :=
  if code <=? 199 then None
  else Some (code, if without_body code then None else body).

(** The status and the JSON body that reach the client, where
    [errorHandler] is the last middleware of the chain: an error handed to
    [next] is answered by it.  The request is not a HEAD request and has no
    conditional headers, which would take the body away.  When the error
    handler sets a status that is not a status code, Express itself
    answers 500 with its error page, without JSON.  The result is [None]
    when the trace does not determine a response: see [outcome] and
    [sent], and a handler that sets such a status by itself. *)
Definition response (trace : list effect) : option (Z * option js) :=
  match outcome_of 200 trace with
  | Sent code body => if valid_status code then sent code body else None
  | Forwarded err =>
    match outcome_of 200 (errorHandler err) with
    | Sent code body => if valid_status code then sent code body else Some (500, None)
    | _ => None
    end
  | Nothing => None
  end.

(** ** middlewares/upload.js *)

(** The file of a multipart request as multer describes it. *)
Module file.
Record t : Type := new { filename : string; mimetype : string; size : Z }.
End file.

(** The arguments with which a file filter calls [cb]. *)
Definition fileFilter (f : file.t) : option Error.t * bool :=
  if String.prefix "image/" (file.mimetype f) || String.prefix "video/" (file.mimetype f)
  then (None, true)
  else (None, false).

(** [upload.single('file')] as far as the file filter decides: [req.file]
    is the file when the filter accepts it, and undefined when there is no
    file or the filter skips it; an error of the filter goes to [next].
    The files considered are within [limits.fileSize]. *)
Definition upload_single (filter : file.t -> option Error.t * bool)
           (part : option file.t) : Error.t + option file.t :=
  match part with
  | None => inr None
  | Some f =>
    match filter f with
    | (Some err, _) => inl err
    | (None, true) => inr (Some f)
    | (None, false) => inr None
    end
  end.

(** ** controllers, validation in the handler *)

Definition isEmpty (errors : list js) : bool :=
  match errors with [] => true | _ :: _ => false end.

(** [postMedia] up to the part the chapter leaves out: [None] when both
    checks pass. *)
Definition postMedia (errors : list js) (req_file : option file.t)
  : option (list effect) :=
  match req_file with
  | None => Some [res_status 400; res_json (JObject [("error", JStr "Invalid or missing file")])]
  | Some _ =>
    if negb (isEmpty errors)
    then Some [res_status 400; res_json (JObject [("errors", JArray errors)])]
    else None
  end.

Section Messages.

(** The text of the message of a server error. *)
Variable sql_message : error -> string.

(** What [addUser] returned, as the value of [user_id] in the response. *)
Definition newUserId (r : returned) : js :=
  match r with
  | insertId id => JNum id
  | error_message e => JObject [("error", JStr (sql_message e))]
  end.

(** [errors] is [validationResult(req).array()], [body] is [req.body]. *)
Definition postUser (errors : list js) (now : Z) (db : database) (body : user)
  : database * list effect :=
  if negb (isEmpty errors)
  then (db, [res_status 400; res_json (JObject [("errors", JArray errors)])])
  else
    let (db', r) := addUser now db body in
    (db', [res_json (JObject [("message", JStr "new user added");
                              ("user_id", newUserId r)])]).

End Messages.

(** ** models/media-model.js *)

(** The object passed to [addMedia] by the controller of the upload: the
    text fields of the multipart body are strings or undefined, the
    properties of the file and the id of the user are set by middlewares. *)
Module media.
Record t : Type := new {
  title : option string;
  description : option string;
  user_id : Z;
  filename : string;
  mimetype : string;
  size : Z
}.
End media.

(** The table a name in a statement stands for.  The model writes
    [mediaItems], the script creates [MediaItems]: whether the two are one
    table is the server's [lower_case_table_names]. *)
Definition table_named (case_insensitive : bool) (sch : schema) (t : string) : string :=
  if case_insensitive
  then match find (fun tbl => String.eqb (lower (tbl_name tbl)) (lower t)) sch with
       | Some tbl => tbl_name tbl
       | None => t
       end
  else t.

(** Why [execute] failed: the server rejected the statement, or a bind
    parameter was undefined and the statement was not sent. *)
Inductive failure : Type :=
| server_error (e : error)
| undefined_bind_parameter.

(** [{media_id: rows[0].insertId}] or [{error: e.message}]. *)
Definition addMedia (case_insensitive : bool) (now : Z) (db : database) (m : media.t)
  : database * (Z + failure) :=
  match media.title m, media.description m with
  | Some title, Some description =>
    match insert_rows MediaSharingApp now db
                      (table_named case_insensitive MediaSharingApp "mediaItems")
                      ["user_id"; "filename"; "filesize"; "media_type"; "title";
                       "description"]
                      [[VInt (media.user_id m); VStr (media.filename m);
                        VInt (media.size m); VStr (media.mimetype m);
                        VStr title; VStr description]] with
    | Ok (db', id) => (db', inl id)
    | Err e => (db, inr (server_error e))
    end
  | _, _ => (db, inr undefined_bind_parameter)
  end.

(** [SELECT * FROM t]: the rows of the table, if there is one of that
    name. *)
Definition select_all (sch : schema) (db : database) (t : string) : result (list row) :=
  match find_table sch t with
  | Some tbl => Ok (rows (db (tbl_name tbl)))
  | None => Err (NoSuchTable t)
  end.

(** The rows, or [{error: e.message}]. *)
Definition listAllMedia (case_insensitive : bool) (db : database) : list row + failure :=
  match select_all MediaSharingApp db
                   (table_named case_insensitive MediaSharingApp "mediaItems") with
  | Ok rs => inl rs
  | Err e => inr (server_error e)
  end.

Section TextParameter.

(** The integer the server reads in a string that it compares with an INT
    column, if it reads one. *)
Variable number_of_text : string -> option Z.

(** [rows[0]], which is undefined when no row has the id, or
    [{error: e.message}]. *)
Definition findMediaById (case_insensitive : bool) (db : database) (id : string)
  : option row + failure :=
  match select_all MediaSharingApp db
                   (table_named case_insensitive MediaSharingApp "mediaItems") with
  | Ok rs =>
    inl (hd_error (WHERE (fun m => match number_of_text id with
                                   | Some n => sql_eq (get m "media_id") (VInt n)
                                   | None => Some false
                                   end) rs))
  | Err e => inr (server_error e)
  end.

(** ** controllers/media-controller.js over the database *)

(** The text of [e.message], and a row as the object the driver makes of
    it. *)
Variable message : failure -> string.
Variable as_object : row -> js.

Definition getMedia (case_insensitive : bool) (db : database) : list effect :=
  match listAllMedia case_insensitive db with
  | inl rs => [res_json (JArray (map as_object rs))]
  | inr e =>
    if negb (truthy (JStr (message e)))
    then [res_json (JObject [("error", JStr (message e))])]
    else [res_status 500; res_json (JObject [("error", JStr (message e))])]
  end.

Definition getMediaById (case_insensitive : bool) (db : database) (id : string)
  : list effect :=
  match findMediaById case_insensitive db id with
  | inl (Some media) => [res_json (as_object media)]
  | inl None => [res_sendStatus 404]
  | inr e => [res_json (JObject [("error", JStr (message e))])]
  end.

End TextParameter.

(** ** controllers and upload, errors passed to the error handler *)

Module Refactored.

Definition fileFilter (f : file.t) : option Error.t * bool :=
  if String.prefix "image/" (file.mimetype f) || String.prefix "video/" (file.mimetype f)
  then (None, true)
  else (Some (Error.new "Only images and videos are allowed!" (Some 400)), false).

Section Messages.

Variable sql_message : error -> string.

Definition postUser (errors : list js) (now : Z) (db : database) (body : user)
  : database * list effect :=
  if negb (isEmpty errors)
  then (db, [next (Error.new "Invalid or missing fields" (Some 400))])
  else
    let (db', r) := addUser now db body in
    (db', [res_json (JObject [("message", JStr "new user added");
                              ("user_id", newUserId sql_message r)])]).

(** The text of [e.message] in [addMedia]. *)
Variable message : failure -> string.

(** [req_file] is [req.file], [title] and [description] are the two
    properties read from [req.body], [user_id] is [req.user.user_id]. *)
Definition postMedia (case_insensitive : bool) (errors : list js) (now : Z)
           (db : database) (req_file : option file.t)
           (title description : option string) (user_id : Z)
  : database * list effect :=
  let without_file :=
      match req_file with
      | None => [next (Error.new "Invalid or missing file" (Some 400))]
      | Some _ => []
      end in
  if negb (isEmpty errors)
  then (db, without_file ++ [next (Error.new "Invalid or missing fields" (Some 400))])
  else
    match req_file with
    | None => (db, without_file ++ [throws_TypeError])
    | Some f =>
      let (db', result) :=
          addMedia case_insensitive now db
                   (media.new title description user_id
                              (file.filename f) (file.mimetype f) (file.size f)) in
      match result with
      | inl media_id =>
        (db', [res_status 201;
               res_json (JObject [("message", JStr "New media item added.");
                                  ("media_id", JNum media_id)])])
      | inr e =>
        if truthy (JStr (message e))
        then (db', [next (Error.new (message e) None)])
        else (db', [res_status 201;
                    res_json (JObject [("message", JStr "New media item added.");
                                       ("error", JStr (message e))])])
      end
    end.

End Messages.

End Refactored.

(** ** The mock data of the first media-model.js and its controller *)

Module Mock.

(** An element of [mediaItems].  [media_id] is a number in every element
    the module ever holds; a property that an element lacks is undefined. *)
Record item : Type := {
  media_id : Z;
  filename : js;
  filesize : js;
  title : js;
  description : js;
  user_id : js;
  media_type : js;
  created_at : js
}.

Definition Desert : item :=
  {| media_id := 9592; filename := JStr "f504.jpg"; filesize := JNum 48975;
     title := JStr "Desert"; description := JStr EmptyString; user_id := JNum 3609;
     media_type := JStr "image/jpeg"; created_at := JStr "2023-10-12T06:59:05.000Z" |}.

Definition Basement : item :=
  {| media_id := 9593; filename := JStr "60ac.jpg"; filesize := JNum 23829;
     title := JStr "Basement"; description := JStr "Light setup in basement";
     user_id := JNum 305; media_type := JStr "image/jpeg";
     created_at := JStr "2023-10-12T06:56:41.000Z" |}.

Definition mediaItems : list item := [Desert; Basement].

Definition listAllMedia (mediaItems : list item) : list item := mediaItems.

Section Ids.

(** The integer a string stands for when it is compared with a number, if
    it stands for one. *)
Variable StringToNumber : string -> option Z.

(** [n == id] for a string [id]. *)
Definition loosely_equal (n : Z) (id : string) : bool :=
  match StringToNumber id with
  | Some m => n =? m
  | None => false
  end.

Definition findMediaById (mediaItems : list item) (id : string) : option item :=
  find (fun item => loosely_equal (media_id item) id) mediaItems.

End Ids.

(** The array after [unshift]; [None] when [mediaItems[0]] is undefined and
    reading its [media_id] throws. *)
Definition addMedia (mediaItems : list item) (media : list (string * js))
  : option (list item) :=
  match mediaItems with
  | [] => None
  | first :: _ =>
    Some ({| media_id := media_id first + 1;
             filename := prop media "filename";
             filesize := undefined;
             title := prop media "title";
             description := prop media "description";
             user_id := prop media "user_id";
             media_type := undefined;
             created_at := undefined |} :: mediaItems)
  end.

(** An element as a response body. *)
Definition to_js (i : item) : js :=
  JObject [("media_id", JNum (media_id i)); ("filename", filename i);
           ("filesize", filesize i); ("title", title i);
           ("description", description i); ("user_id", user_id i);
           ("media_type", media_type i); ("created_at", created_at i)].

Definition getMedia (mediaItems : list item) : list effect :=
  [res_json (JArray (map to_js (listAllMedia mediaItems)))].

Definition getMediaById (StringToNumber : string -> option Z)
           (mediaItems : list item) (id : string) : list effect :=
  match findMediaById StringToNumber mediaItems id with
  | Some media => [res_json (to_js media)]
  | None => [res_sendStatus 404]
  end.

Definition postMedia (mediaItems : list item) (body : list (string * js))
  : list item * list effect :=
  if truthy (prop body "filename") && truthy (prop body "title")
     && truthy (prop body "description") && truthy (prop body "user_id")
  then match addMedia mediaItems body with
       | Some mediaItems' =>
         (mediaItems', [res_status 201;
                        res_json (JObject [("message", JStr "New media item added.")])])
       | None => (mediaItems, [throws_TypeError])
       end
  else (mediaItems, [res_sendStatus 400]).

Definition putMedia (mediaItems : list item) : list item * list effect :=
  (mediaItems, [res_sendStatus 200]).

Definition deleteMedia (mediaItems : list item) : list item * list effect :=
  (mediaItems, [res_sendStatus 200]).

(** The arrays the module holds while the application serves requests. *)
Inductive served : list item -> Prop :=
| started : served mediaItems
| posted (s : list item) (body : list (string * js)) :
    served s -> served (fst (postMedia s body)).

End Mock.

(** * Properties of the engine *)

(** Membership in a list that computes to explicit elements. *)
Ltac listed := vm_compute; repeat (first [left; reflexivity | right]); contradiction.

(** A declaration is one of those of its table. *)
Ltac declared := simpl; tauto.

Lemma filter_all {A : Type} (p : A -> bool) (l : list A) :
  (forall x, In x l -> p x = true) -> filter p l = l.
Proof.
  induction l as [|x l IH]; simpl; intro H; [reflexivity|].
  rewrite (H x (or_introl eq_refl)). f_equal. apply IH. intros y Hy. apply H. now right.
Qed.

Lemma filter_none {A : Type} (p : A -> bool) (l : list A) :
  (forall x, In x l -> p x = false) -> filter p l = [].
Proof.
  induction l as [|x l IH]; simpl; intro H; [reflexivity|].
  rewrite (H x (or_introl eq_refl)). apply IH. intros y Hy. apply H. now right.
Qed.

Lemma value_eqb_eq (a b : value) : value_eqb a b = true <-> a = b.
Proof.
  destruct a, b; simpl; split; intro H; try discriminate; try reflexivity.
  - apply Z.eqb_eq in H. now subst.
  - inversion H. apply Z.eqb_refl.
  - apply String.eqb_eq in H. now subst.
  - inversion H. apply String.eqb_refl.
Qed.

Lemma value_eqb_refl (a : value) : value_eqb a a = true.
Proof. now apply value_eqb_eq. Qed.

Lemma is_null_true (v : value) : is_null v = true <-> v = VNull.
Proof. destruct v; simpl; split; intro H; try discriminate; reflexivity. Qed.

Lemma find_table_name (sch : schema) (t : string) (tbl : table) :
  find_table sch t = Some tbl -> tbl_name tbl = t.
Proof.
  intro H. apply find_some in H. destruct H as [_ H].
  now apply String.eqb_eq in H.
Qed.

Lemma find_table_In (sch : schema) (t : string) (tbl : table) :
  find_table sch t = Some tbl -> In tbl sch.
Proof. intro H. now apply find_some in H. Qed.

Lemma set_table_same (db : database) (t : string) (s : table_state) :
  set_table db t s t = s.
Proof. unfold set_table. now rewrite String.eqb_refl. Qed.

Lemma set_table_other (db : database) (t t' : string) (s : table_state) :
  t' <> t -> set_table db t s t' = db t'.
Proof.
  intro H. unfold set_table.
  destruct (String.eqb_spec t' t); [contradiction | reflexivity].
Qed.

Lemma first_violation_none {A : Type} (f : A -> option violation) (l : list A) :
  first_violation f l = None <-> forall x, In x l -> f x = None.
Proof.
  induction l as [|a l IH]; simpl.
  - split; [intros _ x [] | reflexivity].
  - destruct (f a) eqn:E.
    + split; [discriminate|]. intro H. rewrite <- E. apply H. now left.
    + rewrite IH. split.
      * intros H x [<-|Hx]; [assumption | now apply H].
      * intros H x Hx. apply H. now right.
Qed.

Lemma first_error_none {A : Type} (f : A -> option error) (l : list A) :
  first_error f l = None <-> forall x, In x l -> f x = None.
Proof.
  induction l as [|a l IH]; simpl.
  - split; [intros _ x [] | reflexivity].
  - destruct (f a) eqn:E.
    + split; [discriminate|]. intro H. rewrite <- E. apply H. now left.
    + rewrite IH. split.
      * intros H x [<-|Hx]; [assumption | now apply H].
      * intros H x Hx. apply H. now right.
Qed.

Lemma first_error_some {A : Type} (f : A -> option error) (l : list A) (e : error) :
  first_error f l = Some e -> exists x, In x l /\ f x = Some e.
Proof.
  induction l as [|a l IH]; simpl; [discriminate|].
  destruct (f a) eqn:E.
  - intro H. inversion H; subst. exists a. split; [now left | assumption].
  - intro H. destruct (IH H) as [x [Hx Hf]]. exists x. split; [now right | assumption].
Qed.

(** What an accepted row has passed. *)
Lemma violated_none (db : database) (tbl : table) (r : row) :
  violated db tbl r = None ->
  (forall c, In c (tbl_cols tbl) -> column_violation tbl r c = None)
  /\ (forall k, In k (unique_keys tbl) ->
                key_violation (rows (db (tbl_name tbl))) r k = None)
  /\ (forall fk, In fk (tbl_fks tbl) -> fk_violation db r fk = None).
Proof.
  unfold violated. intro H.
  destruct (first_violation (column_violation tbl r) (tbl_cols tbl)) eqn:E1;
    [discriminate|].
  destruct (first_violation (key_violation (rows (db (tbl_name tbl))) r)
                            (unique_keys tbl)) eqn:E2; [discriminate|].
  repeat split; now apply first_violation_none.
Qed.

Lemma insert_row_inv (sch : schema) (now : Z) (db db' : database) (t : string)
      (cols : list string) (vals : list value) (id : Z) :
  insert_row sch now db t cols vals = Ok (db', id) ->
  exists tbl,
    find_table sch t = Some tbl
    /\ statement_error tbl cols vals = None
    /\ violated db tbl (new_row now db tbl cols vals) = None
    /\ id = insert_id tbl (new_row now db tbl cols vals)
    /\ db' = set_table db t
                       {| rows := rows (db t) ++ [new_row now db tbl cols vals];
                          next_id := Z.max (next_id (db t)) (id + 1) |}.
Proof.
  unfold insert_row, new_row. intro H.
  destruct (find_table sch t) as [tbl|] eqn:Ef; [|discriminate].
  pose proof (find_table_name _ _ _ Ef) as Hn.
  destruct (statement_error tbl cols vals) eqn:Es; [discriminate|].
  destruct (violated db tbl _) eqn:Ev; [discriminate|].
  inversion H; subst. exists tbl. repeat split; assumption.
Qed.

(** A well-formed INSERT into a declared table can only be rejected for a
    constraint. *)
Lemma insert_row_err (sch : schema) (now : Z) (db : database) (t : string)
      (tbl : table) (cols : list string) (vals : list value) (e : error) :
  find_table sch t = Some tbl ->
  statement_error tbl cols vals = None ->
  insert_row sch now db t cols vals = Err e ->
  exists v, e = ConstraintViolation v.
Proof.
  unfold insert_row. intros -> ->.
  destruct (violated db tbl _) as [v|]; [|discriminate].
  intro H. inversion H. now exists v.
Qed.

(** ** The invariants hold in every reachable state *)

Section Invariants.

Variable sch : schema.

Lemma fk_violation_grow (db db' : database) (r : row) (fk : foreign_key) :
  (forall t, incl (rows (db t)) (rows (db' t))) ->
  fk_violation db r fk = None -> fk_violation db' r fk = None.
Proof.
  unfold fk_violation, references. intros Hin H.
  destruct (is_null (get r (fk_col fk))); [reflexivity|]. simpl in *.
  destruct (existsb _ (rows (db (fk_table fk)))) eqn:E; [|discriminate].
  apply existsb_exists in E. destruct E as [p [Hp Hv]].
  assert (E' : existsb (fun p => value_eqb (get p (fk_ref fk)) (get r (fk_col fk)))
                       (rows (db' (fk_table fk))) = true).
  { apply existsb_exists. exists p. split; [now apply Hin | assumption]. }
  now rewrite E'.
Qed.

Lemma insert_row_grows (now : Z) (db db' : database) (t : string)
      (cols : list string) (vals : list value) (id : Z) :
  insert_row sch now db t cols vals = Ok (db', id) ->
  forall t', incl (rows (db t')) (rows (db' t')).
Proof.
  intros H t'. apply insert_row_inv in H.
  destruct H as [tbl [_ [_ [_ [_ ->]]]]].
  unfold set_table. destruct (String.eqb_spec t' t) as [->|_].
  - simpl. intros x Hx. apply in_or_app. now left.
  - apply incl_refl.
Qed.

Lemma insert_row_rows_valid (now : Z) (db db' : database) (t : string)
      (cols : list string) (vals : list value) (id : Z) :
  rows_valid sch db ->
  insert_row sch now db t cols vals = Ok (db', id) ->
  rows_valid sch db'.
Proof.
  intros Hv H. apply insert_row_inv in H.
  destruct H as [tbl [Hf [_ [Hnone [_ ->]]]]].
  intros t1 tbl1 r c Hf1 Hr Hc. unfold set_table in Hr.
  destruct (String.eqb_spec t1 t) as [->|_].
  - simpl in Hr. apply in_app_or in Hr. destruct Hr as [Hr|[<-|[]]].
    + now apply (Hv t tbl1).
    + rewrite Hf in Hf1. inversion Hf1; subst tbl1.
      apply violated_none in Hnone. now apply Hnone.
  - now apply (Hv t1 tbl1).
Qed.

Lemma insert_row_refs_valid (now : Z) (db db' : database) (t : string)
      (cols : list string) (vals : list value) (id : Z) :
  refs_valid sch db ->
  insert_row sch now db t cols vals = Ok (db', id) ->
  refs_valid sch db'.
Proof.
  intros Hv H. pose proof (insert_row_grows _ _ _ _ _ _ _ H) as Hg.
  apply insert_row_inv in H.
  destruct H as [tbl [Hf [_ [Hnone [_ Hdb]]]]].
  intros t1 tbl1 r fk Hf1 Hr Hfk.
  apply (fk_violation_grow db db'); [assumption|].
  rewrite Hdb in Hr. unfold set_table in Hr.
  destruct (String.eqb_spec t1 t) as [->|_].
  - simpl in Hr. apply in_app_or in Hr. destruct Hr as [Hr|[<-|[]]].
    + now apply (Hv t tbl1).
    + rewrite Hf in Hf1. inversion Hf1; subst tbl1.
      apply violated_none in Hnone. now apply Hnone.
  - now apply (Hv t1 tbl1).
Qed.

Lemma insert_rows_rows_valid (now : Z) (t : string) (cols : list string)
      (tuples : list (list value)) :
  forall db db' id,
    rows_valid sch db ->
    insert_rows sch now db t cols tuples = Ok (db', id) ->
    rows_valid sch db'.
Proof.
  induction tuples as [|vals rest IH]; simpl; intros db db' id Hv H.
  - now inversion H; subst.
  - destruct (insert_row sch now db t cols vals) as [[db1 id1]|] eqn:E1; [|discriminate].
    destruct (insert_rows sch now db1 t cols rest) as [[db2 id2]|] eqn:E2; [|discriminate].
    inversion H; subst. apply (IH db1 db' id2); [|assumption].
    now apply (insert_row_rows_valid now db db1 t cols vals id).
Qed.

Lemma insert_rows_refs_valid (now : Z) (t : string) (cols : list string)
      (tuples : list (list value)) :
  forall db db' id,
    refs_valid sch db ->
    insert_rows sch now db t cols tuples = Ok (db', id) ->
    refs_valid sch db'.
Proof.
  induction tuples as [|vals rest IH]; simpl; intros db db' id Hv H.
  - now inversion H; subst.
  - destruct (insert_row sch now db t cols vals) as [[db1 id1]|] eqn:E1; [|discriminate].
    destruct (insert_rows sch now db1 t cols rest) as [[db2 id2]|] eqn:E2; [|discriminate].
    inversion H; subst. apply (IH db1 db' id2); [|assumption].
    now apply (insert_row_refs_valid now db db1 t cols vals id).
Qed.

Lemma delete_rows_inv (db db' : database) (t : string) (cond : row -> bool) :
  delete_rows sch db t cond = Ok db' ->
  exists tbl,
    find_table sch t = Some tbl
    /\ delete_error sch db t (filter cond (rows (db t))) = None
    /\ db' = set_table db t
                       {| rows := filter (fun r => negb (cond r)) (rows (db t));
                          next_id := next_id (db t) |}.
Proof.
  unfold delete_rows. intro H.
  destruct (find_table sch t) as [tbl|] eqn:Ef; [|discriminate].
  rewrite (find_table_name _ _ _ Ef) in H.
  destruct (delete_error sch db t _) eqn:Ed; [discriminate|].
  inversion H; subst. exists tbl. repeat split; assumption.
Qed.

Lemma delete_rows_shrinks (db db' : database) (t : string) (cond : row -> bool) :
  delete_rows sch db t cond = Ok db' ->
  forall t', incl (rows (db' t')) (rows (db t')).
Proof.
  intros H t'. apply delete_rows_inv in H. destruct H as [tbl [_ [_ ->]]].
  unfold set_table. destruct (String.eqb_spec t' t) as [->|_].
  - simpl. intros x Hx. now apply filter_In in Hx.
  - apply incl_refl.
Qed.

Lemma delete_rows_rows_valid (db db' : database) (t : string) (cond : row -> bool) :
  rows_valid sch db -> delete_rows sch db t cond = Ok db' -> rows_valid sch db'.
Proof.
  intros Hv H t1 tbl1 r c Hf Hr Hc.
  apply (Hv t1 tbl1); try assumption.
  now apply (delete_rows_shrinks _ _ _ _ H).
Qed.

(** A row that is referred to is not among the victims of an accepted
    DELETE. *)
Lemma delete_keeps_parents (db db' : database) (t : string) (cond : row -> bool)
      (t1 : string) (tbl1 : table) (r : row) (fk : foreign_key) :
  delete_rows sch db t cond = Ok db' ->
  find_table sch t1 = Some tbl1 -> In r (rows (db t1)) -> In fk (tbl_fks tbl1) ->
  fk_violation db r fk = None -> fk_violation db' r fk = None.
Proof.
  intros H Hf1 Hr Hfk Hok. apply delete_rows_inv in H.
  destruct H as [tbl [Hf [Hde ->]]].
  unfold fk_violation, references in *.
  destruct (is_null (get r (fk_col fk))) eqn:En; [reflexivity|]. simpl in *.
  destruct (existsb _ (rows (db (fk_table fk)))) eqn:E; [|discriminate].
  apply existsb_exists in E. destruct E as [p [Hp Hpv]].
  unfold set_table. destruct (String.eqb_spec (fk_table fk) t) as [Ht|Ht].
  - simpl. destruct (cond p) eqn:Ec.
    + exfalso. unfold delete_error in Hde.
      rewrite first_error_none in Hde.
      specialize (Hde tbl1 (find_table_In _ _ _ Hf1)).
      rewrite first_error_none in Hde.
      assert (Hin : In fk (fks_to t tbl1)).
      { unfold fks_to. apply filter_In. split; [assumption|].
        now apply String.eqb_eq. }
      specialize (Hde fk Hin). unfold fk_delete_error in Hde.
      assert (Hh : existsb (holds_on (filter cond (rows (db t))) fk)
                           (rows (db (tbl_name tbl1))) = true).
      { apply existsb_exists. exists r. split.
        - now rewrite (find_table_name _ _ _ Hf1).
        - unfold holds_on. rewrite En. simpl.
          apply existsb_exists. exists p. split; [|assumption].
          apply filter_In. split; [now rewrite <- Ht | assumption]. }
      rewrite Hh in Hde.
      destruct (fk_on_delete fk) as [[]|]; discriminate.
    + assert (E' : existsb (fun p0 => value_eqb (get p0 (fk_ref fk)) (get r (fk_col fk)))
                           (filter (fun r0 => negb (cond r0)) (rows (db t))) = true).
      { apply existsb_exists. exists p. split; [|assumption].
        apply filter_In. split; [now rewrite <- Ht | now rewrite Ec]. }
      now rewrite E'.
  - assert (E' : existsb (fun p0 => value_eqb (get p0 (fk_ref fk)) (get r (fk_col fk)))
                         (rows (db (fk_table fk))) = true).
    { apply existsb_exists. now exists p. }
    now rewrite E'.
Qed.

Lemma delete_rows_refs_valid (db db' : database) (t : string) (cond : row -> bool) :
  refs_valid sch db -> delete_rows sch db t cond = Ok db' -> refs_valid sch db'.
Proof.
  intros Hv H t1 tbl1 r fk Hf Hr Hfk.
  pose proof (delete_rows_shrinks _ _ _ _ H t1 r Hr) as Hr0.
  apply (delete_keeps_parents db db' t cond t1 tbl1); try assumption.
  now apply (Hv t1 tbl1).
Qed.

Lemma get_set_cell_same (r : row) (c : string) (v : value) :
  get (set_cell r c v) c = v.
Proof.
  unfold get. induction r as [|p r IH]; simpl.
  - now rewrite String.eqb_refl.
  - destruct (String.eqb (fst p) c) eqn:E; simpl.
    + now rewrite String.eqb_refl.
    + now rewrite E.
Qed.

Lemma get_set_cell_other (r : row) (c c' : string) (v : value) :
  c' <> c -> get (set_cell r c v) c' = get r c'.
Proof.
  intro Hne. unfold get. induction r as [|p r IH]; simpl.
  - destruct (String.eqb_spec c c'); [congruence | reflexivity].
  - destruct (String.eqb (fst p) c) eqn:E; simpl.
    + apply String.eqb_eq in E. rewrite E.
      destruct (String.eqb_spec c c'); [congruence | reflexivity].
    + destruct (String.eqb (fst p) c'); [reflexivity | exact IH].
Qed.

Lemma update_rows_inv (db db' : database) (t c : string) (v : value)
      (cond : row -> bool) :
  update_rows sch db t c v cond = Ok db' ->
  exists tbl,
    find_table sch t = Some tbl
    /\ (forall r cl, In r (rows (db t)) -> cond r = true -> In cl (tbl_cols tbl) ->
                     column_violation tbl (set_cell r c v) cl = None)
    /\ (forall r fk, In r (rows (db t)) -> cond r = true -> In fk (tbl_fks tbl) ->
                     fk_col fk = c -> fk_violation db' (set_cell r c v) fk = None)
    /\ update_error sch db t c
                    (filter (fun r => cond r && negb (value_eqb (get r c) v))
                            (rows (db t))) = None
    /\ db' = set_table db t
                       {| rows := map (fun r => if cond r then set_cell r c v else r)
                                      (rows (db t));
                          next_id := next_id (db t) |}.
Proof.
  unfold update_rows. intro H.
  destruct (find_table sch t) as [tbl|] eqn:Ef; [|discriminate].
  rewrite (find_table_name _ _ _ Ef) in H.
  destruct (negb (mem c (map col_name (tbl_cols tbl)))); [discriminate|].
  destruct (first_violation
              (fun r => first_violation (column_violation tbl (set_cell r c v))
                                        (tbl_cols tbl)) _) eqn:E1; [discriminate|].
  destruct (first_violation
              (fun k => if mem c k && key_collision k _ then Some (Duplicate k) else None)
              _) eqn:E2; [discriminate|].
  destruct (first_violation
              (fun r => first_violation (fk_violation _ (set_cell r c v)) _) _) eqn:E3;
    [discriminate|].
  destruct (update_error sch db t c _) eqn:E4; [discriminate|].
  inversion H; subst db'. exists tbl. split; [reflexivity|].
  rewrite first_violation_none in E1. rewrite first_violation_none in E3.
  repeat split; try assumption.
  - intros r cl Hr Hc Hcl.
    assert (Hin : In r (filter cond (rows (db t)))) by (apply filter_In; now split).
    specialize (E1 r Hin). rewrite first_violation_none in E1. now apply E1.
  - intros r fk Hr Hc Hfk Hcol.
    assert (Hin : In r (filter cond (rows (db t)))) by (apply filter_In; now split).
    specialize (E3 r Hin). rewrite first_violation_none in E3. apply E3.
    apply filter_In. split; [assumption | now apply String.eqb_eq].
Qed.

Lemma update_rows_rows_valid (db db' : database) (t c : string) (v : value)
      (cond : row -> bool) :
  rows_valid sch db -> update_rows sch db t c v cond = Ok db' -> rows_valid sch db'.
Proof.
  intros Hv H. apply update_rows_inv in H.
  destruct H as [tbl [Hf [Hcols [_ [_ ->]]]]].
  intros t1 tbl1 r cl Hf1 Hr Hcl. unfold set_table in Hr.
  destruct (String.eqb_spec t1 t) as [->|_].
  - simpl in Hr. apply in_map_iff in Hr. destruct Hr as [r0 [<- Hr0]].
    rewrite Hf in Hf1. inversion Hf1; subst tbl1.
    destruct (cond r0) eqn:Ec.
    + now apply Hcols.
    + now apply (Hv t tbl).
  - now apply (Hv t1 tbl1).
Qed.

(** After an accepted UPDATE the rows that were there before still find
    their parents: a parent either keeps the referenced value or is not
    referred to. *)
Lemma update_keeps_parents (db db' : database) (t c : string) (v : value)
      (cond : row -> bool) (t1 : string) (tbl1 : table) (r : row) (fk : foreign_key) :
  update_rows sch db t c v cond = Ok db' ->
  find_table sch t1 = Some tbl1 -> In r (rows (db t1)) -> In fk (tbl_fks tbl1) ->
  fk_violation db r fk = None -> fk_violation db' r fk = None.
Proof.
  intros H Hf1 Hr Hfk Hok. apply update_rows_inv in H.
  destruct H as [tbl [Hf [_ [_ [Hue ->]]]]].
  unfold fk_violation, references in *.
  destruct (is_null (get r (fk_col fk))) eqn:En; [reflexivity|]. simpl in *.
  destruct (existsb _ (rows (db (fk_table fk)))) eqn:E; [|discriminate].
  apply existsb_exists in E. destruct E as [p [Hp Hpv]].
  match goal with
  | |- (if ?b then _ else _) = _ => assert (Hb : b = true); [|now rewrite Hb]
  end.
  apply existsb_exists. unfold set_table.
  destruct (String.eqb_spec (fk_table fk) t) as [Ht|Ht]; [|now exists p].
  simpl. rewrite Ht in Hp.
  exists (if cond p then set_cell p c v else p). split.
  - apply in_map_iff. now exists p.
  - destruct (cond p) eqn:Ec; [|assumption].
    destruct (String.eqb_spec (fk_ref fk) c) as [Hc|Hc];
      [|now rewrite get_set_cell_other].
    rewrite Hc in *. rewrite get_set_cell_same.
    destruct (value_eqb (get p c) v) eqn:Ev.
    + apply value_eqb_eq in Ev. now rewrite <- Ev.
    + exfalso. unfold update_error in Hue. rewrite first_error_none in Hue.
      specialize (Hue tbl1 (find_table_In _ _ _ Hf1)).
      rewrite first_error_none in Hue.
      assert (Hin : In fk (fks_to_column t c tbl1)).
      { unfold fks_to_column. apply filter_In. split; [assumption|].
        apply andb_true_intro. split; now apply String.eqb_eq. }
      specialize (Hue fk Hin). unfold fk_update_error in Hue.
      assert (Hh : existsb
                     (holds_on (filter (fun r0 => cond r0 && negb (value_eqb (get r0 c) v))
                                       (rows (db t))) fk)
                     (rows (db (tbl_name tbl1))) = true).
      { apply existsb_exists. exists r. split.
        - now rewrite (find_table_name _ _ _ Hf1).
        - unfold holds_on. rewrite En. simpl.
          apply existsb_exists. exists p. split; [|now rewrite Hc].
          apply filter_In. split; [assumption|]. now rewrite Ec, Ev. }
      rewrite Hh in Hue.
      destruct (fk_on_update fk) as [[]|]; discriminate.
Qed.

Lemma update_rows_refs_valid (db db' : database) (t c : string) (v : value)
      (cond : row -> bool) :
  refs_valid sch db -> update_rows sch db t c v cond = Ok db' -> refs_valid sch db'.
Proof.
  intros Hv H t1 tbl1 r fk Hf1 Hr Hfk.
  assert (Hold : forall r0, In r0 (rows (db t1)) -> fk_violation db' r0 fk = None).
  { intros r0 Hr0.
    apply (update_keeps_parents db db' t c v cond t1 tbl1); try assumption.
    now apply (Hv t1 tbl1). }
  pose proof (update_rows_inv _ _ _ _ _ _ H) as [tbl [Hf [_ [Hfks [_ Hdb]]]]].
  assert (Hrows : rows (db' t1)
                  = if String.eqb t1 t
                    then map (fun r => if cond r then set_cell r c v else r) (rows (db t))
                    else rows (db t1)).
  { rewrite Hdb. unfold set_table. now destruct (String.eqb t1 t). }
  rewrite Hrows in Hr. destruct (String.eqb_spec t1 t) as [->|_]; [|now apply Hold].
  apply in_map_iff in Hr. destruct Hr as [r0 [<- Hr0]].
  rewrite Hf in Hf1. inversion Hf1; subst tbl1.
  destruct (cond r0) eqn:Ec; [|now apply Hold].
  destruct (String.eqb_spec (fk_col fk) c) as [Hc|Hc]; [now apply Hfks|].
  specialize (Hold r0 Hr0). unfold fk_violation in *.
  now rewrite get_set_cell_other.
Qed.

Lemma exec_rows_valid (now : Z) (db : database) (st : statement) :
  rows_valid sch db -> rows_valid sch (fst (exec sch now db st)).
Proof.
  intro Hv. destruct st as [t cols tuples | t c v cond | t cond]; simpl.
  - destruct (insert_rows sch now db t cols tuples) as [[db' id]|] eqn:E; simpl;
      [|assumption].
    now apply (insert_rows_rows_valid now t cols tuples db db' id).
  - destruct (update_rows sch db t c v cond) as [db'|] eqn:E; simpl; [|assumption].
    now apply (update_rows_rows_valid db db' t c v cond).
  - destruct (delete_rows sch db t cond) as [db'|] eqn:E; simpl; [|assumption].
    now apply (delete_rows_rows_valid db db' t cond).
Qed.

Lemma exec_refs_valid (now : Z) (db : database) (st : statement) :
  refs_valid sch db -> refs_valid sch (fst (exec sch now db st)).
Proof.
  intro Hv. destruct st as [t cols tuples | t c v cond | t cond]; simpl.
  - destruct (insert_rows sch now db t cols tuples) as [[db' id]|] eqn:E; simpl;
      [|assumption].
    now apply (insert_rows_refs_valid now t cols tuples db db' id).
  - destruct (update_rows sch db t c v cond) as [db'|] eqn:E; simpl; [|assumption].
    now apply (update_rows_refs_valid db db' t c v cond).
  - destruct (delete_rows sch db t cond) as [db'|] eqn:E; simpl; [|assumption].
    now apply (delete_rows_refs_valid db db' t cond).
Qed.

Lemma reachable_rows_valid (db : database) : reachable sch db -> rows_valid sch db.
Proof.
  induction 1 as [|now db st _ IH].
  - intros t tbl r c _ [].
  - now apply exec_rows_valid.
Qed.

Lemma reachable_refs_valid (db : database) : reachable sch db -> refs_valid sch db.
Proof.
  induction 1 as [|now db st _ IH].
  - intros t tbl r fk _ [].
  - now apply exec_refs_valid.
Qed.

End Invariants.

(** ** What the checks of an accepted row mean *)

Lemma column_violation_none (tbl : table) (r : row) (c : column) :
  column_violation tbl r c = None ->
  in_domain (col_type c) (get r (col_name c)) = true
  /\ (not_null_in tbl c = true -> get r (col_name c) <> VNull)
  /\ check_ok c (get r (col_name c)) = true.
Proof.
  unfold column_violation.
  destruct (in_domain (col_type c) (get r (col_name c))); simpl; [|discriminate].
  destruct (not_null_in tbl c); simpl.
  - destruct (get r (col_name c)) eqn:E; simpl; [discriminate| |];
      (destruct (check_ok c _); simpl; [|discriminate]);
      intros _; repeat split; intros; discriminate.
  - destruct (check_ok c _); simpl; [|discriminate].
    intros _; repeat split; intros; discriminate.
Qed.

Lemma fk_violation_none (db : database) (r : row) (fk : foreign_key) :
  fk_violation db r fk = None ->
  get r (fk_col fk) = VNull
  \/ exists p, In p (rows (db (fk_table fk))) /\ get p (fk_ref fk) = get r (fk_col fk).
Proof.
  unfold fk_violation, references.
  destruct (is_null (get r (fk_col fk))) eqn:En; simpl.
  - intros _. left. now apply is_null_true.
  - destruct (existsb _ _) eqn:E; [|discriminate]. intros _. right.
    apply existsb_exists in E. destruct E as [p [Hp Hv]].
    exists p. split; [assumption | now apply value_eqb_eq].
Qed.

Lemma key_violation_none (existing : list row) (r : row) (k : list string) :
  key_violation existing r k = None ->
  (forall c, In c k -> get r c <> VNull) ->
  forall r', In r' existing -> exists c, In c k /\ get r' c <> get r c.
Proof.
  unfold key_violation. intros H Hnn r' Hr'.
  assert (E : forallb (fun c => negb (is_null (get r c))) k = true).
  { apply forallb_forall. intros c Hc. specialize (Hnn c Hc).
    destruct (get r c); simpl; [contradiction | reflexivity | reflexivity]. }
  rewrite E in H. simpl in H.
  destruct (existsb (same_on k r) existing) eqn:Ex; [discriminate|].
  assert (Hs : same_on k r r' = false).
  { destruct (same_on k r r') eqn:Es; [|reflexivity].
    assert (existsb (same_on k r) existing = true)
      by (apply existsb_exists; now exists r').
    congruence. }
  unfold same_on in Hs.
  assert (Hex : exists c, In c k /\ value_eqb (get r' c) (get r c) = false).
  { clear -Hs. induction k as [|c k IH]; simpl in Hs; [discriminate|].
    destruct (value_eqb (get r' c) (get r c)) eqn:Ev.
    - simpl in Hs. destruct (IH Hs) as [c' [Hc' Hv]].
      exists c'. split; [now right | assumption].
    - exists c. split; [now left | assumption]. }
  destruct Hex as [c [Hc Hv]]. exists c. split; [assumption|].
  intro Heq. apply value_eqb_eq in Heq. congruence.
Qed.

(** ** Multi-row INSERT *)

Section Insert.

Variable sch : schema.

Lemma insert_rows_err (now : Z) (t : string) (tbl : table) (cols : list string)
      (tuples : list (list value)) :
  find_table sch t = Some tbl ->
  Forall (fun vals => statement_error tbl cols vals = None) tuples ->
  forall db e,
    insert_rows sch now db t cols tuples = Err e ->
    exists v, e = ConstraintViolation v.
Proof.
  intros Hf Hwf. induction Hwf as [|vals rest Hv _ IH]; simpl; intros db e H.
  - discriminate.
  - destruct (insert_row sch now db t cols vals) as [[db1 id1]|e1] eqn:E1.
    + destruct (insert_rows sch now db1 t cols rest) as [[db2 id2]|e2] eqn:E2;
        [discriminate|].
      inversion H; subst. now apply (IH db1).
    + inversion H; subst. now apply (insert_row_err sch now db t tbl cols vals).
Qed.

(** Every tuple of an accepted INSERT was checked in a state that differs
    from the initial one only by more rows in the target table. *)
Lemma insert_rows_checked (now : Z) (t : string) (cols : list string)
      (tuples : list (list value)) (vals : list value) :
  In vals tuples ->
  forall db db' id,
    insert_rows sch now db t cols tuples = Ok (db', id) ->
    exists dbi tbl,
      find_table sch t = Some tbl
      /\ (forall t', t' <> t -> dbi t' = db t')
      /\ incl (rows (db t)) (rows (dbi t))
      /\ violated dbi tbl (new_row now dbi tbl cols vals) = None
      /\ In (new_row now dbi tbl cols vals) (rows (db' t)).
Proof.
  induction tuples as [|v0 rest IH]; simpl; [intros []|].
  intros Hin db db' id H.
  destruct (insert_row sch now db t cols v0) as [[db1 id1]|] eqn:E1; [|discriminate].
  destruct (insert_rows sch now db1 t cols rest) as [[db2 id2]|] eqn:E2; [|discriminate].
  inversion H; subst db2 id1. clear H.
  pose proof (insert_row_inv _ _ _ _ _ _ _ _ E1) as [tbl [Hf [_ [Hnone [_ Hdb1]]]]].
  assert (Hgrow : forall rest' db1' d i,
             insert_rows sch now db1' t cols rest' = Ok (d, i) ->
             incl (rows (db1' t)) (rows (d t))).
  { clear. induction rest' as [|w rest' IHr]; simpl; intros db1' d i H.
    - inversion H; subst. apply incl_refl.
    - destruct (insert_row sch now db1' t cols w) as [[da ia]|] eqn:Ea; [|discriminate].
      destruct (insert_rows sch now da t cols rest') as [[db ib]|] eqn:Eb; [|discriminate].
      inversion H; subst.
      eapply incl_tran; [apply (insert_row_grows sch _ _ _ _ _ _ _ Ea) | now apply (IHr da d ib)]. }
  destruct Hin as [<-|Hin].
  - exists db, tbl. repeat split; try assumption.
    + apply incl_refl.
    + apply (Hgrow rest db1 db' id2 E2). rewrite Hdb1, set_table_same. simpl.
      apply in_or_app. right. now left.
  - destruct (IH Hin db1 db' id2 E2) as [dbi [tbl' [Hf' [Hoth [Hinc [Hv Hi]]]]]].
    exists dbi, tbl'. repeat split; try assumption.
    + intros t' Ht'. rewrite (Hoth t' Ht'), Hdb1. now apply set_table_other.
    + eapply incl_tran; [|exact Hinc]. rewrite Hdb1, set_table_same. simpl.
      intros x Hx. apply in_or_app. now left.
Qed.

(** A well-formed INSERT that cannot be accepted is rejected for a
    constraint, and the database stays as it was. *)
Lemma insert_rejected (now : Z) (db : database) (t : string) (tbl : table)
      (cols : list string) (tuples : list (list value)) :
  find_table sch t = Some tbl ->
  Forall (fun vals => statement_error tbl cols vals = None) tuples ->
  (forall db' id, insert_rows sch now db t cols tuples <> Ok (db', id)) ->
  exists v, exec sch now db (INSERT_INTO t cols tuples)
            = (db, Some (ConstraintViolation v)).
Proof.
  intros Hf Hwf Hno. simpl.
  destruct (insert_rows sch now db t cols tuples) as [[db' id]|e] eqn:E.
  - exfalso. now apply (Hno db' id).
  - destruct (insert_rows_err now t tbl cols tuples Hf Hwf db e E) as [v ->].
    now exists v.
Qed.

(** It is enough that one tuple cannot pass the checks, in whatever state
    the tuples before it have left the target table. *)
Lemma insert_rejected_tuple (now : Z) (db : database) (t : string) (tbl : table)
      (cols : list string) (tuples : list (list value)) (vals : list value) :
  find_table sch t = Some tbl ->
  Forall (fun vals => statement_error tbl cols vals = None) tuples ->
  In vals tuples ->
  (forall dbi,
      (forall t', t' <> t -> dbi t' = db t') ->
      incl (rows (db t)) (rows (dbi t)) ->
      violated dbi tbl (new_row now dbi tbl cols vals) <> None) ->
  exists v, exec sch now db (INSERT_INTO t cols tuples)
            = (db, Some (ConstraintViolation v)).
Proof.
  intros Hf Hwf Hin Hbad.
  apply (insert_rejected now db t tbl); try assumption.
  intros db' id H.
  destruct (insert_rows_checked _ _ _ _ _ Hin _ _ _ H)
    as [dbi [tbl' [Hf' [Hoth [Hinc [Hv _]]]]]].
  rewrite Hf in Hf'. inversion Hf'; subst tbl'.
  now apply (Hbad dbi).
Qed.

End Insert.

(** * The media sharing schema *)

(** C1: in every reachable state each MediaItems row has the [user_id] of a
    stored Users row, and a well-formed INSERT INTO MediaItems with a tuple
    whose [user_id], a number or NULL, is that of no Users row is rejected
    with a ConstraintViolation and leaves the database unchanged.  (A
    string given for [user_id] is converted by the server before the
    reference is checked; the statement does not speak of it.) *)
Theorem media_owner_integrity :
  (forall db, reachable MediaSharingApp db ->
     forall m, In m (rows (db "MediaItems")) ->
       get m "user_id" <> VNull
       /\ exists u, In u (rows (db "Users")) /\ get u "user_id" = get m "user_id")
  /\
  (forall now db cols tuples vals,
     Forall (fun vals => statement_error MediaItems cols vals = None) tuples ->
     In vals tuples ->
     (forall s, given cols vals "user_id" <> VStr s) ->
     (forall u, In u (rows (db "Users")) ->
                get u "user_id" <> given cols vals "user_id") ->
     exists v, exec MediaSharingApp now db (INSERT_INTO "MediaItems" cols tuples)
               = (db, Some (ConstraintViolation v))).
Proof.
  split.
  - intros db Hr m Hm.
    pose proof (reachable_rows_valid _ _ Hr "MediaItems" MediaItems m
                  (col "user_id" INT [NOT_NULL]) eq_refl Hm) as Hc.
    apply column_violation_none in Hc; [|declared].
    destruct Hc as [_ [Hnn _]]. specialize (Hnn eq_refl). simpl in Hnn.
    split; [assumption|].
    pose proof (reachable_refs_valid _ _ Hr "MediaItems" MediaItems m
                  (FOREIGN_KEY "user_id" "Users" "user_id" None None) eq_refl Hm) as Hf.
    apply fk_violation_none in Hf; [|declared].
    destruct Hf as [Hf|Hf]; [contradiction | exact Hf].
  - intros now db cols tuples vals Hwf Hin _ Hno.
    apply (insert_rejected_tuple MediaSharingApp now db "MediaItems" MediaItems
                                 cols tuples vals); try assumption; [reflexivity|].
    intros dbi Hoth _ Hv.
    apply violated_none in Hv. destruct Hv as [Hc [_ Hfk]].
    specialize (Hc (col "user_id" INT [NOT_NULL])).
    apply column_violation_none in Hc; [|declared].
    destruct Hc as [_ [Hnn _]]. specialize (Hnn eq_refl).
    specialize (Hfk (FOREIGN_KEY "user_id" "Users" "user_id" None None)).
    apply fk_violation_none in Hfk; [|declared].
    change (get (new_row now dbi MediaItems cols vals) "user_id")
      with (given cols vals "user_id") in *.
    simpl fk_col in *. simpl fk_table in *. simpl fk_ref in *.
    destruct Hfk as [Hfk|[p [Hp Hpv]]]; [contradiction|].
    rewrite (Hoth "Users") in Hp by discriminate.
    now apply (Hno p).
Qed.

Lemma reachable_run (sch : schema) (now : Z) (script : list statement) :
  forall db, reachable sch db -> reachable sch (fst (run sch now db script)).
Proof.
  induction script as [|st rest IH]; simpl; intros db Hr; [assumption|].
  pose proof (reachable_exec sch now db st Hr) as H1.
  destruct (exec sch now db st) as [db' [e|]]; simpl in *.
  - assumption.
  - now apply IH.
Qed.

Lemma seed_reachable (now : Z) : reachable MediaSharingApp (seed_db now).
Proof. apply reachable_run. constructor. Qed.

(** On the sample data: the owner of the first media item, and a media item
    for user 9, who does not exist. *)
Lemma media_owner_integrity_witness :
  (get [("media_id", VInt 1); ("user_id", VInt 1); ("filename", VStr "sunset.jpg");
        ("filesize", VInt 1024); ("media_type", VStr "image/jpeg");
        ("title", VStr "Sunset"); ("description", VStr "A beautiful sunset");
        ("created_at", VInt 0)] "user_id" <> VNull
   /\ exists u, In u (rows (seed_db 0 "Users")) /\ get u "user_id" = VInt 1)
  /\ exists v,
      exec MediaSharingApp 0 (seed_db 0)
           (INSERT_INTO "MediaItems"
              ["user_id"; "filename"; "filesize"; "media_type"; "title"; "description"]
              [[VInt 9; VStr "cat.png"; VInt 512; VStr "image/png"; VStr "Cat"; VNull]])
      = (seed_db 0, Some (ConstraintViolation v)).
Proof.
  split.
  - apply (proj1 media_owner_integrity (seed_db 0) (seed_reachable 0)).
    listed.
  - apply (proj2 media_owner_integrity 0 (seed_db 0) _ _
                 [VInt 9; VStr "cat.png"; VInt 512; VStr "image/png"; VStr "Cat"; VNull]).
    + repeat constructor.
    + left. reflexivity.
    + intros s. vm_compute. discriminate.
    + intros u Hu. vm_compute in Hu.
      destruct Hu as [<-|[<-|[<-|[<-|[]]]]]; vm_compute; discriminate.
Defined.

Lemma rating_checked (r : row) :
  column_violation Ratings r (col "rating_value" INT [NOT_NULL; CHECK_BETWEEN 1 5]) = None ->
  exists z, get r "rating_value" = VInt z /\ 1 <= z <= 5.
Proof.
  intro H. apply column_violation_none in H. destruct H as [_ [Hnn Hck]].
  specialize (Hnn eq_refl). simpl in Hnn, Hck.
  destruct (get r "rating_value") as [|z|s]; simpl in Hck;
    [contradiction| |discriminate].
  exists z. split; [reflexivity|].
  unfold check_ok in Hck. simpl in Hck.
  rewrite andb_true_r in Hck. apply andb_prop in Hck. destruct Hck as [H1 H2].
  apply Z.leb_le in H1, H2. lia.
Qed.

(** C2: in every reachable state each Ratings row has an integer
    [rating_value] between 1 and 5, and a well-formed INSERT INTO Ratings
    with a tuple whose [rating_value] is a number outside 1..5 (0, 6, ...)
    or NULL is rejected with a ConstraintViolation and leaves the database
    unchanged.  (A string given for [rating_value] is converted by the
    server before the check; the statement does not speak of it.) *)
Theorem rating_value_range :
  (forall db, reachable MediaSharingApp db ->
     forall r, In r (rows (db "Ratings")) ->
       exists z, get r "rating_value" = VInt z /\ 1 <= z <= 5)
  /\
  (forall now db cols tuples vals,
     Forall (fun vals => statement_error Ratings cols vals = None) tuples ->
     In vals tuples ->
     (forall s, given cols vals "rating_value" <> VStr s) ->
     (forall z, given cols vals "rating_value" = VInt z -> z < 1 \/ 5 < z) ->
     exists v, exec MediaSharingApp now db (INSERT_INTO "Ratings" cols tuples)
               = (db, Some (ConstraintViolation v))).
Proof.
  split.
  - intros db Hr r Hin. apply rating_checked.
    apply (reachable_rows_valid _ _ Hr "Ratings" Ratings r); [reflexivity|assumption|].
    declared.
  - intros now db cols tuples vals Hwf Hin _ Hout.
    apply (insert_rejected_tuple MediaSharingApp now db "Ratings" Ratings
                                 cols tuples vals); try assumption; [reflexivity|].
    intros dbi _ _ Hv.
    apply violated_none in Hv. destruct Hv as [Hc _].
    specialize (Hc (col "rating_value" INT [NOT_NULL; CHECK_BETWEEN 1 5])).
    destruct (rating_checked _ (Hc ltac:(declared))) as [z [Hz Hb]].
    change (get (new_row now dbi Ratings cols vals) "rating_value")
      with (given cols vals "rating_value") in Hz.
    specialize (Hout z Hz). lia.
Qed.

(** On the sample data: the first rating, and ratings of 0 and of 6. *)
Lemma rating_value_range_witness :
  (exists z, get [("rating_id", VInt 1); ("media_id", VInt 1); ("user_id", VInt 2);
                  ("rating_value", VInt 5); ("created_at", VInt 0)] "rating_value"
             = VInt z /\ 1 <= z <= 5)
  /\ (exists v,
        exec MediaSharingApp 0 (seed_db 0)
             (INSERT_INTO "Ratings" ["media_id"; "user_id"; "rating_value"]
                          [[VInt 3; VInt 1; VInt 0]])
        = (seed_db 0, Some (ConstraintViolation v)))
  /\ (exists v,
        exec MediaSharingApp 0 (seed_db 0)
             (INSERT_INTO "Ratings" ["media_id"; "user_id"; "rating_value"]
                          [[VInt 3; VInt 1; VInt 6]])
        = (seed_db 0, Some (ConstraintViolation v))).
Proof.
  split; [|split].
  - apply (proj1 rating_value_range (seed_db 0) (seed_reachable 0)).
    listed.
  - apply (proj2 rating_value_range 0 (seed_db 0) _ _ [VInt 3; VInt 1; VInt 0]).
    + repeat constructor.
    + left. reflexivity.
    + intros s. vm_compute. discriminate.
    + intros z Hz. vm_compute in Hz. inversion Hz. lia.
  - apply (proj2 rating_value_range 0 (seed_db 0) _ _ [VInt 3; VInt 1; VInt 6]).
    + repeat constructor.
    + left. reflexivity.
    + intros s. vm_compute. discriminate.
    + intros z Hz. vm_compute in Hz. inversion Hz. lia.
Defined.

Lemma find_Users (tbl : table) :
  find_table MediaSharingApp "Users" = Some tbl -> tbl = Users.
Proof.
  change (find_table MediaSharingApp "Users") with (Some Users).
  congruence.
Qed.

(** A tuple that repeats the value an existing Users row has in a UNIQUE
    column cannot be accepted. *)
Lemma unique_column_collides (now : Z) (dbi : database) (cols : list string)
      (vals : list value) (c : column) (u : row) :
  In c (tbl_cols Users) -> has_not_null c = true -> In [col_name c] (unique_keys Users) ->
  In u (rows (dbi "Users")) ->
  get (new_row now dbi Users cols vals) (col_name c) = get u (col_name c) ->
  violated dbi Users (new_row now dbi Users cols vals) <> None.
Proof.
  intros Hc Hnn Hk Hu Heq Hv. apply violated_none in Hv.
  destruct Hv as [Hcol [Hkey _]].
  specialize (Hcol c Hc). apply column_violation_none in Hcol.
  destruct Hcol as [_ [Hnotnull _]].
  assert (Hn : get (new_row now dbi Users cols vals) (col_name c) <> VNull).
  { apply Hnotnull. unfold not_null_in. now rewrite Hnn. }
  specialize (Hkey [col_name c] Hk).
  destruct (key_violation_none _ _ _ Hkey) with (r' := u) as [c' [Hc' Hne]].
  - intros c0 [<-|[]]. assumption.
  - assumption.
  - destruct Hc' as [<-|[]]. congruence.
Qed.

(** C5: a well-formed INSERT INTO Users with a tuple whose [username], or
    whose [email], is that of a stored Users row is rejected with a
    ConstraintViolation and leaves the database unchanged. *)
Theorem username_email_unique :
  forall now db cols tuples vals u,
    Forall (fun vals => statement_error Users cols vals = None) tuples ->
    In vals tuples ->
    In u (rows (db "Users")) ->
    given cols vals "username" = get u "username"
    \/ given cols vals "email" = get u "email" ->
    exists v, exec MediaSharingApp now db (INSERT_INTO "Users" cols tuples)
              = (db, Some (ConstraintViolation v)).
Proof.
  intros now db cols tuples vals u Hwf Hin Hu Hsame.
  apply (insert_rejected_tuple MediaSharingApp now db "Users" Users
                               cols tuples vals); try assumption; [reflexivity|].
  intros dbi _ Hinc. apply Hinc in Hu.
  destruct Hsame as [Hs|Hs].
  - apply (unique_column_collides now dbi cols vals
             (col "username" (VARCHAR 50) [NOT_NULL; UNIQUE]) u);
      try reflexivity; try assumption; simpl; tauto.
  - apply (unique_column_collides now dbi cols vals
             (col "email" (VARCHAR 100) [NOT_NULL; UNIQUE]) u);
      try reflexivity; try assumption; simpl; tauto.
Qed.

(** On the sample data: a second JohnDoe, and a second user of JohnDoe's
    address. *)
Lemma username_email_unique_witness :
  (exists v,
     exec MediaSharingApp 0 (seed_db 0)
          (INSERT_INTO "Users" ["username"; "password"; "email"; "user_level_id"]
             [[VStr "JohnDoe"; VStr "secret"; VStr "other@example.com"; VInt 2]])
     = (seed_db 0, Some (ConstraintViolation v)))
  /\ (exists v,
        exec MediaSharingApp 0 (seed_db 0)
             (INSERT_INTO "Users" ["username"; "password"; "email"; "user_level_id"]
                [[VStr "Johnny"; VStr "secret"; VStr "johndoe@example.com"; VInt 2]])
        = (seed_db 0, Some (ConstraintViolation v))).
Proof.
  split.
  - apply (username_email_unique 0 (seed_db 0) _ _
             [VStr "JohnDoe"; VStr "secret"; VStr "other@example.com"; VInt 2]
             [("user_id", VInt 1); ("username", VStr "JohnDoe");
              ("password", VStr "to-be-hashed-pw1"); ("email", VStr "johndoe@example.com");
              ("user_level_id", VInt 2); ("created_at", VInt 0)]).
    + repeat constructor.
    + left. reflexivity.
    + listed.
    + left. reflexivity.
  - apply (username_email_unique 0 (seed_db 0) _ _
             [VStr "Johnny"; VStr "secret"; VStr "johndoe@example.com"; VInt 2]
             [("user_id", VInt 1); ("username", VStr "JohnDoe");
              ("password", VStr "to-be-hashed-pw1"); ("email", VStr "johndoe@example.com");
              ("user_level_id", VInt 2); ("created_at", VInt 0)]).
    + repeat constructor.
    + left. reflexivity.
    + listed.
    + right. reflexivity.
Defined.

Lemma int_stored (tbl : table) (r : row) (c : column) :
  col_type c = INT -> not_null_in tbl c = true ->
  column_violation tbl r c = None ->
  exists z, get r (col_name c) = VInt z /\ -2147483648 <= z <= 2147483647.
Proof.
  intros Hty Hnn H. apply column_violation_none in H.
  destruct H as [Hdom [Hnotnull _]]. specialize (Hnotnull Hnn).
  rewrite Hty in Hdom.
  destruct (get r (col_name c)) as [|z|s]; simpl in Hdom;
    [contradiction| |discriminate].
  exists z. split; [reflexivity|].
  apply andb_prop in Hdom. destruct Hdom as [H1 H2].
  apply Z.leb_le in H1, H2. lia.
Qed.

Lemma violated_none_intro (db : database) (tbl : table) (r : row) :
  (forall c, In c (tbl_cols tbl) -> column_violation tbl r c = None) ->
  (forall k, In k (unique_keys tbl) ->
             key_violation (rows (db (tbl_name tbl))) r k = None) ->
  (forall fk, In fk (tbl_fks tbl) -> fk_violation db r fk = None) ->
  violated db tbl r = None.
Proof.
  intros H1 H2 H3. unfold violated.
  apply first_violation_none in H1. rewrite H1.
  apply first_violation_none in H2. rewrite H2.
  now apply first_violation_none.
Qed.

(** A one-tuple INSERT is accepted exactly when it is well formed and its
    row passes the checks. *)
Lemma insert_one_accepted (sch : schema) (now : Z) (db : database) (t : string)
      (tbl : table) (cols : list string) (vals : list value) :
  find_table sch t = Some tbl ->
  snd (exec sch now db (INSERT_INTO t cols [vals])) = None
  <-> statement_error tbl cols vals = None
      /\ violated db tbl (new_row now db tbl cols vals) = None.
Proof.
  intro Hf. simpl. unfold insert_row, new_row. rewrite Hf.
  destruct (statement_error tbl cols vals); simpl.
  - split; [discriminate | intros [H _]; discriminate].
  - destruct (violated db tbl _); simpl.
    + split; [discriminate | intros [_ H]; discriminate].
    + split; [now split | reflexivity].
Qed.

(** No constraint of MediaItems looks at the sign of [filesize]: an accepted
    row stays accepted when its [filesize] is replaced by any other INT. *)
Lemma filesize_unconstrained (now : Z) (db : database)
      (user_id filename media_type title description : value) (z z' : Z) :
  -2147483648 <= z' <= 2147483647 ->
  snd (exec MediaSharingApp now db
            (insert_media user_id filename (VInt z) media_type title description)) = None ->
  snd (exec MediaSharingApp now db
            (insert_media user_id filename (VInt z') media_type title description)) = None.
Proof.
  intros Hz' H. unfold insert_media in *.
  apply (insert_one_accepted MediaSharingApp now db "MediaItems" MediaItems) in H;
    [|reflexivity].
  apply (insert_one_accepted MediaSharingApp now db "MediaItems" MediaItems);
    [reflexivity|].
  destruct H as [_ H]. split; [reflexivity|].
  apply violated_none in H. destruct H as [Hc [Hk Hfk]].
  apply violated_none_intro.
  - intros c Hin. simpl in Hin.
    destruct Hin as [<-|[<-|[<-|[<-|[<-|[<-|[<-|[<-|[]]]]]]]]];
      try reflexivity; try (refine (Hc _ _); declared).
    unfold column_violation. simpl.
    assert (Hlo : (-2147483648 <=? z') = true) by (apply Z.leb_le; lia).
    assert (Hhi : (z' <=? 2147483647) = true) by (apply Z.leb_le; lia).
    now rewrite Hlo, Hhi.
  - intros k Hin. simpl in Hin. destruct Hin as [<-|[]].
    refine (Hk _ _). declared.
  - intros fk Hin. simpl in Hin. destruct Hin as [<-|[]].
    refine (Hfk _ _). declared.
Qed.

(** C7, the claim as stated fails: after the sample data, an INSERT INTO
    MediaItems with [filesize] 0 and one with [filesize] -1 are both
    accepted, and the two rows are stored. *)
Lemma filesize_not_positive_accepted :
  snd (run MediaSharingApp 0 (seed_db 0)
           [ insert_media (VInt 1) (VStr "empty.jpg") (VInt 0) (VStr "image/jpeg")
                          (VStr "Empty") VNull;
             insert_media (VInt 1) (VStr "minus.jpg") (VInt (-1)) (VStr "image/jpeg")
                          (VStr "Minus") VNull ]) = None
  /\ reachable MediaSharingApp db_odd_sizes
  /\ map (fun m => get m "filesize") (rows (db_odd_sizes "MediaItems"))
     = [VInt 1024; VInt 20480; VInt 2048; VInt 1024; VInt 0; VInt (-1)].
Proof.
  repeat split; try (vm_compute; reflexivity).
  apply reachable_run, seed_reachable.
Qed.

(** C7, amended: in every reachable state each MediaItems row has an
    integer [filesize] (not NULL, within INT), and the sign of [filesize]
    is not constrained: an accepted insert of a media item stays accepted
    when its [filesize] is replaced by any other INT, 0 and the negative
    ones included. *)
Theorem filesize_is_int :
  (forall db, reachable MediaSharingApp db ->
     forall m, In m (rows (db "MediaItems")) ->
       exists z, get m "filesize" = VInt z /\ -2147483648 <= z <= 2147483647)
  /\
  (forall now db user_id filename media_type title description z z',
     -2147483648 <= z' <= 2147483647 ->
     snd (exec MediaSharingApp now db
               (insert_media user_id filename (VInt z) media_type title description))
     = None ->
     snd (exec MediaSharingApp now db
               (insert_media user_id filename (VInt z') media_type title description))
     = None).
Proof.
  split.
  - intros db Hr m Hm.
    apply (int_stored MediaItems m (col "filesize" INT [NOT_NULL])); try reflexivity.
    apply (reachable_rows_valid _ _ Hr "MediaItems" MediaItems m); [reflexivity|assumption|].
    declared.
  - intros now db user_id filename media_type title description z z'.
    apply filesize_unconstrained.
Qed.

(** On the sample data: the size of the first media item, and a media item
    of 2048 bytes turned into one of 0 and one of -5 bytes. *)
Lemma filesize_is_int_witness :
  (exists z, get [("media_id", VInt 1); ("user_id", VInt 1); ("filename", VStr "sunset.jpg");
                  ("filesize", VInt 1024); ("media_type", VStr "image/jpeg");
                  ("title", VStr "Sunset"); ("description", VStr "A beautiful sunset");
                  ("created_at", VInt 0)] "filesize" = VInt z
             /\ -2147483648 <= z <= 2147483647)
  /\ snd (exec MediaSharingApp 0 (seed_db 0)
               (insert_media (VInt 2) (VStr "dog.png") (VInt 0) (VStr "image/png")
                             (VStr "Dog") VNull)) = None
  /\ snd (exec MediaSharingApp 0 (seed_db 0)
               (insert_media (VInt 2) (VStr "dog.png") (VInt (-5)) (VStr "image/png")
                             (VStr "Dog") VNull)) = None.
Proof.
  split; [|split].
  - apply (proj1 filesize_is_int (seed_db 0) (seed_reachable 0)).
    listed.
  - apply (proj2 filesize_is_int 0 (seed_db 0) _ _ _ _ _ 2048 0).
    + lia.
    + vm_compute. reflexivity.
  - apply (proj2 filesize_is_int 0 (seed_db 0) _ _ _ _ _ 2048 (-5)).
    + lia.
    + vm_compute. reflexivity.
Defined.

(** C8, the declaration misses what the data model says.  "Each user
    belongs to one user level", and [addUser] gives every user one; every
    other foreign key column of the script is NOT NULL, but [user_level_id]
    is declared without it: after the sample data, a Users row inserted
    without a level is accepted and stored with [user_level_id] NULL, which
    is the [level_id] of no UserLevels row. *)
Lemma user_without_level_accepted :
  reachable MediaSharingApp db_user_without_level
  /\ exists u,
      In u (rows (db_user_without_level "Users"))
      /\ get u "user_level_id" = VNull
      /\ forall l, In l (rows (db_user_without_level "UserLevels")) ->
                   get l "level_id" <> get u "user_level_id".
Proof.
  split; [apply reachable_run, seed_reachable|].
  exists [("user_id", VInt 5); ("username", VStr "NoLevel");
          ("password", VStr "to-be-hashed-pw5"); ("email", VStr "nolevel@example.com");
          ("user_level_id", VNull); ("created_at", VInt 0)].
  split; [|split].
  - listed.
  - reflexivity.
  - intros l Hl. vm_compute in Hl.
    destruct Hl as [<-|[<-|[<-|[]]]]; vm_compute; discriminate.
Qed.

(** ** DELETE under the default action *)

Lemma first_error_found {A : Type} (f : A -> option error) (l : list A) (x : A) :
  In x l -> f x <> None -> first_error f l <> None.
Proof.
  intros Hin Hx Hnone. rewrite first_error_none in Hnone. now apply Hx, Hnone.
Qed.

Lemma delete_rejected (sch : schema) (now : Z) (db : database) (t : string)
      (tbl ctbl : table) (fk : foreign_key) (cond : row -> bool) (p c : row) :
  (forall tb f, In tb sch -> In f (tbl_fks tb) -> fk_on_delete f = None) ->
  find_table sch t = Some tbl ->
  In ctbl sch -> In fk (tbl_fks ctbl) -> fk_table fk = t ->
  In p (rows (db t)) -> cond p = true ->
  In c (rows (db (tbl_name ctbl))) ->
  get c (fk_col fk) <> VNull -> get p (fk_ref fk) = get c (fk_col fk) ->
  exists child c',
    exec sch now db (DELETE_FROM t cond)
    = (db, Some (ConstraintViolation (Restricted child c'))).
Proof.
  intros Hdefault Hf Hct Hfk Hto Hp Hcond Hc Hnn Href.
  simpl. unfold delete_rows. rewrite Hf, (find_table_name _ _ _ Hf).
  destruct (delete_error sch db t (filter cond (rows (db t)))) as [e|] eqn:E.
  - unfold delete_error in E.
    apply first_error_some in E. destruct E as [tb [Htb E]].
    apply first_error_some in E. destruct E as [f [Hfin E]].
    unfold fks_to in Hfin. apply filter_In in Hfin. destruct Hfin as [Hfin _].
    unfold fk_delete_error in E. rewrite (Hdefault tb f Htb Hfin) in E.
    destruct (existsb _ _); [|discriminate].
    inversion E. now exists (tbl_name tb), (fk_col f).
  - exfalso. revert E. unfold delete_error.
    apply (first_error_found _ sch ctbl Hct).
    apply (first_error_found _ (fks_to t ctbl) fk).
    + unfold fks_to. apply filter_In. split; [assumption | now apply String.eqb_eq].
    + unfold fk_delete_error. rewrite (Hdefault ctbl fk Hct Hfk).
      assert (Hh : existsb (holds_on (filter cond (rows (db t))) fk)
                           (rows (db (tbl_name ctbl))) = true).
      { apply existsb_exists. exists c. split; [assumption|].
        unfold holds_on. apply andb_true_intro. split.
        - destruct (get c (fk_col fk)); [contradiction | reflexivity | reflexivity].
        - apply existsb_exists. exists p. split.
          + apply filter_In. now split.
          + now apply value_eqb_eq. }
      rewrite Hh. discriminate.
Qed.

Lemma no_on_delete_action (tbl : table) (fk : foreign_key) :
  In tbl MediaSharingApp -> In fk (tbl_fks tbl) -> fk_on_delete fk = None.
Proof.
  intros Ht Hfk. simpl in Ht.
  repeat (destruct Ht as [<-|Ht];
          [simpl in Hfk; repeat (destruct Hfk as [<-|Hfk]; [reflexivity|]);
           contradiction|]).
  contradiction.
Qed.

(** Every foreign key points at a declared table. *)
Lemma parent_declared (tbl : table) (fk : foreign_key) :
  In tbl MediaSharingApp -> In fk (tbl_fks tbl) ->
  exists parent, find_table MediaSharingApp (fk_table fk) = Some parent.
Proof.
  intros Ht Hfk. simpl in Ht.
  repeat (destruct Ht as [<-|Ht];
          [simpl in Hfk;
           repeat (destruct Hfk as [<-|Hfk]; [eexists; reflexivity|]);
           contradiction|]).
  contradiction.
Qed.

(** Outside Users, every foreign key column is declared NOT NULL. *)
Lemma fk_column_not_null (tbl : table) (fk : foreign_key) :
  In tbl MediaSharingApp -> tbl_name tbl <> "Users" -> In fk (tbl_fks tbl) ->
  exists c, In c (tbl_cols tbl) /\ col_name c = fk_col fk /\ not_null_in tbl c = true.
Proof.
  intros Ht Hn Hfk. simpl in Ht.
  destruct Ht as [<-|[<-|[<-|[<-|[<-|[<-|[<-|[<-|[]]]]]]]]];
    try (exfalso; now apply Hn); simpl in Hfk;
    repeat (destruct Hfk as [<-|Hfk];
            [match goal with
             | |- exists c, In c (tbl_cols ?T) /\ col_name c = fk_col ?F /\ _ =>
               let r := eval vm_compute in
                          (find (fun c => String.eqb (col_name c) (fk_col F)) (tbl_cols T)) in
               match r with
               | Some ?c => exists c
               end
             end;
             split; [simpl; repeat (first [left; reflexivity | right]) | split; reflexivity]|]);
    contradiction.
Qed.

(** C9: no foreign key of the schema declares an ON DELETE action; a DELETE
    whose victims include a row that a child row (of Comments, Likes,
    Ratings, MediaItemTags, or any other declared child) still refers to is
    rejected with a ConstraintViolation and leaves the database unchanged;
    and in every state reachable by INSERT, UPDATE and DELETE statements
    every foreign key value of a child row is the referenced column of a stored
    parent row (outside Users the foreign key columns are never NULL; in
    Users a NULL level refers to nothing). *)
Theorem deletes_cannot_orphan :
  (forall tbl fk, In tbl MediaSharingApp -> In fk (tbl_fks tbl) ->
                  fk_on_delete fk = None)
  /\
  (forall now db child ctbl fk cond p c,
     find_table MediaSharingApp child = Some ctbl -> In fk (tbl_fks ctbl) ->
     In p (rows (db (fk_table fk))) -> cond p = true ->
     In c (rows (db child)) ->
     get c (fk_col fk) <> VNull -> get p (fk_ref fk) = get c (fk_col fk) ->
     exists child' c',
       exec MediaSharingApp now db (DELETE_FROM (fk_table fk) cond)
       = (db, Some (ConstraintViolation (Restricted child' c'))))
  /\
  (forall db, reachable MediaSharingApp db ->
     forall child ctbl fk c,
       find_table MediaSharingApp child = Some ctbl -> In fk (tbl_fks ctbl) ->
       In c (rows (db child)) ->
       (child <> "Users" -> get c (fk_col fk) <> VNull)
       /\ (get c (fk_col fk) = VNull
           \/ exists p, In p (rows (db (fk_table fk)))
                        /\ get p (fk_ref fk) = get c (fk_col fk))).
Proof.
  split; [exact no_on_delete_action | split].
  - intros now db child ctbl fk cond p c Hf Hfk Hp Hcond Hc Hnn Href.
    pose proof (find_table_In _ _ _ Hf) as Hin.
    destruct (parent_declared ctbl fk Hin Hfk) as [parent Hpar].
    apply (delete_rejected MediaSharingApp now db (fk_table fk) parent ctbl fk cond p c);
      try assumption; try reflexivity.
    + exact no_on_delete_action.
    + now rewrite (find_table_name _ _ _ Hf).
  - intros db Hr child ctbl fk c Hf Hfk Hc.
    pose proof (find_table_In _ _ _ Hf) as Hin.
    pose proof (find_table_name _ _ _ Hf) as Hname.
    split.
    + intro Hu.
      destruct (fk_column_not_null ctbl fk Hin) as [cl [Hcl [Hcn Hnn]]];
        [now rewrite Hname | assumption |].
      pose proof (reachable_rows_valid _ _ Hr child ctbl c cl Hf Hc Hcl) as Hv.
      apply column_violation_none in Hv. destruct Hv as [_ [Hv _]].
      rewrite <- Hcn. now apply Hv.
    + apply fk_violation_none.
      now apply (reachable_refs_valid _ _ Hr child ctbl c fk).
Qed.

(** On the sample data: media item 2 has tags and JaneSmith has given a
    rating, so neither can be deleted; the fourth like refers to media
    item 3. *)
Lemma deletes_cannot_orphan_witness :
  fk_on_delete (FOREIGN_KEY "media_id" "MediaItems" "media_id" None None) = None
  /\ (exists ch col,
        exec MediaSharingApp 0 (seed_db 0)
             (DELETE_FROM "MediaItems" (fun m => value_eqb (get m "media_id") (VInt 2)))
        = (seed_db 0, Some (ConstraintViolation (Restricted ch col))))
  /\ (exists ch col,
        exec MediaSharingApp 0 (seed_db 0)
             (DELETE_FROM "Users" (fun u => value_eqb (get u "username") (VStr "JaneSmith")))
        = (seed_db 0, Some (ConstraintViolation (Restricted ch col))))
  /\ (VInt 3 <> VNull
      /\ exists p, In p (rows (seed_db 0 "MediaItems")) /\ get p "media_id" = VInt 3).
Proof.
  split; [|split; [|split]].
  - apply (proj1 deletes_cannot_orphan MediaItemTags); declared.
  - apply (proj1 (proj2 deletes_cannot_orphan) 0 (seed_db 0) "MediaItemTags" MediaItemTags
                 (FOREIGN_KEY "media_id" "MediaItems" "media_id" None None)
                 (fun m => value_eqb (get m "media_id") (VInt 2))
                 [("media_id", VInt 2); ("user_id", VInt 2); ("filename", VStr "sample.mp4");
                  ("filesize", VInt 20480); ("media_type", VStr "video/mp4");
                  ("title", VStr "Sample Video"); ("description", VStr "A sample video file");
                  ("created_at", VInt 0)]
                 [("media_id", VInt 2); ("tag_id", VInt 2)]).
    + reflexivity.
    + declared.
    + listed.
    + reflexivity.
    + listed.
    + vm_compute. discriminate.
    + reflexivity.
  - apply (proj1 (proj2 deletes_cannot_orphan) 0 (seed_db 0) "Ratings" Ratings
                 (FOREIGN_KEY "user_id" "Users" "user_id" None None)
                 (fun u => value_eqb (get u "username") (VStr "JaneSmith"))
                 [("user_id", VInt 2); ("username", VStr "JaneSmith");
                  ("password", VStr "to-be-hashed-pw2"); ("email", VStr "janesmith@example.com");
                  ("user_level_id", VInt 2); ("created_at", VInt 0)]
                 [("rating_id", VInt 1); ("media_id", VInt 1); ("user_id", VInt 2);
                  ("rating_value", VInt 5); ("created_at", VInt 0)]).
    + reflexivity.
    + declared.
    + listed.
    + reflexivity.
    + listed.
    + vm_compute. discriminate.
    + reflexivity.
  - destruct (proj2 (proj2 deletes_cannot_orphan) (seed_db 0) (seed_reachable 0)
                    "Likes" Likes (FOREIGN_KEY "media_id" "MediaItems" "media_id" None None)
                    [("like_id", VInt 4); ("media_id", VInt 3); ("user_id", VInt 1);
                     ("created_at", VInt 0)]) as [H1 H2].
    + reflexivity.
    + declared.
    + listed.
    + split.
      * apply H1. discriminate.
      * destruct H2 as [H2|H2]; [discriminate H2 | exact H2].
Defined.

(** * The query catalogue *)

(** The UPDATE of the chapter, on the sample data: JaneSmith becomes an
    admin, nobody else changes. *)
Lemma make_admin_on_sample_data (now : Z) :
  snd (make_admin ascii_ci now (seed_db now)) = None
  /\ SELECT ["username"; "user_level_id"]
            (rows (fst (make_admin ascii_ci now (seed_db now)) "Users"))
     = [[VStr "JohnDoe"; VInt 2]; [VStr "JaneSmith"; VInt 1];
        [VStr "Anon5468"; VInt 2]; [VStr "AdminUser"; VInt 1]].
Proof. split; vm_compute; reflexivity. Qed.

(** Updates that would break a constraint are rejected, on the sample data:
    a level that does not exist, a rating of 6, a username already taken,
    a new id for a media item that has likes. *)
Lemma rejected_updates_on_sample_data (now : Z) :
  exec MediaSharingApp now (seed_db now)
       (UPDATE "Users" "user_level_id" (VInt 9)
               (fun u => sql_true (sql_eq (get u "user_id") (VInt 2))))
  = (seed_db now, Some (ConstraintViolation (ForeignKey "user_level_id" "UserLevels")))
  /\ exec MediaSharingApp now (seed_db now)
          (UPDATE "Ratings" "rating_value" (VInt 6)
                  (fun r => sql_true (sql_eq (get r "rating_id") (VInt 1))))
     = (seed_db now, Some (ConstraintViolation (CheckFailed "rating_value")))
  /\ exec MediaSharingApp now (seed_db now)
          (UPDATE "Users" "username" (VStr "JohnDoe")
                  (fun u => sql_true (sql_eq (get u "user_id") (VInt 2))))
     = (seed_db now, Some (ConstraintViolation (Duplicate ["username"])))
  /\ exec MediaSharingApp now (seed_db now)
          (UPDATE "MediaItems" "media_id" (VInt 9)
                  (fun m => sql_true (sql_eq (get m "media_id") (VInt 2))))
     = (seed_db now, Some (ConstraintViolation (Restricted "Comments" "media_id"))).
Proof. repeat split. Qed.

(** C3: over the sample data, the most-likes query returns the single row
    (media_id 2, likes 3); the counts per group are 1, 3 and 2, so media
    item 2 is the only one with three likes or more. *)
Theorem most_likes_on_sample_data :
  forall now,
    most_likes (seed_db now) = Ok [[("media_id", VInt 2); ("likes", VInt 3)]]
    /\ like_counts (seed_db now)
       = Ok [[("media_id", VInt 1); ("likes", VInt 1)];
             [("media_id", VInt 2); ("likes", VInt 3)];
             [("media_id", VInt 3); ("likes", VInt 2)]]
    /\ match like_counts (seed_db now) with
       | Ok t => filter (fun g => value_leb (VInt 3) (get g "likes")) t
       | Err _ => []
       end = [[("media_id", VInt 2); ("likes", VInt 3)]]
    /\ SELECT ["media_id"; "user_id"] (rows (seed_db now "Likes"))
       = [[VInt 1; VInt 2]; [VInt 2; VInt 1]; [VInt 2; VInt 2];
          [VInt 3; VInt 1]; [VInt 2; VInt 3]; [VInt 3; VInt 3]].
Proof.
  intro now. repeat split; vm_compute; reflexivity.
Qed.

(** The result does not depend on the order in which the groups come out of
    GROUP BY: a row that is strictly above every other row in the ORDER BY
    column is the first row of the ordered table. *)
Lemma insert_desc_In (c : string) (x y : row) (l : list row) :
  In y (insert_desc c x l) <-> y = x \/ In y l.
Proof.
  induction l as [|z l IH]; simpl.
  - split; [intros [<-|[]]; now left | intros [->|[]]; now left].
  - destruct (value_leb (get z c) (get x c)); simpl.
    + split; [intros [<-|H]; [now left | now right] | intros [->|H]; [now left | now right]].
    + rewrite IH. split.
      * intros [<-|[->|H]]; [right; now left | now left | right; now right].
      * intros [->|[<-|H]]; [right; now left | now left | right; now right].
Qed.

Lemma ORDER_BY_DESC_In (c : string) (y : row) (rs : list row) :
  In y (ORDER_BY_DESC c rs) <-> In y rs.
Proof.
  induction rs as [|x rs IH]; simpl; [reflexivity|].
  rewrite insert_desc_In, IH. split; intros [H|H]; auto.
Qed.

Lemma strict_maximum_first (c : string) (x : row) (rs : list row) :
  In x rs ->
  value_leb (get x c) (get x c) = true ->
  (forall y, In y rs ->
             y = x \/ (value_leb (get x c) (get y c) = false
                       /\ value_leb (get y c) (get x c) = true)) ->
  exists rest, ORDER_BY_DESC c rs = x :: rest.
Proof.
  intros Hin Hrefl. induction rs as [|a rs IH]; [destruct Hin|].
  intro Hmax. simpl.
  assert (Hrs : forall y, In y rs ->
                          y = x \/ (value_leb (get x c) (get y c) = false
                                    /\ value_leb (get y c) (get x c) = true))
    by (intros y Hy; apply Hmax; now right).
  destruct (Hmax a (or_introl eq_refl)) as [->|[Hlt Hge]].
  - destruct (ORDER_BY_DESC c rs) as [|y l] eqn:E; simpl; [now exists []|].
    assert (Hy : In y rs) by (apply (ORDER_BY_DESC_In c); rewrite E; now left).
    assert (Hle : value_leb (get y c) (get x c) = true)
      by (destruct (Hrs y Hy) as [->|[_ H]]; assumption).
    rewrite Hle. now exists (y :: l).
  - destruct Hin as [->|Hin]; [congruence|].
    destruct (IH Hin Hrs) as [rest ->]. simpl. rewrite Hlt.
    now exists (insert_desc c a rest).
Qed.

Lemma most_likes_any_group_order (t : list row) :
  Permutation [[("media_id", VInt 1); ("likes", VInt 1)];
               [("media_id", VInt 2); ("likes", VInt 3)];
               [("media_id", VInt 3); ("likes", VInt 2)]] t ->
  LIMIT 1 (ORDER_BY_DESC "likes" t) = [[("media_id", VInt 2); ("likes", VInt 3)]].
Proof.
  intro Hp.
  destruct (strict_maximum_first "likes" [("media_id", VInt 2); ("likes", VInt 3)] t)
    as [rest ->]; [| reflexivity | | reflexivity].
  - apply (Permutation_in _ Hp). right. now left.
  - intros y Hy. apply (Permutation_in _ (Permutation_sym Hp)) in Hy.
    destruct Hy as [<-|[<-|[<-|[]]]]; [right | left | right];
      try reflexivity; split; reflexivity.
Qed.

(** * addUser *)



(** * The Nature query *)

Lemma In_WHERE (p : row -> option bool) (rs : list row) (r : row) :
  In r (WHERE p rs) <-> In r rs /\ p r = Some true.
Proof.
  unfold WHERE, sql_true. rewrite filter_In.
  split; intros [H1 H2]; split; try assumption.
  - destruct (p r) as [[|]|]; congruence.
  - now rewrite H2.
Qed.

Lemma sql_eq_true (a b : value) : sql_eq a b = Some true <-> a = b /\ a <> VNull.
Proof.
  split.
  - intro H. destruct a, b; simpl in H; try discriminate;
      inversion H as [H']; split; try discriminate.
    + apply Z.eqb_eq in H'. now subst.
    + apply String.eqb_eq in H'. now subst.
  - intros [<- Hn]. destruct a; simpl; [contradiction| |].
    + now rewrite Z.eqb_refl.
    + now rewrite String.eqb_refl.
Qed.

Lemma sql_in_true (v : value) (vs : list value) :
  sql_in v vs = Some true <-> v <> VNull /\ In v vs.
Proof.
  unfold sql_in. split.
  - destruct (is_null v) eqn:En; [discriminate|].
    destruct (existsb (value_eqb v) vs) eqn:Ex.
    + intros _. split.
      * intros ->. discriminate.
      * apply existsb_exists in Ex. destruct Ex as [x [Hx Hv]].
        apply value_eqb_eq in Hv. now subst.
    + destruct (existsb is_null vs); discriminate.
  - intros [Hn Hin].
    destruct (is_null v) eqn:En; [now apply is_null_true in En|].
    assert (Ex : existsb (value_eqb v) vs = true).
    { apply existsb_exists. exists v. split; [assumption | apply value_eqb_refl]. }
    now rewrite Ex.
Qed.

Lemma WHERE_named (co : collation) (c s : string) (rs : list row) :
  WHERE (fun r => sql_eq_under co (get r c) (VStr s)) rs
  = filter (fun r => value_eqb_under co (get r c) (VStr s)) rs.
Proof.
  unfold WHERE, sql_true. apply filter_ext. intro r.
  destruct (get r c) as [|z|s']; simpl; try reflexivity.
  now destruct (co s' s).
Qed.

(** The rows the query selects, in a store whose rows satisfy their column
    constraints and which has at most one tag named Nature. *)
Lemma media_tagged_Nature_exact (co : collation) (db : database) :
  rows_valid MediaSharingApp db ->
  (List.length (Nature_tags co db) <= 1)%nat ->
  exists ms,
    media_tagged_Nature co db = Ok ms
    /\ forall m, In m ms <-> In m (rows (db "MediaItems")) /\ linked_to_Nature co db m.
Proof.
  intros Hv Hone. unfold media_tagged_Nature, linked_to_Nature. rewrite WHERE_named.
  fold (Nature_tags co db).
  destruct (Nature_tags co db) as [|t0 [|t1 l]]; simpl in Hone; [| |lia].
  - simpl. eexists. split; [reflexivity|]. intro m. rewrite In_WHERE. split.
    + intros [_ Hin]. apply sql_in_true in Hin. destruct Hin as [_ Hin].
      unfold SELECT1 in Hin. apply in_map_iff in Hin. destruct Hin as [mt [_ Hmt]].
      apply In_WHERE in Hmt. destruct Hmt as [_ Hmt].
      now destruct (get mt "tag_id").
    + intros [_ [t [mt [[] _]]]].
  - simpl. eexists. split; [reflexivity|]. intro m. rewrite In_WHERE. split.
    + intros [Hm Hin]. split; [assumption|].
      apply sql_in_true in Hin. destruct Hin as [_ Hin].
      unfold SELECT1 in Hin. apply in_map_iff in Hin. destruct Hin as [mt [Hid Hmt]].
      apply In_WHERE in Hmt. destruct Hmt as [Hmt Htag].
      apply sql_eq_true in Htag. destruct Htag as [Htag _].
      exists t0, mt. split; [now left|]. now split.
    + intros [Hm [t [mt [[<-|[]] [Hmt [Htag Hid]]]]]]. split; [assumption|].
      apply sql_in_true. split.
      * pose proof (Hv "MediaItems" MediaItems m
                       (col "media_id" INT [NOT_NULL; AUTO_INCREMENT; PRIMARY_KEY])
                       eq_refl Hm ltac:(declared)) as Hc.
        apply column_violation_none in Hc. destruct Hc as [_ [Hc _]].
        now apply Hc.
      * unfold SELECT1. apply in_map_iff. exists mt. split; [assumption|].
        apply In_WHERE. split; [assumption|].
        apply sql_eq_true. split; [assumption|].
        pose proof (Hv "MediaItemTags" MediaItemTags mt (col "tag_id" INT [NOT_NULL])
                       eq_refl Hmt ltac:(declared)) as Hc.
        apply column_violation_none in Hc. destruct Hc as [_ [Hc _]].
        now apply Hc.
Qed.

(** C4, the claim as stated fails: after the sample data and a second tag
    named Nature (nothing makes [tag_name] unique), the query has no result
    set: it ends with the error of a scalar sub-query with two rows.  Under
    a collation that ignores case, so it does after a tag named NATURE. *)
Lemma nature_query_two_tags :
  reachable MediaSharingApp db_two_Nature_tags
  /\ SELECT1 "tag_id" (Nature_tags ascii_ci db_two_Nature_tags) = [VInt 1; VInt 5]
  /\ media_tagged_Nature ascii_ci db_two_Nature_tags = Err SubqueryReturnsMoreThanOneRow
  /\ nature_query ascii_ci db_two_Nature_tags = Err SubqueryReturnsMoreThanOneRow
  /\ reachable MediaSharingApp db_Nature_and_NATURE
  /\ SELECT1 "tag_name" (Nature_tags ascii_ci db_Nature_and_NATURE)
     = [VStr "Nature"; VStr "NATURE"]
  /\ nature_query ascii_ci db_Nature_and_NATURE = Err SubqueryReturnsMoreThanOneRow.
Proof.
  split; [apply reachable_run, seed_reachable|].
  do 3 (split; [vm_compute; reflexivity|]).
  split; [apply reachable_run, seed_reachable|].
  split; vm_compute; reflexivity.
Qed.

(** C4, amended: in every reachable state with at most one tag named
    Nature, whatever the collation under which the names are compared, the
    query selects exactly the MediaItems rows whose [media_id] appears in a
    MediaItemTags row joined to the Tags row named Nature, and returns
    their title, description and filename; and when, in such a state, a
    MediaItemTags row linking a stored media item to the Nature tag is
    inserted, the query run on the new state selects that item. *)
Theorem nature_query_exact :
  (forall co db,
     reachable MediaSharingApp db ->
     (List.length (Nature_tags co db) <= 1)%nat ->
     exists ms,
       media_tagged_Nature co db = Ok ms
       /\ nature_query co db = Ok (SELECT ["title"; "description"; "filename"] ms)
       /\ forall m, In m ms <-> In m (rows (db "MediaItems")) /\ linked_to_Nature co db m)
  /\
  (forall co now db m t,
     reachable MediaSharingApp db ->
     (List.length (Nature_tags co db) <= 1)%nat ->
     In m (rows (db "MediaItems")) ->
     In t (Nature_tags co db) ->
     snd (exec MediaSharingApp now db (link m t)) = None ->
     exists ms,
       media_tagged_Nature co (fst (exec MediaSharingApp now db (link m t))) = Ok ms
       /\ In m ms
       /\ nature_query co (fst (exec MediaSharingApp now db (link m t)))
          = Ok (SELECT ["title"; "description"; "filename"] ms)).
Proof.
  split.
  - intros co db Hr Hone.
    destruct (media_tagged_Nature_exact co db (reachable_rows_valid _ _ Hr) Hone)
      as [ms [Hq Hms]].
    exists ms. split; [assumption|]. split; [|exact Hms].
    unfold nature_query. now rewrite Hq.
  - intros co now db m t Hr Hone Hm Ht Hacc.
    pose proof (reachable_exec MediaSharingApp now db (link m t) Hr) as Hr'.
    revert Hacc Hr'. unfold link. simpl exec. simpl insert_rows.
    destruct (insert_row MediaSharingApp now db "MediaItemTags" _ _)
      as [[db' id]|e] eqn:E; simpl; [|discriminate].
    intros _ Hr'.
    apply insert_row_inv in E. destruct E as [tbl [Hf [_ [_ [_ Hdb]]]]].
    assert (Htbl : tbl = MediaItemTags).
    { change (find_table MediaSharingApp "MediaItemTags") with (Some MediaItemTags) in Hf.
      congruence. }
    subst tbl.
    assert (Htags : Nature_tags co db' = Nature_tags co db) by now rewrite Hdb.
    assert (Hone' : (List.length (Nature_tags co db') <= 1)%nat) by now rewrite Htags.
    destruct (media_tagged_Nature_exact co db' (reachable_rows_valid _ _ Hr') Hone')
      as [ms [Hq Hms]].
    exists ms. split; [assumption|]. split.
    + apply Hms. split; [now rewrite Hdb|].
      exists t, (new_row now db MediaItemTags ["media_id"; "tag_id"]
                         [get m "media_id"; get t "tag_id"]).
      rewrite Htags. split; [assumption|]. split; [|split; reflexivity].
      rewrite Hdb, set_table_same. simpl rows. apply in_or_app. right. now left.
    + unfold nature_query. now rewrite Hq.
Qed.

(** On the sample data, which has one tag named Nature, compared without
    regard to case: the query, and the query after media item 2 has been
    tagged Nature. *)
Lemma nature_query_exact_witness :
  (exists ms,
     media_tagged_Nature ascii_ci (seed_db 0) = Ok ms
     /\ nature_query ascii_ci (seed_db 0)
        = Ok (SELECT ["title"; "description"; "filename"] ms)
     /\ forall m, In m ms <->
                  In m (rows (seed_db 0 "MediaItems"))
                  /\ linked_to_Nature ascii_ci (seed_db 0) m)
  /\
  (exists ms,
     media_tagged_Nature ascii_ci
       (fst (exec MediaSharingApp 0 (seed_db 0)
                  (link [("media_id", VInt 2); ("user_id", VInt 2);
                         ("filename", VStr "sample.mp4"); ("filesize", VInt 20480);
                         ("media_type", VStr "video/mp4"); ("title", VStr "Sample Video");
                         ("description", VStr "A sample video file"); ("created_at", VInt 0)]
                        [("tag_id", VInt 1); ("tag_name", VStr "Nature")]))) = Ok ms
     /\ In [("media_id", VInt 2); ("user_id", VInt 2);
            ("filename", VStr "sample.mp4"); ("filesize", VInt 20480);
            ("media_type", VStr "video/mp4"); ("title", VStr "Sample Video");
            ("description", VStr "A sample video file"); ("created_at", VInt 0)] ms
     /\ nature_query ascii_ci
          (fst (exec MediaSharingApp 0 (seed_db 0)
                     (link [("media_id", VInt 2); ("user_id", VInt 2);
                            ("filename", VStr "sample.mp4"); ("filesize", VInt 20480);
                            ("media_type", VStr "video/mp4"); ("title", VStr "Sample Video");
                            ("description", VStr "A sample video file");
                            ("created_at", VInt 0)]
                           [("tag_id", VInt 1); ("tag_name", VStr "Nature")])))
        = Ok (SELECT ["title"; "description"; "filename"] ms)).
Proof.
  split.
  - apply (proj1 nature_query_exact ascii_ci (seed_db 0) (seed_reachable 0)).
    vm_compute. lia.
  - apply (proj2 nature_query_exact ascii_ci 0 (seed_db 0)).
    + apply seed_reachable.
    + vm_compute. lia.
    + listed.
    + listed.
    + vm_compute. reflexivity.
Defined.

(** * Keys are keys in every reachable state *)

Lemma forallb_same {A : Type} (f g : A -> bool) (l : list A) :
  (forall x, In x l -> f x = g x) -> forallb f l = forallb g l.
Proof.
  induction l as [|a l IH]; simpl; intro H; [reflexivity|].
  rewrite (H a (or_introl eq_refl)), IH; [reflexivity|].
  intros x Hx. apply H. now right.
Qed.

Lemma existsb_same {A : Type} (f g : A -> bool) (l : list A) :
  (forall x, In x l -> f x = g x) -> existsb f l = existsb g l.
Proof.
  induction l as [|a l IH]; simpl; intro H; [reflexivity|].
  rewrite (H a (or_introl eq_refl)), IH; [reflexivity|].
  intros x Hx. apply H. now right.
Qed.

Lemma value_eqb_sym (a b : value) : value_eqb a b = value_eqb b a.
Proof.
  destruct a, b; simpl; try reflexivity.
  - apply Z.eqb_sym.
  - apply String.eqb_sym.
Qed.

Lemma same_on_sym (k : list string) (r r' : row) : same_on k r r' = same_on k r' r.
Proof.
  unfold same_on. apply forallb_same. intros c _. apply value_eqb_sym.
Qed.

Lemma same_on_agree (k : list string) (r r' : row) :
  same_on k r r' = true <-> forall c, In c k -> get r' c = get r c.
Proof.
  unfold same_on. rewrite forallb_forall.
  split; intros H c Hc; apply value_eqb_eq; now apply H.
Qed.

Lemma no_null_on_agree (k : list string) (r r' : row) :
  same_on k r r' = true -> no_null_on k r = no_null_on k r'.
Proof.
  intro H. pose proof (proj1 (same_on_agree k r r') H) as H'. unfold no_null_on.
  apply forallb_same. intros c Hc. now rewrite (H' c Hc).
Qed.

Lemma key_collision_app_one (k : list string) (rs : list row) (r : row) :
  key_collision k rs = false ->
  key_violation rs r k = None ->
  key_collision k (rs ++ [r]) = false.
Proof.
  unfold key_violation. fold (no_null_on k r). intros Hrs Hr.
  assert (Hnew : no_null_on k r && existsb (same_on k r) rs = false)
    by (destruct (no_null_on k r && existsb (same_on k r) rs); [discriminate | reflexivity]).
  clear Hr. induction rs as [|x rs IH]; simpl in *.
  - fold (no_null_on k r). now rewrite andb_false_r.
  - fold (no_null_on k x) in *. apply orb_false_elim in Hrs. destruct Hrs as [Hx Hrs].
    rewrite existsb_app. simpl. rewrite orb_false_r.
    assert (Hxr : no_null_on k x && same_on k x r = false).
    { destruct (same_on k x r) eqn:Es; [|apply andb_false_r].
      rewrite (no_null_on_agree k x r Es). rewrite same_on_sym in Es. rewrite Es in Hnew.
      simpl in Hnew. now rewrite andb_true_r in *. }
    rewrite andb_orb_distrib_r, Hx, Hxr. simpl. apply IH; [assumption|].
    destruct (no_null_on k r); [|reflexivity]. simpl in *.
    now apply orb_false_elim in Hnew.
Qed.

Lemma key_collision_filter (k : list string) (p : row -> bool) (rs : list row) :
  key_collision k rs = false -> key_collision k (filter p rs) = false.
Proof.
  induction rs as [|x rs IH]; simpl; [reflexivity|].
  intro H. apply orb_false_elim in H. destruct H as [Hx Hrs].
  destruct (p x); simpl; [|now apply IH].
  rewrite (IH Hrs), orb_false_r.
  destruct (forallb (fun c => negb (is_null (get x c))) k); [|reflexivity]. simpl in *.
  destruct (existsb (same_on k x) (filter p rs)) eqn:E; [|reflexivity].
  apply existsb_exists in E. destruct E as [y [Hy Hs]]. apply filter_In in Hy.
  assert (existsb (same_on k x) rs = true) by (apply existsb_exists; exists y; tauto).
  congruence.
Qed.

Lemma key_collision_map (k : list string) (f : row -> row) (rs : list row) :
  (forall r c, In c k -> get (f r) c = get r c) ->
  key_collision k (map f rs) = key_collision k rs.
Proof.
  intro Hf. induction rs as [|x rs IH]; simpl; [reflexivity|].
  rewrite IH. f_equal. f_equal.
  - apply forallb_same. intros c Hc. now rewrite Hf.
  - clear IH. induction rs as [|y rs IH]; simpl; [reflexivity|].
    rewrite IH. f_equal. unfold same_on.
    apply forallb_same. intros c Hc. now rewrite !Hf.
Qed.

Section Keys.

Variable sch : schema.

Lemma insert_row_keys_valid (now : Z) (db db' : database) (t : string)
      (cols : list string) (vals : list value) (id : Z) :
  keys_valid sch db ->
  insert_row sch now db t cols vals = Ok (db', id) ->
  keys_valid sch db'.
Proof.
  intros Hv H. apply insert_row_inv in H.
  destruct H as [tbl [Hf [_ [Hnone [_ ->]]]]].
  intros t1 tbl1 k Hf1 Hk. unfold set_table.
  destruct (String.eqb_spec t1 t) as [->|_]; [|now apply (Hv t1 tbl1)].
  simpl. rewrite Hf in Hf1. inversion Hf1; subst tbl1.
  apply key_collision_app_one; [now apply (Hv t tbl)|].
  apply violated_none in Hnone. destruct Hnone as [_ [Hkey _]].
  rewrite (find_table_name _ _ _ Hf) in Hkey. now apply Hkey.
Qed.

Lemma insert_rows_keys_valid (now : Z) (t : string) (cols : list string)
      (tuples : list (list value)) :
  forall db db' id,
    keys_valid sch db ->
    insert_rows sch now db t cols tuples = Ok (db', id) ->
    keys_valid sch db'.
Proof.
  induction tuples as [|vals rest IH]; simpl; intros db db' id Hv H.
  - now inversion H; subst.
  - destruct (insert_row sch now db t cols vals) as [[db1 id1]|] eqn:E1; [|discriminate].
    destruct (insert_rows sch now db1 t cols rest) as [[db2 id2]|] eqn:E2; [|discriminate].
    inversion H; subst. apply (IH db1 db' id2); [|assumption].
    now apply (insert_row_keys_valid now db db1 t cols vals id).
Qed.

Lemma delete_rows_keys_valid (db db' : database) (t : string) (cond : row -> bool) :
  keys_valid sch db -> delete_rows sch db t cond = Ok db' -> keys_valid sch db'.
Proof.
  intros Hv H. apply delete_rows_inv in H. destruct H as [tbl [Hf [_ ->]]].
  intros t1 tbl1 k Hf1 Hk. unfold set_table.
  destruct (String.eqb_spec t1 t) as [->|_]; [|now apply (Hv t1 tbl1)].
  simpl. apply key_collision_filter. now apply (Hv t tbl1).
Qed.

Lemma update_rows_keys_valid (db db' : database) (t c : string) (v : value)
      (cond : row -> bool) :
  keys_valid sch db -> update_rows sch db t c v cond = Ok db' -> keys_valid sch db'.
Proof.
  intros Hv H. unfold update_rows in H.
  destruct (find_table sch t) as [tbl|] eqn:Ef; [|discriminate].
  rewrite (find_table_name _ _ _ Ef) in H.
  destruct (negb (mem c (map col_name (tbl_cols tbl)))); [discriminate|].
  destruct (first_violation
              (fun r => first_violation (column_violation tbl (set_cell r c v))
                                        (tbl_cols tbl)) _); [discriminate|].
  destruct (first_violation
              (fun k => if mem c k && key_collision k _ then Some (Duplicate k) else None)
              _) eqn:E2; [discriminate|].
  destruct (first_violation
              (fun r => first_violation (fk_violation _ (set_cell r c v)) _) _);
    [discriminate|].
  destruct (update_error sch db t c _); [discriminate|].
  inversion H; subst db'. clear H.
  intros t1 tbl1 k Hf1 Hk. unfold set_table.
  destruct (String.eqb_spec t1 t) as [->|_]; [|now apply (Hv t1 tbl1)].
  simpl. rewrite Ef in Hf1. inversion Hf1; subst tbl1.
  rewrite first_violation_none in E2. specialize (E2 k Hk).
  destruct (mem c k) eqn:Em; simpl in E2.
  - destruct (key_collision k _); [discriminate | reflexivity].
  - rewrite key_collision_map; [now apply (Hv t tbl)|].
    intros r c' Hc'. destruct (cond r); [|reflexivity].
    apply get_set_cell_other. intros ->.
    assert (mem c k = true) by (apply existsb_exists; exists c; split;
                                [assumption | apply String.eqb_refl]).
    congruence.
Qed.

Lemma exec_keys_valid (now : Z) (db : database) (st : statement) :
  keys_valid sch db -> keys_valid sch (fst (exec sch now db st)).
Proof.
  intro Hv. destruct st as [t cols tuples | t c v cond | t cond]; simpl.
  - destruct (insert_rows sch now db t cols tuples) as [[db' id]|] eqn:E; simpl;
      [|assumption].
    now apply (insert_rows_keys_valid now t cols tuples db db' id).
  - destruct (update_rows sch db t c v cond) as [db'|] eqn:E; simpl; [|assumption].
    now apply (update_rows_keys_valid db db' t c v cond).
  - destruct (delete_rows sch db t cond) as [db'|] eqn:E; simpl; [|assumption].
    now apply (delete_rows_keys_valid db db' t cond).
Qed.

Lemma reachable_keys_valid (db : database) : reachable sch db -> keys_valid sch db.
Proof.
  induction 1 as [|now db st _ IH].
  - intros t tbl k _ _. reflexivity.
  - now apply exec_keys_valid.
Qed.

End Keys.

(** Two rows at different places of a table never agree on a key without
    NULLs. *)
Lemma key_collision_positions (k : list string) (rs : list row) :
  key_collision k rs = false ->
  forall i j r r',
    nth_error rs i = Some r -> nth_error rs j = Some r' ->
    (forall c, In c k -> get r c <> VNull) ->
    (forall c, In c k -> get r c = get r' c) ->
    i = j.
Proof.
  induction rs as [|x rs IH]; intros H i j r r' Hi Hj Hnn Hag.
  - destruct i; discriminate.
  - simpl in H. apply orb_false_elim in H. destruct H as [Hx Hrs].
    assert (Hnn' : forall c, In c k -> get r' c <> VNull)
      by (intros c Hc; rewrite <- (Hag c Hc); now apply Hnn).
    assert (Hno : forall y z, In y rs -> (forall c, In c k -> get x c <> VNull) ->
                              (forall c, In c k -> get x c = get y c) -> z = x -> False).
    { intros y z Hy Hxn Hxy _.
      assert (E1 : forallb (fun c => negb (is_null (get x c))) k = true).
      { apply forallb_forall. intros c Hc. specialize (Hxn c Hc).
        destruct (get x c); simpl; [contradiction | reflexivity | reflexivity]. }
      assert (E2 : existsb (same_on k x) rs = true).
      { apply existsb_exists. exists y. split; [assumption|].
        apply same_on_agree. intros c Hc. symmetry. now apply Hxy. }
      rewrite E1, E2 in Hx. discriminate. }
    destruct i as [|i], j as [|j]; simpl in Hi, Hj.
    + reflexivity.
    + inversion Hi; subst r. exfalso.
      apply (Hno r' x (nth_error_In _ _ Hj) Hnn Hag eq_refl).
    + inversion Hj; subst r'. exfalso.
      apply (Hno r x (nth_error_In _ _ Hi) Hnn'); [|reflexivity].
      intros c Hc. symmetry. now apply Hag.
    + f_equal. now apply (IH Hrs i j r r').
Qed.

(** * Every table of the script, every key, every foreign key *)

Lemma MediaSharingApp_well_declared : forallb well_declared MediaSharingApp = true.
Proof. reflexivity. Qed.

Lemma column_of_In (tbl : table) (c : string) (cl : column) :
  column_of tbl c = Some cl -> In cl (tbl_cols tbl) /\ col_name cl = c.
Proof.
  unfold column_of. intro H. apply find_some in H. destruct H as [H1 H2].
  split; [assumption | now apply String.eqb_eq].
Qed.

Lemma get_build_row (now next : Z) (asg : list (string * value)) (cols : list column)
      (c : string) (cl : column) :
  find (fun x => String.eqb (col_name x) c) cols = Some cl ->
  get (map (fun x => (col_name x, cell now next asg x)) cols) c = cell now next asg cl.
Proof.
  unfold get. induction cols as [|x cols IH]; simpl; [discriminate|].
  destruct (String.eqb (col_name x) c).
  - intro H. now inversion H.
  - exact IH.
Qed.

Lemma cell_given (now next : Z) (cols : list string) (vals : list value) (cl : column) :
  has_default_now cl = false ->
  (has_auto_increment cl = true -> wants_auto (given cols vals (col_name cl)) = false) ->
  cell now next (combine cols vals) cl = given cols vals (col_name cl).
Proof.
  unfold cell, given. intros Hd Ha.
  destruct (supplied (combine cols vals) (col_name cl)) as [v|].
  - destruct (has_auto_increment cl); [|reflexivity].
    now rewrite (Ha eq_refl).
  - rewrite Hd. destruct (has_auto_increment cl); [|reflexivity].
    specialize (Ha eq_refl). discriminate.
Qed.

Lemma new_row_given (now : Z) (db : database) (tbl : table) (cols : list string)
      (vals : list value) (c : string) (cl : column) :
  column_of tbl c = Some cl ->
  has_default_now cl = false ->
  (has_auto_increment cl = true -> wants_auto (given cols vals c) = false) ->
  get (new_row now db tbl cols vals) c = given cols vals c.
Proof.
  intros Hc Hd Ha. unfold new_row, build_row.
  rewrite (get_build_row _ _ _ _ c cl Hc).
  destruct (column_of_In _ _ _ Hc) as [_ <-]. now apply cell_given.
Qed.

Lemma declared_table (tbl : table) :
  In tbl MediaSharingApp -> well_declared tbl = true.
Proof.
  intro H. pose proof MediaSharingApp_well_declared as Hw.
  rewrite forallb_forall in Hw. now apply Hw.
Qed.

Lemma declared_key_column (tbl : table) (k : list string) (c : string) :
  In tbl MediaSharingApp -> In k (unique_keys tbl) -> In c k ->
  exists cl, column_of tbl c = Some cl
             /\ not_null_in tbl cl = true /\ has_default_now cl = false.
Proof.
  intros Ht Hk Hc. pose proof (declared_table tbl Ht) as Hw.
  unfold well_declared in Hw. apply andb_prop in Hw. destruct Hw as [Hw _].
  apply andb_prop in Hw. destruct Hw as [_ Hw].
  rewrite forallb_forall in Hw. specialize (Hw k Hk).
  rewrite forallb_forall in Hw. specialize (Hw c Hc).
  destruct (column_of tbl c) as [cl|]; [|discriminate].
  apply andb_prop in Hw. destruct Hw as [H1 H2].
  exists cl. repeat split; [assumption|]. now destruct (has_default_now cl).
Qed.

Lemma declared_fk_column (tbl : table) (fk : foreign_key) :
  In tbl MediaSharingApp -> In fk (tbl_fks tbl) ->
  fk_table fk <> tbl_name tbl
  /\ exists cl, column_of tbl (fk_col fk) = Some cl
                /\ has_auto_increment cl = false /\ has_default_now cl = false.
Proof.
  intros Ht Hfk. pose proof (declared_table tbl Ht) as Hw.
  unfold well_declared in Hw. apply andb_prop in Hw. destruct Hw as [_ Hw].
  rewrite forallb_forall in Hw. specialize (Hw fk Hfk).
  apply andb_prop in Hw. destruct Hw as [Hc Hn]. split.
  - intro E. rewrite E, String.eqb_refl in Hn. discriminate.
  - destruct (column_of tbl (fk_col fk)) as [cl|]; [|discriminate].
    apply andb_prop in Hc. destruct Hc as [H1 H2].
    exists cl. repeat split.
    + now destruct (has_auto_increment cl).
    + now destruct (has_default_now cl).
Qed.

Lemma forallb_false_exists {A : Type} (f : A -> bool) (l : list A) :
  forallb f l = false -> exists x, In x l /\ f x = false.
Proof.
  induction l as [|a l IH]; simpl; [discriminate|].
  destruct (f a) eqn:E; simpl.
  - intro H. destruct (IH H) as [x [Hx Hf]]. exists x. split; [now right | assumption].
  - intros _. exists a. split; [now left | assumption].
Qed.

(** X1. Every key is a key: in every reachable state, two rows at different
    places of a table differ on each PRIMARY KEY, each UNIQUE column and
    the composite key of MediaItemTags. *)
Theorem keys_are_keys :
  forall db, reachable MediaSharingApp db ->
  forall t tbl k, find_table MediaSharingApp t = Some tbl -> In k (unique_keys tbl) ->
  forall i j r r',
    nth_error (rows (db t)) i = Some r -> nth_error (rows (db t)) j = Some r' ->
    i <> j ->
    exists c, In c k /\ get r c <> get r' c.
Proof.
  intros db Hr t tbl k Hf Hk i j r r' Hi Hj Hij.
  destruct (forallb (fun c => value_eqb (get r c) (get r' c)) k) eqn:E.
  - exfalso. apply Hij. rewrite forallb_forall in E.
    apply (key_collision_positions k (rows (db t))
             (reachable_keys_valid _ _ Hr t tbl k Hf Hk) i j r r' Hi Hj).
    + intros c Hc.
      destruct (declared_key_column tbl k c (find_table_In _ _ _ Hf) Hk Hc)
        as [cl [Hcl [Hnn _]]].
      destruct (column_of_In _ _ _ Hcl) as [Hin <-].
      pose proof (reachable_rows_valid _ _ Hr t tbl r cl Hf (nth_error_In _ _ Hi) Hin)
        as Hv.
      apply column_violation_none in Hv. now apply Hv.
    + intros c Hc. apply value_eqb_eq. now apply E.
  - apply forallb_false_exists in E. destruct E as [c [Hc Hne]].
    exists c. split; [assumption|]. intro Heq. apply value_eqb_eq in Heq. congruence.
Qed.

(** On the sample data: the second and the fifth like are for the same media
    item; the rows differ on [like_id], the only key of Likes. *)
Lemma keys_are_keys_witness :
  exists c, In c ["like_id"]
            /\ get [("like_id", VInt 2); ("media_id", VInt 2); ("user_id", VInt 1);
                    ("created_at", VInt 0)] c
               <> get [("like_id", VInt 5); ("media_id", VInt 2); ("user_id", VInt 3);
                       ("created_at", VInt 0)] c.
Proof.
  apply (keys_are_keys (seed_db 0) (seed_reachable 0) "Likes" Likes ["like_id"]
                       eq_refl ltac:(declared) 1%nat 4%nat).
  - vm_compute. reflexivity.
  - vm_compute. reflexivity.
  - discriminate.
Defined.

(** X2. Every FOREIGN KEY of the script is enforced on INSERT: a well-formed
    INSERT into any table, with a tuple whose value in a foreign key column
    is a number and is the referenced column of no row of the parent table,
    is rejected with a ConstraintViolation and leaves the database
    unchanged. *)
Theorem foreign_keys_enforced :
  forall now db t tbl fk cols tuples vals,
    find_table MediaSharingApp t = Some tbl -> In fk (tbl_fks tbl) ->
    Forall (fun vals => statement_error tbl cols vals = None) tuples ->
    In vals tuples ->
    (exists z, given cols vals (fk_col fk) = VInt z) ->
    (forall p, In p (rows (db (fk_table fk))) ->
               get p (fk_ref fk) <> given cols vals (fk_col fk)) ->
    exists v, exec MediaSharingApp now db (INSERT_INTO t cols tuples)
              = (db, Some (ConstraintViolation v)).
Proof.
  intros now db t tbl fk cols tuples vals Hf Hfk Hwf Hin [z Hz] Hno.
  assert (Hnn : given cols vals (fk_col fk) <> VNull) by (rewrite Hz; discriminate).
  apply (insert_rejected_tuple MediaSharingApp now db t tbl cols tuples vals);
    try assumption.
  intros dbi Hoth _ Hv.
  apply violated_none in Hv. destruct Hv as [_ [_ Hv]]. specialize (Hv fk Hfk).
  destruct (declared_fk_column tbl fk (find_table_In _ _ _ Hf) Hfk)
    as [Hself [cl [Hcl [Ha Hd]]]].
  apply fk_violation_none in Hv.
  rewrite (new_row_given now dbi tbl cols vals (fk_col fk) cl Hcl Hd) in Hv
    by (rewrite Ha; discriminate).
  destruct Hv as [Hv|[p [Hp Hpv]]]; [contradiction|].
  rewrite (find_table_name _ _ _ Hf) in Hself.
  rewrite (Hoth (fk_table fk) Hself) in Hp.
  now apply (Hno p).
Qed.

(** On the sample data: a comment on media item 7, a like by user 9, a
    rating by user 9 and a tag 8 for media item 1 are all rejected. *)
Lemma foreign_keys_enforced_witness :
  (exists v, exec MediaSharingApp 0 (seed_db 0)
                  (INSERT_INTO "Comments" ["media_id"; "user_id"; "comment_text"]
                               [[VInt 7; VInt 1; VStr "Nice photo!"]])
             = (seed_db 0, Some (ConstraintViolation v)))
  /\ (exists v, exec MediaSharingApp 0 (seed_db 0)
                     (INSERT_INTO "Likes" ["media_id"; "user_id"] [[VInt 1; VInt 9]])
                = (seed_db 0, Some (ConstraintViolation v)))
  /\ (exists v, exec MediaSharingApp 0 (seed_db 0)
                     (INSERT_INTO "MediaItemTags" ["media_id"; "tag_id"]
                                  [[VInt 1; VInt 8]])
                = (seed_db 0, Some (ConstraintViolation v))).
Proof.
  split; [|split].
  - apply (foreign_keys_enforced 0 (seed_db 0) "Comments" Comments
             (FOREIGN_KEY "media_id" "MediaItems" "media_id" None None) _ _
             [VInt 7; VInt 1; VStr "Nice photo!"]).
    + reflexivity.
    + declared.
    + repeat constructor.
    + left. reflexivity.
    + now exists 7.
    + intros p Hp. vm_compute in Hp.
      destruct Hp as [<-|[<-|[<-|[<-|[]]]]]; vm_compute; discriminate.
  - apply (foreign_keys_enforced 0 (seed_db 0) "Likes" Likes
             (FOREIGN_KEY "user_id" "Users" "user_id" None None) _ _
             [VInt 1; VInt 9]).
    + reflexivity.
    + declared.
    + repeat constructor.
    + left. reflexivity.
    + now exists 9.
    + intros p Hp. vm_compute in Hp.
      destruct Hp as [<-|[<-|[<-|[<-|[]]]]]; vm_compute; discriminate.
  - apply (foreign_keys_enforced 0 (seed_db 0) "MediaItemTags" MediaItemTags
             (FOREIGN_KEY "tag_id" "Tags" "tag_id" None None) _ _
             [VInt 1; VInt 8]).
    + reflexivity.
    + declared.
    + repeat constructor.
    + left. reflexivity.
    + now exists 8.
    + intros p Hp. vm_compute in Hp.
      destruct Hp as [<-|[<-|[<-|[<-|[]]]]]; vm_compute; discriminate.
Defined.

(** X3. Every key of the script is enforced on INSERT: a well-formed INSERT
    into any table, with a tuple that gives explicitly the values a stored
    row has on a PRIMARY KEY, on a UNIQUE column or on the composite key of
    MediaItemTags, is rejected with a ConstraintViolation and leaves the
    database unchanged. *)
Theorem keys_enforced :
  forall now db t tbl k cols tuples vals r0,
    find_table MediaSharingApp t = Some tbl -> In k (unique_keys tbl) ->
    Forall (fun vals => statement_error tbl cols vals = None) tuples ->
    In vals tuples ->
    In r0 (rows (db t)) ->
    (forall c, In c k -> given cols vals c = get r0 c) ->
    (forall c cl, In c k -> column_of tbl c = Some cl -> has_auto_increment cl = true ->
                  wants_auto (given cols vals c) = false) ->
    exists v, exec MediaSharingApp now db (INSERT_INTO t cols tuples)
              = (db, Some (ConstraintViolation v)).
Proof.
  intros now db t tbl k cols tuples vals r0 Hf Hk Hwf Hin Hr0 Hsame Hexp.
  apply (insert_rejected_tuple MediaSharingApp now db t tbl cols tuples vals);
    try assumption.
  intros dbi _ Hinc Hv. apply Hinc in Hr0.
  apply violated_none in Hv. destruct Hv as [Hcol [Hkey _]].
  specialize (Hkey k Hk). rewrite (find_table_name _ _ _ Hf) in Hkey.
  assert (Hget : forall c, In c k ->
                           get (new_row now dbi tbl cols vals) c = given cols vals c
                           /\ get (new_row now dbi tbl cols vals) c <> VNull).
  { intros c Hc.
    destruct (declared_key_column tbl k c (find_table_In _ _ _ Hf) Hk Hc)
      as [cl [Hcl [Hnn Hd]]].
    split.
    - apply (new_row_given now dbi tbl cols vals c cl Hcl Hd). now apply (Hexp c cl).
    - destruct (column_of_In _ _ _ Hcl) as [Hcin <-].
      specialize (Hcol cl Hcin). apply column_violation_none in Hcol. now apply Hcol. }
  destruct (key_violation_none _ _ _ Hkey (fun c Hc => proj2 (Hget c Hc)) r0 Hr0)
    as [c [Hc Hne]].
  apply Hne. rewrite (proj1 (Hget c Hc)). symmetry. now apply Hsame.
Qed.

(** On the sample data: media item 1 is tagged Nature already, and user 3
    exists already. *)
Lemma keys_enforced_witness :
  (exists v, exec MediaSharingApp 0 (seed_db 0)
                  (INSERT_INTO "MediaItemTags" ["media_id"; "tag_id"] [[VInt 1; VInt 1]])
             = (seed_db 0, Some (ConstraintViolation v)))
  /\ (exists v, exec MediaSharingApp 0 (seed_db 0)
                     (INSERT_INTO "Users" ["user_id"; "username"; "password"; "email"]
                                  [[VInt 3; VStr "Third"; VStr "to-be-hashed-pw7";
                                    VStr "third@example.com"]])
                = (seed_db 0, Some (ConstraintViolation v))).
Proof.
  split.
  - apply (keys_enforced 0 (seed_db 0) "MediaItemTags" MediaItemTags
             ["media_id"; "tag_id"] _ _ [VInt 1; VInt 1]
             [("media_id", VInt 1); ("tag_id", VInt 1)]).
    + reflexivity.
    + declared.
    + repeat constructor.
    + left. reflexivity.
    + listed.
    + intros c [<-|[<-|[]]]; reflexivity.
    + intros c cl [<-|[<-|[]]] Hcl; vm_compute in Hcl; inversion Hcl; subst cl;
        discriminate.
  - apply (keys_enforced 0 (seed_db 0) "Users" Users ["user_id"] _ _
             [VInt 3; VStr "Third"; VStr "to-be-hashed-pw7"; VStr "third@example.com"]
             [("user_id", VInt 3); ("username", VStr "Anon5468");
              ("password", VStr "to-be-hashed-pw3"); ("email", VStr "anon5468@example.com");
              ("user_level_id", VInt 2); ("created_at", VInt 0)]).
    + reflexivity.
    + declared.
    + repeat constructor.
    + left. reflexivity.
    + listed.
    + intros c [<-|[]]; reflexivity.
    + intros c cl [<-|[]] _ _. reflexivity.
Defined.

Lemma column_violation_same_cell (tbl : table) (r r' : row) (c : column) :
  get r (col_name c) = get r' (col_name c) ->
  column_violation tbl r c = column_violation tbl r' c.
Proof. unfold column_violation. now intros ->. Qed.

Lemma fk_violation_same_cell (db : database) (r r' : row) (fk : foreign_key) :
  get r (fk_col fk) = get r' (fk_col fk) ->
  fk_violation db r fk = fk_violation db r' fk.
Proof. unfold fk_violation. now intros ->. Qed.

(** What an accepted one-tuple INSERT does: it appends the row it has built,
    and nothing else. *)
Lemma insert_one_result (sch : schema) (now : Z) (db : database) (t : string)
      (tbl : table) (cols : list string) (vals : list value) :
  find_table sch t = Some tbl ->
  snd (exec sch now db (INSERT_INTO t cols [vals])) = None ->
  rows (fst (exec sch now db (INSERT_INTO t cols [vals])) t)
  = rows (db t) ++ [new_row now db tbl cols vals]
  /\ forall t', t' <> t ->
                fst (exec sch now db (INSERT_INTO t cols [vals])) t' = db t'.
Proof.
  intros Hf. simpl.
  destruct (insert_row sch now db t cols vals) as [[db' id]|e] eqn:E; simpl;
    [|discriminate].
  intros _. apply insert_row_inv in E. destruct E as [tbl' [Hf' [_ [_ [_ ->]]]]].
  rewrite Hf in Hf'. inversion Hf'; subst tbl'. split.
  - now rewrite set_table_same.
  - intros t' Ht'. now apply set_table_other.
Qed.

(** X4. Nothing keeps a user from liking a media item twice: in a reachable
    state, the pair of a stored like can be inserted again, and is stored
    again, as long as the AUTO_INCREMENT counter of Likes is within INT and
    is not the [like_id] of a stored row. *)
Theorem likes_may_repeat :
  forall now db r0,
    reachable MediaSharingApp db ->
    In r0 (rows (db "Likes")) ->
    -2147483648 <= next_id (db "Likes") <= 2147483647 ->
    (forall r, In r (rows (db "Likes")) -> get r "like_id" <> VInt (next_id (db "Likes"))) ->
    snd (exec MediaSharingApp now db
              (INSERT_INTO "Likes" ["media_id"; "user_id"]
                           [[get r0 "media_id"; get r0 "user_id"]])) = None
    /\ exists r,
        rows (fst (exec MediaSharingApp now db
                        (INSERT_INTO "Likes" ["media_id"; "user_id"]
                                     [[get r0 "media_id"; get r0 "user_id"]])) "Likes")
        = rows (db "Likes") ++ [r]
        /\ get r "media_id" = get r0 "media_id"
        /\ get r "user_id" = get r0 "user_id".
Proof.
  intros now db r0 Hr Hr0 Hrange Hfresh.
  assert (Hacc : snd (exec MediaSharingApp now db
                           (INSERT_INTO "Likes" ["media_id"; "user_id"]
                                        [[get r0 "media_id"; get r0 "user_id"]])) = None).
  { apply (insert_one_accepted MediaSharingApp now db "Likes" Likes); [reflexivity|].
    split; [reflexivity|]. apply violated_none_intro.
    - intros c Hc. simpl in Hc. destruct Hc as [<-|[<-|[<-|[<-|[]]]]].
      + unfold column_violation. simpl.
        assert (Hlo : (-2147483648 <=? next_id (db "Likes")) = true)
          by (apply Z.leb_le; lia).
        assert (Hhi : (next_id (db "Likes") <=? 2147483647) = true)
          by (apply Z.leb_le; lia).
        now rewrite Hlo, Hhi.
      + rewrite (column_violation_same_cell Likes _ r0) by reflexivity.
        apply (reachable_rows_valid _ _ Hr "Likes" Likes r0); [reflexivity|assumption|].
        declared.
      + rewrite (column_violation_same_cell Likes _ r0) by reflexivity.
        apply (reachable_rows_valid _ _ Hr "Likes" Likes r0); [reflexivity|assumption|].
        declared.
      + reflexivity.
    - intros k Hk. simpl in Hk. destruct Hk as [<-|[]].
      unfold key_violation. simpl.
      destruct (existsb _ (rows (db "Likes"))) eqn:E; [|reflexivity].
      apply existsb_exists in E. destruct E as [r [Hin Hs]].
      unfold same_on in Hs. simpl in Hs. rewrite andb_true_r in Hs.
      apply value_eqb_eq in Hs. now apply Hfresh in Hin.
    - intros fk Hfk. simpl in Hfk. destruct Hfk as [<-|[<-|[]]].
      + rewrite (fk_violation_same_cell db _ r0) by reflexivity.
        apply (reachable_refs_valid _ _ Hr "Likes" Likes r0); [reflexivity|assumption|].
        declared.
      + rewrite (fk_violation_same_cell db _ r0) by reflexivity.
        apply (reachable_refs_valid _ _ Hr "Likes" Likes r0); [reflexivity|assumption|].
        declared. }
  split; [exact Hacc|].
  destruct (insert_one_result MediaSharingApp now db "Likes" Likes _ _ eq_refl Hacc)
    as [Hrows _].
  eexists. split; [exact Hrows|]. split; reflexivity.
Qed.

(** On the sample data JaneSmith likes media item 1 a second time. *)
Lemma likes_may_repeat_witness :
  snd (exec MediaSharingApp 0 (seed_db 0)
            (INSERT_INTO "Likes" ["media_id"; "user_id"] [[VInt 1; VInt 2]])) = None
  /\ exists r,
      rows (fst (exec MediaSharingApp 0 (seed_db 0)
                      (INSERT_INTO "Likes" ["media_id"; "user_id"] [[VInt 1; VInt 2]]))
                "Likes")
      = rows (seed_db 0 "Likes") ++ [r]
      /\ get r "media_id" = VInt 1
      /\ get r "user_id" = VInt 2.
Proof.
  apply (likes_may_repeat 0 (seed_db 0)
           [("like_id", VInt 1); ("media_id", VInt 1); ("user_id", VInt 2);
            ("created_at", VInt 0)] (seed_reachable 0)).
  - listed.
  - vm_compute. split; discriminate.
  - intros r Hin. vm_compute in Hin.
    destruct Hin as [<-|[<-|[<-|[<-|[<-|[<-|[]]]]]]]; vm_compute; discriminate.
Defined.

(** * Statements with a sub-query for a value *)

Lemma key_lookup_at_most_one (c : string) (v : value) (rs : list row) :
  key_collision [c] rs = false ->
  (List.length (WHERE (fun r => sql_eq (get r c) v) rs) <= 1)%nat.
Proof.
  unfold WHERE. induction rs as [|x rs IH]; simpl; [lia|].
  intro H. apply orb_false_elim in H. destruct H as [Hx Hrs].
  destruct (sql_true (sql_eq (get x c) v)) eqn:Ex; [|now apply IH].
  assert (Hxv : get x c = v /\ get x c <> VNull).
  { apply sql_eq_true. unfold sql_true in Ex.
    destruct (sql_eq (get x c) v) as [[|]|]; congruence. }
  destruct Hxv as [Hxv Hnn].
  assert (Hnone : filter (fun r => sql_true (sql_eq (get r c) v)) rs = []).
  { destruct (filter (fun r => sql_true (sql_eq (get r c) v)) rs) as [|y l] eqn:E;
      [reflexivity|].
    assert (Hy : In y (filter (fun r => sql_true (sql_eq (get r c) v)) rs))
      by (rewrite E; now left).
    apply filter_In in Hy. destruct Hy as [Hy Hyv].
    assert (Hyv' : get y c = v).
    { unfold sql_true in Hyv. destruct (sql_eq (get y c) v) as [[|]|] eqn:Es;
        try discriminate. now apply sql_eq_true in Es. }
    exfalso. simpl in Hx. rewrite andb_true_r in Hx.
    assert (E1 : negb (is_null (get x c)) = true)
      by (destruct (get x c); [contradiction | reflexivity | reflexivity]).
    assert (E2 : existsb (same_on [c] x) rs = true).
    { apply existsb_exists. exists y. split; [assumption|].
      unfold same_on. simpl. rewrite andb_true_r. apply value_eqb_eq. congruence. }
    rewrite E1, E2 in Hx. discriminate. }
  rewrite Hnone. simpl. lia.
Qed.

Lemma value_eqb_under_refl (co : collation) (v : value) :
  equivalence co -> value_eqb_under co v v = true.
Proof.
  intros [Hrefl _]. destruct v; simpl; [reflexivity | apply Z.eqb_refl | apply Hrefl].
Qed.

Lemma value_eqb_under_sym (co : collation) (a b : value) :
  equivalence co -> value_eqb_under co a b = value_eqb_under co b a.
Proof.
  intros [_ [Hsym _]]. destruct a, b; simpl; try reflexivity.
  - apply Z.eqb_sym.
  - apply Hsym.
Qed.

Lemma value_eqb_under_trans (co : collation) (a b c : value) :
  equivalence co ->
  value_eqb_under co a b = true -> value_eqb_under co b c = true ->
  value_eqb_under co a c = true.
Proof.
  intros [_ [_ Htrans]]. destruct a, b, c; simpl; try discriminate; try reflexivity.
  - intros H1 H2. apply Z.eqb_eq in H1. apply Z.eqb_eq in H2. apply Z.eqb_eq. congruence.
  - apply Htrans.
Qed.



Lemma ascii_ci_equivalence : equivalence ascii_ci.
Proof.
  unfold ascii_ci. split; [|split].
  - intro a. apply String.eqb_refl.
  - intros a b. apply String.eqb_sym.
  - intros a b c Hab Hbc. apply String.eqb_eq in Hab. apply String.eqb_eq in Hbc.
    apply String.eqb_eq. congruence.
Qed.



(** X6. The promotion of user 2, whatever the collation under which the
    names of the levels are compared: rejected, it leaves the database as
    it was; and where a user has the id 2: with two levels named Admin
    (nothing makes [level_name] unique) it ends with the error of a
    sub-query with several rows; accepted, it has set the [user_level_id]
    of the rows with [user_id] 2, and nothing else, to the [level_id] of
    the level named Admin, or to NULL when no level has that name. *)
Theorem make_admin_effect :
  forall co now db,
    (snd (make_admin co now db) <> None -> fst (make_admin co now db) = db)
    /\ ((exists u, In u (rows (db "Users")) /\ get u "user_id" = VInt 2) ->
        ((2 <= List.length (Admin_levels co db))%nat ->
         make_admin co now db = (db, Some SubqueryReturnsMoreThanOneRow))
        /\ (snd (make_admin co now db) = None ->
            exists level,
              ((Admin_levels co db = [] /\ level = VNull)
               \/ exists l, Admin_levels co db = [l] /\ level = get l "level_id")
              /\ rows (fst (make_admin co now db) "Users")
                 = map (fun u => if sql_true (sql_eq (get u "user_id") (VInt 2))
                                 then set_cell u "user_level_id" level else u)
                       (rows (db "Users"))
              /\ forall t, t <> "Users" -> fst (make_admin co now db) t = db t)).
Proof.
  intros co now db.
  cut ((snd (make_admin co now db) <> None -> fst (make_admin co now db) = db)
       /\ ((2 <= List.length (Admin_levels co db))%nat ->
           make_admin co now db = (db, Some SubqueryReturnsMoreThanOneRow))
       /\ (snd (make_admin co now db) = None ->
           exists level,
             ((Admin_levels co db = [] /\ level = VNull)
              \/ exists l, Admin_levels co db = [l] /\ level = get l "level_id")
             /\ rows (fst (make_admin co now db) "Users")
                = map (fun u => if sql_true (sql_eq (get u "user_id") (VInt 2))
                                then set_cell u "user_level_id" level else u)
                      (rows (db "Users"))
             /\ forall t, t <> "Users" -> fst (make_admin co now db) t = db t)).
  { intros [H1 [H2 H3]]. split; [exact H1|]. intros _. now split. }
  unfold make_admin. rewrite WHERE_named. fold (Admin_levels co db).
  assert (Hupd : forall level,
             snd (exec MediaSharingApp now db
                       (UPDATE "Users" "user_level_id" level
                               (fun u => sql_true (sql_eq (get u "user_id") (VInt 2)))))
             = None ->
             rows (fst (exec MediaSharingApp now db
                             (UPDATE "Users" "user_level_id" level
                                     (fun u => sql_true (sql_eq (get u "user_id") (VInt 2)))))
                       "Users")
             = map (fun u => if sql_true (sql_eq (get u "user_id") (VInt 2))
                             then set_cell u "user_level_id" level else u)
                   (rows (db "Users"))
             /\ forall t, t <> "Users" ->
                          fst (exec MediaSharingApp now db
                                    (UPDATE "Users" "user_level_id" level
                                            (fun u => sql_true (sql_eq (get u "user_id")
                                                                       (VInt 2))))) t
                          = db t).
  { intros level. simpl.
    destruct (update_rows MediaSharingApp db "Users" "user_level_id" level _)
      as [db'|e] eqn:E; simpl; [|discriminate].
    intros _. apply update_rows_inv in E. destruct E as [tbl [_ [_ [_ [_ ->]]]]].
    split; [now rewrite set_table_same|].
    intros t Ht. now apply set_table_other. }
  assert (Hatomic : forall st,
             snd (exec MediaSharingApp now db st) <> None ->
             fst (exec MediaSharingApp now db st) = db).
  { intros st. destruct st as [t cols tuples | t c v cond | t cond]; simpl.
    - destruct (insert_rows _ _ _ _ _ _) as [[db' id]|e]; simpl; congruence.
    - destruct (update_rows _ _ _ _ _ _) as [db'|e]; simpl; congruence.
    - destruct (delete_rows _ _ _ _) as [db'|e]; simpl; congruence. }
  destruct (Admin_levels co db) as [|l [|l' rest]] eqn:El; simpl scalar; cbv iota.
  - split; [apply Hatomic|]. split; [simpl; lia|].
    intro Hacc. exists VNull. split; [left; now split|]. now apply Hupd.
  - split; [apply Hatomic|]. split; [simpl; lia|].
    intro Hacc. exists (get l "level_id"). split; [right; now exists l|]. now apply Hupd.
  - simpl. split; [reflexivity|]. split; [reflexivity|discriminate].
Qed.

(** Names compared without regard to case.  On the sample data, where one
    level is named Admin; and after a level named ADMIN has been added. *)
Lemma make_admin_effect_witness :
  make_admin ascii_ci 0 (fst (exec MediaSharingApp 0 (seed_db 0)
                                   (INSERT_INTO "UserLevels" ["level_name"]
                                                [[VStr "ADMIN"]])))
  = (fst (exec MediaSharingApp 0 (seed_db 0)
               (INSERT_INTO "UserLevels" ["level_name"] [[VStr "ADMIN"]])),
     Some SubqueryReturnsMoreThanOneRow)
  /\ exists level,
      ((Admin_levels ascii_ci (seed_db 0) = [] /\ level = VNull)
       \/ exists l, Admin_levels ascii_ci (seed_db 0) = [l] /\ level = get l "level_id")
      /\ rows (fst (make_admin ascii_ci 0 (seed_db 0)) "Users")
         = map (fun u => if sql_true (sql_eq (get u "user_id") (VInt 2))
                         then set_cell u "user_level_id" level else u)
               (rows (seed_db 0 "Users"))
      /\ forall t, t <> "Users" -> fst (make_admin ascii_ci 0 (seed_db 0)) t = seed_db 0 t.
Proof.
  split.
  - refine (proj1 (proj2 (make_admin_effect ascii_ci 0 _) _) _).
    + exists (nth 1 (rows (seed_db 0 "Users")) []). split; [listed | reflexivity].
    + vm_compute. lia.
  - refine (proj2 (proj2 (make_admin_effect ascii_ci 0 (seed_db 0)) _) _).
    + exists (nth 1 (rows (seed_db 0 "Users")) []). split; [listed | reflexivity].
    + vm_compute. reflexivity.
Defined.

(** * GROUP BY *)

Section Grouping.

Variable by_cols : list string.

Lemma same_group_refl (r : row) : same_group by_cols r r = true.
Proof. unfold same_group. apply forallb_forall. intros c _. apply value_eqb_refl. Qed.

Lemma same_group_sym (r r' : row) : same_group by_cols r r' = same_group by_cols r' r.
Proof. unfold same_group. apply forallb_same. intros c _. apply value_eqb_sym. Qed.

Lemma same_group_agree (r r' : row) :
  same_group by_cols r r' = true <-> forall c, In c by_cols -> get r c = get r' c.
Proof.
  unfold same_group. rewrite forallb_forall.
  split; intros H c Hc; apply value_eqb_eq; now apply H.
Qed.

Lemma same_group_trans (r1 r2 r3 : row) :
  same_group by_cols r1 r2 = true -> same_group by_cols r2 r3 = true ->
  same_group by_cols r1 r3 = true.
Proof.
  rewrite !same_group_agree. intros H1 H2 c Hc. now rewrite H1, H2.
Qed.

(** Rows of one group are in the same groups. *)
Lemma same_group_subst (r1 r2 x : row) :
  same_group by_cols r1 r2 = true ->
  same_group by_cols x r1 = same_group by_cols x r2.
Proof.
  intro H. destruct (same_group by_cols x r2) eqn:E.
  - apply (same_group_trans x r2 r1); [assumption|]. now rewrite same_group_sym.
  - destruct (same_group by_cols x r1) eqn:E1; [|reflexivity].
    rewrite (same_group_trans x r1 r2 E1 H) in E. discriminate.
Qed.

Lemma GROUP_BY_snoc (rs : list row) (r : row) :
  GROUP_BY by_cols (rs ++ [r]) = add_to_groups by_cols r (GROUP_BY by_cols rs).
Proof. unfold GROUP_BY. now rewrite fold_left_app. Qed.

Lemma first_rows_snoc (rs : list row) (r : row) :
  first_rows by_cols (rs ++ [r])
  = if existsb (same_group by_cols r) (first_rows by_cols rs)
    then first_rows by_cols rs
    else first_rows by_cols rs ++ [r].
Proof. unfold first_rows. now rewrite fold_left_app. Qed.

Lemma first_rows_In (rs : list row) (h : row) :
  In h (first_rows by_cols rs) -> In h rs.
Proof.
  induction rs as [|r rs IH] using rev_ind; [intros []|].
  rewrite first_rows_snoc.
  destruct (existsb (same_group by_cols r) (first_rows by_cols rs)).
  - intro H. apply in_or_app. left. now apply IH.
  - intro H. apply in_or_app. apply in_app_or in H. destruct H as [H|H]; [left|right].
    + now apply IH.
    + assumption.
Qed.

(** Every row is in the group of one of the first rows. *)
Lemma first_rows_cover (rs : list row) (x : row) :
  In x rs -> existsb (same_group by_cols x) (first_rows by_cols rs) = true.
Proof.
  induction rs as [|r rs IH] using rev_ind; [intros []|].
  intro H. rewrite first_rows_snoc. apply in_app_or in H.
  destruct (existsb (same_group by_cols r) (first_rows by_cols rs)) eqn:E.
  - destruct H as [H|[<-|[]]]; [now apply IH | assumption].
  - rewrite existsb_app. destruct H as [H|[<-|[]]].
    + now rewrite IH.
    + simpl. now rewrite same_group_refl, orb_true_r.
Qed.

Lemma apart_snoc (hs : list row) (r : row) :
  apart by_cols hs -> existsb (same_group by_cols r) hs = false ->
  apart by_cols (hs ++ [r]).
Proof.
  induction hs as [|h hs IH]; simpl; [intros _ _; split; [intros h' []|exact I]|].
  intros [H1 H2] E. apply orb_false_elim in E. destruct E as [E1 E2]. split.
  - intros h' Hin. apply in_app_or in Hin. destruct Hin as [Hin|[<-|[]]].
    + now apply H1.
    + assumption.
  - now apply IH.
Qed.

Lemma first_rows_apart (rs : list row) : apart by_cols (first_rows by_cols rs).
Proof.
  induction rs as [|r rs IH] using rev_ind; [exact I|].
  rewrite first_rows_snoc.
  destruct (existsb (same_group by_cols r) (first_rows by_cols rs)) eqn:E;
    [assumption | now apply apart_snoc].
Qed.

Lemma group_of_snoc_in (rs : list row) (r h : row) :
  same_group by_cols r h = true -> group_of by_cols (rs ++ [r]) h = group_of by_cols rs h ++ [r].
Proof. intro H. unfold group_of. rewrite filter_app. simpl. now rewrite H. Qed.

Lemma group_of_snoc_out (rs : list row) (r h : row) :
  same_group by_cols r h = false -> group_of by_cols (rs ++ [r]) h = group_of by_cols rs h.
Proof.
  intro H. unfold group_of. rewrite filter_app. simpl. rewrite H. apply app_nil_r.
Qed.

Lemma add_to_groups_spec (rs : list row) (r : row) (hs : list row) :
  (forall h, In h hs -> In h rs) -> apart by_cols hs ->
  add_to_groups by_cols r (map (group_of by_cols rs) hs)
  = if existsb (same_group by_cols r) hs
    then map (group_of by_cols (rs ++ [r])) hs
    else map (group_of by_cols rs) hs ++ [[r]].
Proof.
  induction hs as [|h hs IH]; simpl; [reflexivity|].
  intros Hin [Hap1 Hap2].
  assert (Hh : In h (group_of by_cols rs h)).
  { apply filter_In. split; [apply Hin; now left | apply same_group_refl]. }
  destruct (group_of by_cols rs h) as [|h0 g] eqn:Eg; [destruct Hh|].
  assert (Hh0 : same_group by_cols h0 h = true).
  { assert (H0 : In h0 (group_of by_cols rs h)) by (rewrite Eg; now left).
    apply filter_In in H0. tauto. }
  rewrite (same_group_subst h0 h r Hh0).
  destruct (same_group by_cols r h) eqn:Er; simpl.
  - rewrite (group_of_snoc_in rs r h Er), Eg. f_equal.
    apply map_ext_in. intros h' Hh'. symmetry. apply group_of_snoc_out.
    destruct (same_group by_cols r h') eqn:E; [|reflexivity]. exfalso.
    assert (H : same_group by_cols h' h = true)
      by (apply (same_group_trans h' r h); [now rewrite same_group_sym | assumption]).
    rewrite (Hap1 h' Hh') in H. discriminate.
  - rewrite (IH (fun h' Hh' => Hin h' (or_intror Hh')) Hap2).
    destruct (existsb (same_group by_cols r) hs).
    + now rewrite (group_of_snoc_out rs r h Er), Eg.
    + reflexivity.
Qed.

(** GROUP BY makes one group for each first row, in their order, and the
    group holds the rows of the table that agree with it on the grouping
    columns, in their order. *)
Lemma GROUP_BY_spec (rs : list row) :
  GROUP_BY by_cols rs = map (group_of by_cols rs) (first_rows by_cols rs).
Proof.
  induction rs as [|r rs IH] using rev_ind; [reflexivity|].
  rewrite GROUP_BY_snoc, IH, first_rows_snoc.
  rewrite (add_to_groups_spec rs r (first_rows by_cols rs)
             (first_rows_In rs) (first_rows_apart rs)).
  destruct (existsb (same_group by_cols r) (first_rows by_cols rs)) eqn:E;
    [reflexivity|].
  rewrite map_app. simpl. f_equal.
  - apply map_ext_in. intros h Hh. symmetry. apply group_of_snoc_out.
    destruct (same_group by_cols r h) eqn:Er; [|reflexivity].
    assert (existsb (same_group by_cols r) (first_rows by_cols rs) = true)
      by (apply existsb_exists; now exists h).
    congruence.
  - rewrite (group_of_snoc_in rs r r (same_group_refl r)).
    assert (Hnone : group_of by_cols rs r = []).
    { destruct (group_of by_cols rs r) as [|x g] eqn:Eg; [reflexivity|].
      assert (Hx : In x (group_of by_cols rs r)) by (rewrite Eg; now left).
      apply filter_In in Hx. destruct Hx as [Hx Hs].
      pose proof (first_rows_cover rs x Hx) as Hc.
      apply existsb_exists in Hc. destruct Hc as [h [Hh Hxh]].
      assert (existsb (same_group by_cols r) (first_rows by_cols rs) = true).
      { apply existsb_exists. exists h. split; [assumption|].
        apply (same_group_trans r x h); [now rewrite same_group_sym | assumption]. }
      congruence. }
    now rewrite Hnone.
Qed.

End Grouping.

(** * Groups and their first rows *)

Lemma group_of_first (by_cols : list string) (rs : list row) (h : row) :
  In h rs ->
  exists h0 g, group_of by_cols rs h = h0 :: g /\ same_group by_cols h0 h = true.
Proof.
  intro Hin.
  assert (Hh : In h (group_of by_cols rs h))
    by (apply filter_In; split; [assumption | apply same_group_refl]).
  destruct (group_of by_cols rs h) as [|h0 g] eqn:Eg; [destruct Hh|].
  exists h0, g. split; [reflexivity|].
  assert (H0 : In h0 (group_of by_cols rs h)) by (rewrite Eg; now left).
  apply filter_In in H0. tauto.
Qed.

Lemma filter_map_swap {A B : Type} (p : B -> bool) (f : A -> B) (l : list A) :
  filter p (map f l) = map f (filter (fun x => p (f x)) l).
Proof.
  induction l as [|x l IH]; simpl; [reflexivity|].
  destruct (p (f x)); simpl; now rewrite IH.
Qed.

(** Grouping by one column: the group of a row is the rows with its value. *)
Lemma group_of_one_column (c : string) (rs : list row) (h : row) :
  group_of [c] rs h = filter (fun x => value_eqb (get x c) (get h c)) rs.
Proof.
  unfold group_of, same_group. apply filter_ext. intro x. simpl. apply andb_true_r.
Qed.

(** COUNT(c) over a group of GROUP BY c: its size, or 0 for the group of the
    rows where [c] is NULL. *)
Lemma count_of_group (c : string) (rs : list row) (h : row) :
  eval_aggregate COUNT c (group_of [c] rs h)
  = VInt (if is_null (get h c) then 0 else Z.of_nat (List.length (group_of [c] rs h))).
Proof.
  simpl. f_equal.
  assert (Hg : forall x, In x (group_of [c] rs h) -> get x c = get h c).
  { intros x Hx. rewrite group_of_one_column in Hx. apply filter_In in Hx.
    now apply value_eqb_eq. }
  destruct (is_null (get h c)) eqn:En.
  - rewrite filter_none; [reflexivity|]. intros x Hx. now rewrite (Hg x Hx), En.
  - rewrite filter_all; [reflexivity|]. intros x Hx. now rewrite (Hg x Hx), En.
Qed.

Lemma first_rows_NoDup (c : string) (rs : list row) :
  NoDup (map (fun h => get h c) (first_rows [c] rs)).
Proof.
  induction rs as [|r rs IH] using rev_ind; [constructor|].
  rewrite first_rows_snoc.
  destruct (existsb (same_group [c] r) (first_rows [c] rs)) eqn:E; [assumption|].
  rewrite map_app. apply NoDup_app; repeat split.
  - assumption.
  - constructor; [intros [] | constructor].
  - intros v Hv [<-|[]]. apply in_map_iff in Hv. destruct Hv as [h [Eh Hh]].
    assert (H : existsb (same_group [c] r) (first_rows [c] rs) = true).
    { apply existsb_exists. exists h. split; [assumption|].
      unfold same_group. simpl. rewrite andb_true_r. apply value_eqb_eq. now symmetry. }
    congruence.
Qed.

Lemma is_null_false (v : value) : is_null v = false <-> v <> VNull.
Proof. destruct v; simpl; split; congruence. Qed.

(** * ORDER BY ... DESC LIMIT 1 *)

(** The first row under ORDER BY c DESC is a row of the table with the
    greatest [c], when [c] holds numbers. *)
Lemma ORDER_BY_DESC_first (c : string) (rs : list row) :
  (forall r, In r rs -> exists z, get r c = VInt z) ->
  match ORDER_BY_DESC c rs with
  | [] => rs = []
  | x :: _ => In x rs /\ forall y, In y rs -> value_leb (get y c) (get x c) = true
  end.
Proof.
  induction rs as [|a rs IH]; intro Hint; [reflexivity|].
  assert (IH' := IH (fun r Hr => Hint r (or_intror Hr))). clear IH.
  change (ORDER_BY_DESC c (a :: rs)) with (insert_desc c a (ORDER_BY_DESC c rs)).
  destruct (Hint a (or_introl eq_refl)) as [za Ea].
  destruct (ORDER_BY_DESC c rs) as [|x l].
  - subst rs. simpl. split; [now left|]. intros y [<-|[]]. rewrite Ea. apply Z.leb_refl.
  - destruct IH' as [Hx Hmax].
    destruct (Hint x (or_intror Hx)) as [zx Ex].
    simpl. rewrite Ex, Ea. simpl.
    destruct (Z.leb_spec zx za) as [Hle|Hlt].
    + split; [now left|]. intros y [<-|Hy].
      * rewrite Ea. apply Z.leb_refl.
      * specialize (Hmax y Hy). destruct (Hint y (or_intror Hy)) as [zy Ey].
        rewrite Ey, Ex in Hmax. rewrite Ey, Ea. simpl in *.
        apply Z.leb_le. apply Z.leb_le in Hmax. lia.
    + split; [now right|]. intros y [<-|Hy].
      * rewrite Ea, Ex. simpl. apply Z.leb_le. lia.
      * now apply Hmax.
Qed.

Lemma like_has_media_id (db : database) (l : row) :
  reachable MediaSharingApp db -> In l (rows (db "Likes")) ->
  exists m, get l "media_id" = VInt m.
Proof.
  intros Hr Hl.
  destruct (int_stored Likes l (col "media_id" INT [NOT_NULL])) as [m [Hm _]];
    try reflexivity.
  - apply (reachable_rows_valid _ _ Hr "Likes" Likes l); [reflexivity|assumption|].
    declared.
  - now exists m.
Qed.

(** X9. The most-liked query in general: in every reachable state the
    grouped likes list each liked media item once, in the order of its first
    like, with the number of its Likes rows; the query with ORDER BY likes
    DESC LIMIT 1 returns no row when there are no likes, and otherwise one
    row, of a liked media item that no media item exceeds in likes. *)
Theorem most_likes_is_maximal (db : database) :
  reachable MediaSharingApp db ->
  let likes := rows (db "Likes") in
  let likes_of m :=
      Z.of_nat (List.length (filter (fun l => value_eqb (get l "media_id") (VInt m)) likes)) in
  let counted m := [("media_id", VInt m); ("likes", VInt (likes_of m))] in
  exists liked : list Z,
    like_counts db = Ok (map counted liked)
    /\ NoDup liked
    /\ (forall m, In m liked <-> exists l, In l likes /\ get l "media_id" = VInt m)
    /\ match liked with
       | [] => most_likes db = Ok []
       | _ :: _ => exists top, In top liked
                               /\ most_likes db = Ok [counted top]
                               /\ forall m, likes_of m <= likes_of top
       end.
Proof.
  intros Hr likes likes_of counted.
  set (heads := first_rows ["media_id"] likes).
  assert (Hhead : forall h, In h heads -> get h "media_id" = VInt (number (get h "media_id"))).
  { intros h Hh. apply first_rows_In in Hh.
    destruct (like_has_media_id db h Hr Hh) as [m ->]. reflexivity. }
  set (liked := map (fun h => number (get h "media_id")) heads).
  assert (Hcounts : like_counts db = Ok (map counted liked)).
  { unfold like_counts, SELECT_GROUP_BY.
    change (find (ambiguous_item ["media_id"])
                 [Column "media_id"; Aggregate COUNT "media_id" "likes"])
      with (@None select_item).
    rewrite GROUP_BY_spec. fold likes. fold heads. f_equal. unfold liked.
    rewrite !map_map. apply map_ext_in. intros h Hh.
    destruct (group_of_first ["media_id"] likes h (first_rows_In _ _ _ Hh))
      as [h0 [g [Eg Hs]]].
    pose proof (proj1 (same_group_agree ["media_id"] h0 h) Hs "media_id"
                      (or_introl eq_refl)) as E0.
    change (map (eval_item (group_of ["media_id"] likes h))
                [Column "media_id"; Aggregate COUNT "media_id" "likes"])
      with [eval_item (group_of ["media_id"] likes h) (Column "media_id");
            ("likes", eval_aggregate COUNT "media_id" (group_of ["media_id"] likes h))].
    pose proof (Hhead h Hh) as Em. set (m := number (get h "media_id")) in *.
    rewrite count_of_group, Em. simpl is_null. cbv iota.
    replace (Z.of_nat (List.length (group_of ["media_id"] likes h))) with (likes_of m)
      by (unfold likes_of; now rewrite group_of_one_column, Em).
    rewrite Eg. simpl. now rewrite E0, Em. }
  assert (Hin : forall m, In m liked <-> exists l, In l likes /\ get l "media_id" = VInt m).
  { intro m. unfold liked. rewrite in_map_iff. split.
    - intros [h [<- Hh]]. exists h. split; [now apply first_rows_In in Hh | now apply Hhead].
    - intros [l [Hl El]].
      pose proof (first_rows_cover ["media_id"] likes l Hl) as Hcov.
      apply existsb_exists in Hcov. destruct Hcov as [h [Hh Hs]].
      exists h. split; [|assumption].
      rewrite <- (proj1 (same_group_agree ["media_id"] l h) Hs "media_id"
                        (or_introl eq_refl)).
      now rewrite El. }
  exists liked. split; [assumption|]. split; [|split; [assumption|]].
  - apply (NoDup_map_inv VInt). unfold liked. rewrite map_map.
    rewrite (map_ext_in _ (fun h => get h "media_id")).
    + apply first_rows_NoDup.
    + intros h Hh. symmetry. now apply Hhead.
  - change (most_likes db)
      with (match like_counts db with
            | Err e => Err e
            | Ok t => Ok (LIMIT 1 (ORDER_BY_DESC "likes" t))
            end).
    rewrite Hcounts.
    destruct liked as [|m0 rest] eqn:El; [reflexivity|]. rewrite <- El in *.
    pose proof (ORDER_BY_DESC_first "likes" (map counted liked)) as Hfirst.
    destruct (ORDER_BY_DESC "likes" (map counted liked)) as [|x l].
    + rewrite El in Hfirst. discriminate Hfirst.
      intros r Hrow. apply in_map_iff in Hrow. destruct Hrow as [m [<- _]].
      now exists (likes_of m).
    + destruct Hfirst as [Hx Hmax].
      { intros r Hrow. apply in_map_iff in Hrow. destruct Hrow as [m [<- _]].
        now exists (likes_of m). }
      apply in_map_iff in Hx. destruct Hx as [top [<- Htop]].
      exists top. split; [assumption|]. split; [reflexivity|].
      intro m. unfold likes_of at 1.
      destruct (filter (fun l => value_eqb (get l "media_id") (VInt m)) likes)
        as [|l0 ls] eqn:Ef.
      * unfold likes_of. simpl. lia.
      * rewrite <- Ef. fold (likes_of m).
        assert (Hl0 : In l0 (filter (fun l => value_eqb (get l "media_id") (VInt m)) likes))
          by (rewrite Ef; now left).
        apply filter_In in Hl0. destruct Hl0 as [Hl0 E0]. apply value_eqb_eq in E0.
        assert (Hm : In m liked) by (apply Hin; now exists l0).
        specialize (Hmax (counted m) (in_map counted liked m Hm)).
        change (get (counted m) "likes") with (VInt (likes_of m)) in Hmax.
        change (get (counted top) "likes") with (VInt (likes_of top)) in Hmax.
        now apply Z.leb_le in Hmax.
Qed.

Lemma most_likes_is_maximal_witness :
  exists liked : list Z,
    like_counts (seed_db 0)
    = Ok (map (fun m =>
                 [("media_id", VInt m);
                  ("likes", VInt (Z.of_nat (List.length
                     (filter (fun l => value_eqb (get l "media_id") (VInt m))
                             (rows (seed_db 0 "Likes"))))))])
              liked)
    /\ NoDup liked
    /\ (forall m, In m liked
                  <-> exists l, In l (rows (seed_db 0 "Likes")) /\ get l "media_id" = VInt m)
    /\ match liked with
       | [] => most_likes (seed_db 0) = Ok []
       | _ :: _ =>
         exists top,
           In top liked
           /\ most_likes (seed_db 0)
              = Ok [[("media_id", VInt top);
                     ("likes", VInt (Z.of_nat (List.length
                        (filter (fun l => value_eqb (get l "media_id") (VInt top))
                                (rows (seed_db 0 "Likes"))))))]]
           /\ forall m,
               Z.of_nat (List.length
                  (filter (fun l => value_eqb (get l "media_id") (VInt m))
                          (rows (seed_db 0 "Likes"))))
               <= Z.of_nat (List.length
                     (filter (fun l => value_eqb (get l "media_id") (VInt top))
                             (rows (seed_db 0 "Likes"))))
       end.
Proof. exact (most_likes_is_maximal (seed_db 0) (seed_reachable 0)). Defined.

(** * Aggregates over a whole table *)

Lemma ints_of_all (c : string) (rs : list row) :
  (forall r, In r rs -> exists z, get r c = VInt z) ->
  map VInt (ints_of c rs) = map (fun r => get r c) rs.
Proof.
  induction rs as [|r rs IH]; intro H; [reflexivity|].
  destruct (H r (or_introl eq_refl)) as [z Ez].
  unfold ints_of. simpl. rewrite Ez. simpl. f_equal.
  apply IH. intros r' Hr'. apply H. now right.
Qed.

Lemma fold_min_spec (z : Z) (zs : list Z) :
  In (fold_right Z.min z zs) (z :: zs)
  /\ forall x, In x (z :: zs) -> fold_right Z.min z zs <= x.
Proof.
  induction zs as [|y zs [IHin IHle]]; simpl.
  - split; [now left|]. intros x [<-|[]]. lia.
  - split.
    + destruct (Z.min_spec y (fold_right Z.min z zs)) as [[_ ->]|[_ ->]].
      * right. now left.
      * simpl in IHin. destruct IHin as [E|Hin]; [now left | right; now right].
    + intros x [<-|[<-|Hx]].
      * specialize (IHle z (or_introl eq_refl)). lia.
      * lia.
      * specialize (IHle x (or_intror Hx)). lia.
Qed.

Lemma fold_max_spec (z : Z) (zs : list Z) :
  In (fold_right Z.max z zs) (z :: zs)
  /\ forall x, In x (z :: zs) -> x <= fold_right Z.max z zs.
Proof.
  induction zs as [|y zs [IHin IHle]]; simpl.
  - split; [now left|]. intros x [<-|[]]. lia.
  - split.
    + destruct (Z.max_spec y (fold_right Z.max z zs)) as [[_ ->]|[_ ->]].
      * simpl in IHin. destruct IHin as [E|Hin]; [now left | right; now right].
      * right. now left.
    + intros x [<-|[<-|Hx]].
      * specialize (IHle z (or_introl eq_refl)). lia.
      * lia.
      * specialize (IHle x (or_intror Hx)). lia.
Qed.

Lemma fold_sum_bounds (lo hi : Z) (zs : list Z) :
  (forall x, In x zs -> lo <= x <= hi) ->
  Z.of_nat (List.length zs) * lo <= fold_right Z.add 0 zs
                                 <= Z.of_nat (List.length zs) * hi.
Proof.
  induction zs as [|y zs IH]; intro H; [simpl; lia|].
  specialize (IH (fun x Hx => H x (or_intror Hx))).
  specialize (H y (or_introl eq_refl)).
  change (fold_right Z.add 0 (y :: zs)) with (y + fold_right Z.add 0 zs).
  change (List.length (y :: zs)) with (S (List.length zs)). lia.
Qed.

(** X10. The aggregates without GROUP BY: over an empty MediaItems table
    the two queries return one row of NULLs; otherwise, in a reachable
    state, MIN(filesize) and MAX(filesize) are file sizes of stored media
    items that bound the file size of every media item, and SUM(filesize)
    is a number between the item count times the minimum and the item
    count times the maximum. *)
Theorem filesize_aggregates (db : database) :
  reachable MediaSharingApp db ->
  let items := rows (db "MediaItems") in
  (items = [] -> filesize_range db = [[VNull; VNull]] /\ total_filesize db = [[VNull]])
  /\ (items <> [] ->
      exists lo hi total,
        filesize_range db = [[VInt lo; VInt hi]]
        /\ total_filesize db = [[VInt total]]
        /\ (exists m, In m items /\ get m "filesize" = VInt lo)
        /\ (exists m, In m items /\ get m "filesize" = VInt hi)
        /\ (forall m, In m items -> exists z, get m "filesize" = VInt z /\ lo <= z <= hi)
        /\ Z.of_nat (List.length items) * lo <= total <= Z.of_nat (List.length items) * hi).
Proof.
  intros Hr items. split.
  - intro E. unfold filesize_range, total_filesize. fold items. now rewrite E.
  - intro Hne.
    assert (Hint : forall m, In m items -> exists z, get m "filesize" = VInt z).
    { intros m Hm.
      destruct (int_stored MediaItems m (col "filesize" INT [NOT_NULL])) as [z [Hz _]];
        try reflexivity; [|now exists z].
      apply (reachable_rows_valid _ _ Hr "MediaItems" MediaItems m);
        [reflexivity | assumption | declared]. }
    pose proof (ints_of_all "filesize" items Hint) as Hzs.
    assert (Hmem : forall x, In x (ints_of "filesize" items)
                             <-> exists m, In m items /\ get m "filesize" = VInt x).
    { intro x. split.
      - intro Hx. apply (in_map VInt) in Hx. rewrite Hzs in Hx.
        apply in_map_iff in Hx. destruct Hx as [m [E Hm]]. now exists m.
      - intros [m [Hm E]].
        assert (Hx : In (VInt x) (map VInt (ints_of "filesize" items)))
          by (rewrite Hzs, <- E; now apply (in_map (fun r => get r "filesize"))).
        apply in_map_iff in Hx. destruct Hx as [x' [E' Hx']]. congruence. }
    assert (Hlen : List.length (ints_of "filesize" items) = List.length items)
      by (rewrite <- (length_map VInt), Hzs; apply length_map).
    unfold filesize_range, total_filesize, SELECT_aggregates. fold items. simpl map.
    unfold eval_aggregate. rewrite <- Hlen.
    destruct (ints_of "filesize" items) as [|z zs] eqn:Ez.
    { destruct items; [now elim Hne | discriminate Hlen]. }
    destruct (fold_min_spec z zs) as [Hmin_in Hmin].
    destruct (fold_max_spec z zs) as [Hmax_in Hmax].
    exists (fold_right Z.min z zs), (fold_right Z.max z zs), (fold_right Z.add 0 (z :: zs)).
    split; [reflexivity|]. split; [reflexivity|].
    split; [now apply Hmem|]. split; [now apply Hmem|]. split.
    + intros m Hm. destruct (Hint m Hm) as [x Ex]. exists x. split; [assumption|].
      assert (Hx : In x (z :: zs)) by (apply Hmem; now exists m).
      split; [now apply Hmin | now apply Hmax].
    + apply fold_sum_bounds. intros x Hx. split; [now apply Hmin | now apply Hmax].
Qed.

Lemma filesize_aggregates_witness :
  (rows (seed_db 0 "MediaItems") <> [] ->
   exists lo hi total,
     filesize_range (seed_db 0) = [[VInt lo; VInt hi]]
     /\ total_filesize (seed_db 0) = [[VInt total]]
     /\ (exists m, In m (rows (seed_db 0 "MediaItems")) /\ get m "filesize" = VInt lo)
     /\ (exists m, In m (rows (seed_db 0 "MediaItems")) /\ get m "filesize" = VInt hi)
     /\ (forall m, In m (rows (seed_db 0 "MediaItems")) ->
                   exists z, get m "filesize" = VInt z /\ lo <= z <= hi)
     /\ Z.of_nat (List.length (rows (seed_db 0 "MediaItems"))) * lo <= total
        <= Z.of_nat (List.length (rows (seed_db 0 "MediaItems"))) * hi)
  /\ rows (seed_db 0 "MediaItems") <> []
  /\ filesize_range (seed_db 0) = [[VInt 1024; VInt 20480]]
  /\ total_filesize (seed_db 0) = [[VInt 24576]].
Proof.
  split; [exact (proj2 (filesize_aggregates (seed_db 0) (seed_reachable 0)))|].
  split; [vm_compute; discriminate|]. split; reflexivity.
Defined.

(** * The error handler *)

(** The response to an error handed to [next] by a handler that returns
    then, by the status the error handler sets. *)
Lemma response_next (err : Error.t) :
  response [next err]
  = if valid_status (or_500 (Error.status err))
    then sent (or_500 (Error.status err))
              (Some (JObject [("error",
                               JObject [("message", JStr (Error.message err));
                                        ("status", JNum (or_500 (Error.status err)))])]))
    else Some (500, None).
Proof. reflexivity. Qed.

Lemma error_status (n : Z) : 400 <= n <= 599 -> or_500 (Some n) = n.
Proof.
  intro H. simpl. destruct (Z.eqb_spec n 0); [lia | reflexivity].
Qed.

Lemma error_status_sent (n : Z) (body : option js) :
  400 <= n <= 599 -> valid_status n = true /\ sent n body = Some (n, body).
Proof.
  intro H. unfold valid_status, sent, without_body.
  destruct (Z.leb_spec 100 n); [|lia]. destruct (Z.leb_spec n 999); [|lia].
  destruct (Z.leb_spec n 199); [lia|].
  destruct (Z.eqb_spec n 204); [lia|]. destruct (Z.eqb_spec n 205); [lia|].
  destruct (Z.eqb_spec n 304); [lia|]. split; reflexivity.
Qed.

(** X11. An error handed to [next] by a handler that returns then is
    answered by the error handler.  When the status set on the error is an
    error status, 400 to 599, the response has that status and a JSON body
    that carries the message and the status; when none or 0 was set, the
    same with the status 500.  The body is not sent under the status 204,
    and a status that is no status code (below 100 and not 0, or above 999)
    ends in a 500 without the JSON body.  A request that no router handles
    is answered 404 with the URL in the message. *)
Theorem errors_are_answered :
  (forall err,
     let answer code :=
         Some (code, Some (JObject [("error", JObject [("message", JStr (Error.message err));
                                                       ("status", JNum code)])])) in
     (forall n, Error.status err = Some n -> 400 <= n <= 599 ->
                response [next err] = answer n)
     /\ (Error.status err = None \/ Error.status err = Some 0 ->
         response [next err] = answer 500)
     /\ (Error.status err = Some 204 -> response [next err] = Some (204, None))
     /\ (forall n, Error.status err = Some n -> n <> 0 -> n < 100 \/ 999 < n ->
                   response [next err] = Some (500, None)))
  /\ (forall originalUrl,
        response (notFoundHandler originalUrl)
        = Some (404, Some (JObject [("error",
                                     JObject [("message",
                                               JStr (String.append "Not Found - " originalUrl));
                                              ("status", JNum 404)])]))).
Proof.
  split.
  - intros err answer. subst answer. cbv beta. rewrite response_next.
    split; [|split; [|split]].
    + intros n -> Hn. rewrite (error_status n Hn).
      destruct (error_status_sent n (Some (JObject [("error",
                                                     JObject [("message",
                                                               JStr (Error.message err));
                                                              ("status", JNum n)])])) Hn)
        as [-> ->]. reflexivity.
    + intros [->| ->]; reflexivity.
    + intros ->. reflexivity.
    + intros n -> Hn0 Hn.
      assert (E : or_500 (Some n) = n).
      { simpl. destruct (Z.eqb_spec n 0); [contradiction | reflexivity]. }
      rewrite E. unfold valid_status.
      destruct (Z.leb_spec 100 n); [|reflexivity].
      destruct (Z.leb_spec n 999); [lia | reflexivity].
  - intro originalUrl. reflexivity.
Qed.

(** Errors with the statuses 403, 204 and 1000, and one without a status. *)
Lemma errors_are_answered_witness :
  response [next (Error.new "Not allowed" (Some 403))]
  = Some (403, Some (JObject [("error", JObject [("message", JStr "Not allowed");
                                                 ("status", JNum 403)])]))
  /\ response [next (Error.new "Table is missing" None)]
     = Some (500, Some (JObject [("error", JObject [("message", JStr "Table is missing");
                                                    ("status", JNum 500)])]))
  /\ response [next (Error.new "Nothing to say" (Some 204))] = Some (204, None)
  /\ response [next (Error.new "No such status" (Some 1000))] = Some (500, None).
Proof.
  split; [|split; [|split]].
  - apply (proj1 (proj1 errors_are_answered (Error.new "Not allowed" (Some 403))) 403);
      [reflexivity | lia].
  - apply (proj1 (proj2 (proj1 errors_are_answered (Error.new "Table is missing" None)))).
    now left.
  - apply (proj1 (proj2 (proj2 (proj1 errors_are_answered
                                      (Error.new "Nothing to say" (Some 204)))))).
    reflexivity.
  - apply (proj2 (proj2 (proj2 (proj1 errors_are_answered
                                      (Error.new "No such status" (Some 1000))))) 1000);
      [reflexivity | discriminate | lia].
Defined.

(** * POST /api/users *)

Lemma addUser_result (now : Z) (db : database) (u : user) :
  (exists e, addUser now db u = (db, error_message e))
  \/ (exists db' id r,
        addUser now db u = (db', insertId id)
        /\ rows (db' "Users") = rows (db "Users") ++ [r]
        /\ get r "user_id" = VInt id
        /\ get r "username" = username u
        /\ get r "user_level_id" = VInt 2).
Proof.
  unfold addUser. simpl insert_rows.
  destruct (insert_row MediaSharingApp now db "Users" _ _) as [[db1 id1]|e] eqn:E.
  - right. apply insert_row_inv in E. destruct E as [tbl [Hf [_ [_ [Hid Hdb]]]]].
    apply find_Users in Hf. subst tbl.
    exists db1, id1,
      (new_row now db Users ["username"; "email"; "password"; "user_level_id"]
               [username u; email u; password u; VInt 2]).
    split; [reflexivity|]. split; [|split; [|split; reflexivity]].
    + rewrite Hdb, set_table_same. reflexivity.
    + rewrite Hid. reflexivity.
  - left. now exists e.
Qed.

(** X12. [postUser] in both versions: with validation errors the answer is
    400 and the database is left as it is; without, the answer is 200 with
    the message 'new user added' whether or not the user was added: when
    the INSERT is rejected the database is unchanged and [user_id] carries
    the error object, when it is accepted [user_id] is the id of the one
    row appended to Users.  The two versions differ only in the body of
    the 400. *)
Theorem postUser_answers (sql_message : error -> string) (errors : list js)
        (now : Z) (db : database) (body : user) :
  (errors <> [] ->
   postUser sql_message errors now db body
   = (db, [res_status 400; res_json (JObject [("errors", JArray errors)])])
   /\ fst (Refactored.postUser sql_message errors now db body) = db
   /\ response (snd (Refactored.postUser sql_message errors now db body))
      = Some (400, Some (JObject [("error",
                                   JObject [("message", JStr "Invalid or missing fields");
                                            ("status", JNum 400)])])))
  /\ (errors = [] ->
      Refactored.postUser sql_message errors now db body
      = postUser sql_message errors now db body
      /\ exists user_id,
          response (snd (postUser sql_message errors now db body))
          = Some (200, Some (JObject [("message", JStr "new user added");
                                      ("user_id", user_id)]))
          /\ ((exists e, user_id = JObject [("error", JStr (sql_message e))]
                         /\ fst (postUser sql_message errors now db body) = db)
              \/ (exists id r,
                    user_id = JNum id
                    /\ rows (fst (postUser sql_message errors now db body) "Users")
                       = rows (db "Users") ++ [r]
                    /\ get r "user_id" = VInt id
                    /\ get r "username" = username body
                    /\ get r "user_level_id" = VInt 2))).
Proof.
  split.
  - intro Hne. destruct errors as [|e errors]; [now elim Hne|]. repeat split.
  - intros ->. split; [reflexivity|].
    unfold postUser. simpl negb. cbv iota.
    destruct (addUser_result now db body) as [[e ->]|[db' [id [r [-> [Hrows [Hid [Hu Hl]]]]]]]].
    + exists (JObject [("error", JStr (sql_message e))]). split; [reflexivity|].
      left. exists e. split; reflexivity.
    + exists (JNum id). split; [reflexivity|].
      right. exists id, r. repeat split; assumption.
Qed.

Lemma postUser_answers_witness :
  fst (Refactored.postUser (fun _ => "rejected") [JStr "username"] 0 (seed_db 0)
         {| username := VStr "JD"; email := VStr "jd@example.com";
            password := VStr "to-be-hashed-pw6"; user_level_id := VNull |})
  = seed_db 0
  /\ Refactored.postUser (fun _ => "rejected") [] 0 (seed_db 0)
        {| username := VStr "JohnDoe"; email := VStr "jd@example.com";
           password := VStr "to-be-hashed-pw6"; user_level_id := VNull |}
     = postUser (fun _ => "rejected") [] 0 (seed_db 0)
        {| username := VStr "JohnDoe"; email := VStr "jd@example.com";
           password := VStr "to-be-hashed-pw6"; user_level_id := VNull |}.
Proof.
  split.
  - refine (proj1 (proj2 (proj1 (postUser_answers _ [JStr "username"] 0 (seed_db 0) _) _))).
    discriminate.
  - exact (proj1 (proj2 (postUser_answers _ [] 0 (seed_db 0) _) eq_refl)).
Defined.

(** * The file filter *)

Lemma prefix_append (p s : string) :
  String.prefix p s = true <-> exists rest, s = String.append p rest.
Proof.
  revert s. induction p as [|a p IH]; intro s; simpl.
  - split; [intros _; now exists s | intros _; now destruct s].
  - destruct s as [|b s]; simpl.
    + split; [discriminate | intros [rest H]; discriminate H].
    + destruct (Ascii.ascii_dec a b) as [<-|Hab].
      * rewrite IH. split; intros [rest H]; exists rest.
        -- now rewrite H.
        -- now inversion H.
      * split; [discriminate|]. intros [rest H]. inversion H. congruence.
Qed.

Lemma fileFilter_accepts (f : file.t) :
  String.prefix "image/" (file.mimetype f) || String.prefix "video/" (file.mimetype f) = true
  <-> exists rest, file.mimetype f = String.append "image/" rest
                   \/ file.mimetype f = String.append "video/" rest.
Proof.
  rewrite orb_true_iff, !prefix_append. split.
  - intros [[rest H]|[rest H]]; exists rest; [now left | now right].
  - intros [rest [H|H]]; [left | right]; now exists rest.
Qed.

(** X13. Both file filters let a file through exactly when its MIME type
    starts with [image/] or [video/].  A file of another type is answered
    400 either way: under the first filter the request goes on without
    [req.file] and [postMedia] answers 'Invalid or missing file', whatever
    the validation says; under the second the filter's error goes to the
    error handler, which answers 'Only images and videos are allowed!'. *)
Theorem only_images_and_videos (f : file.t) (errors : list js) :
  ((exists rest, file.mimetype f = String.append "image/" rest
                 \/ file.mimetype f = String.append "video/" rest) ->
   upload_single fileFilter (Some f) = inr (Some f)
   /\ upload_single Refactored.fileFilter (Some f) = inr (Some f))
  /\ (~ (exists rest, file.mimetype f = String.append "image/" rest
                      \/ file.mimetype f = String.append "video/" rest) ->
      upload_single fileFilter (Some f) = inr None
      /\ (exists trace,
            postMedia errors None = Some trace
            /\ response trace
               = Some (400, Some (JObject [("error", JStr "Invalid or missing file")])))
      /\ (exists err,
            upload_single Refactored.fileFilter (Some f) = inl err
            /\ response [next err]
               = Some (400, Some (JObject
                                    [("error",
                                      JObject [("message",
                                                JStr "Only images and videos are allowed!");
                                               ("status", JNum 400)])])))).
Proof.
  split.
  - intro H. apply fileFilter_accepts in H.
    unfold upload_single, fileFilter, Refactored.fileFilter. rewrite H. split; reflexivity.
  - intro H.
    assert (E : String.prefix "image/" (file.mimetype f)
                || String.prefix "video/" (file.mimetype f) = false).
    { destruct (String.prefix "image/" (file.mimetype f)
                || String.prefix "video/" (file.mimetype f)) eqn:E; [|reflexivity].
      elim H. now apply fileFilter_accepts. }
    unfold upload_single, fileFilter, Refactored.fileFilter. rewrite E.
    split; [reflexivity|]. split.
    + eexists. split; reflexivity.
    + eexists. split; reflexivity.
Qed.

Lemma only_images_and_videos_witness :
  (upload_single fileFilter (Some (file.new "3f9a" "image/png" 2048))
   = inr (Some (file.new "3f9a" "image/png" 2048))
   /\ upload_single Refactored.fileFilter (Some (file.new "3f9a" "image/png" 2048))
      = inr (Some (file.new "3f9a" "image/png" 2048)))
  /\ upload_single fileFilter (Some (file.new "77c1" "application/pdf" 2048)) = inr None.
Proof.
  split.
  - apply (proj1 (only_images_and_videos (file.new "3f9a" "image/png" 2048) [])).
    exists "png". now left.
  - apply (proj2 (only_images_and_videos (file.new "77c1" "application/pdf" 2048) [])).
    intros [rest [H|H]]; discriminate H.
Defined.

(** * POST /api/media *)

(** X14. The refactored [postMedia] leaves the database as it is when the
    file is missing or the validation has errors.  With a file and with
    validation errors it calls [next] once and returns, and the answer is
    400, 'Invalid or missing fields'.  Without a file it calls [next] with
    'Invalid or missing file' and does not stop there: it calls [next] a
    second time when the validation has errors as well, and otherwise
    throws on reading the properties of the missing file.  What reaches
    the client of a request without a file is not stated. *)
Theorem postMedia_rejects (message : failure -> string) (case_insensitive : bool)
        (errors : list js) (now : Z) (db : database) (req_file : option file.t)
        (title description : option string) (user_id : Z) :
  let bad_request text :=
      Some (400, Some (JObject [("error", JObject [("message", JStr text);
                                                   ("status", JNum 400)])])) in
  let out := Refactored.postMedia message case_insensitive errors now db req_file
                                  title description user_id in
  (req_file = None ->
   fst out = db
   /\ snd out = next (Error.new "Invalid or missing file" (Some 400))
                     :: (if isEmpty errors then [throws_TypeError]
                         else [next (Error.new "Invalid or missing fields" (Some 400))]))
  /\ (req_file <> None -> errors <> [] ->
      fst out = db
      /\ response (snd out) = bad_request "Invalid or missing fields"
      /\ snd out = [next (Error.new "Invalid or missing fields" (Some 400))]).
Proof.
  intros bad_request out. subst out. split.
  - intros ->. unfold Refactored.postMedia. destruct errors; repeat split.
  - intros Hf He. unfold Refactored.postMedia.
    destruct req_file as [f|]; [|now elim Hf].
    destruct errors; [now elim He|]. repeat split.
Qed.

Lemma postMedia_rejects_witness :
  snd (Refactored.postMedia (fun _ => "rejected") true [] 0 (seed_db 0) None
                            (Some "Title") None 1)
  = [next (Error.new "Invalid or missing file" (Some 400)); throws_TypeError]
  /\ snd (Refactored.postMedia (fun _ => "rejected") true [JStr "title"] 0 (seed_db 0)
                               (Some (file.new "3f9a" "image/png" 2048)) None None 1)
     = [next (Error.new "Invalid or missing fields" (Some 400))].
Proof.
  split.
  - exact (proj2 (proj1 (postMedia_rejects (fun _ => "rejected") true [] 0 (seed_db 0)
                           None (Some "Title") None 1) eq_refl)).
  - refine (proj2 (proj2 (proj2 (postMedia_rejects (fun _ => "rejected") true [JStr "title"] 0
                                   (seed_db 0) (Some (file.new "3f9a" "image/png" 2048))
                                   None None 1) _ _))); discriminate.
Defined.

Lemma truthy_message (s : string) : s <> EmptyString -> truthy (JStr s) = true.
Proof.
  intro H. simpl. destruct (String.eqb_spec s EmptyString); [contradiction | reflexivity].
Qed.

Lemma find_MediaItems (tbl : table) :
  find_table MediaSharingApp "MediaItems" = Some tbl -> tbl = MediaItems.
Proof.
  change (find_table MediaSharingApp "MediaItems") with (Some MediaItems).
  congruence.
Qed.

(** What the model's INSERT does when the table name is found. *)
Lemma addMedia_result (now : Z) (db : database) (m : media.t) (title description : string) :
  media.title m = Some title -> media.description m = Some description ->
  (exists e,
     addMedia true now db m = (db, inr (server_error e))
     /\ snd (exec MediaSharingApp now db
                  (insert_media (VInt (media.user_id m)) (VStr (media.filename m))
                                (VInt (media.size m)) (VStr (media.mimetype m))
                                (VStr title) (VStr description))) = Some e)
  \/ (exists db' id r,
        addMedia true now db m = (db', inl id)
        /\ rows (db' "MediaItems") = rows (db "MediaItems") ++ [r]
        /\ (forall t, t <> "MediaItems" -> db' t = db t)
        /\ get r "media_id" = VInt id
        /\ get r "user_id" = VInt (media.user_id m)
        /\ get r "filename" = VStr (media.filename m)
        /\ get r "filesize" = VInt (media.size m)
        /\ get r "media_type" = VStr (media.mimetype m)
        /\ get r "title" = VStr title
        /\ get r "description" = VStr description).
Proof.
  intros Ht Hd. unfold addMedia. rewrite Ht, Hd.
  change (table_named true MediaSharingApp "mediaItems") with "MediaItems".
  unfold insert_media, exec. simpl insert_rows.
  destruct (insert_row MediaSharingApp now db "MediaItems" _ _) as [[db1 id1]|e] eqn:E.
  - right. apply insert_row_inv in E. destruct E as [tbl [Hf [_ [_ [Hid Hdb]]]]].
    apply find_MediaItems in Hf. subst tbl.
    exists db1, id1,
      (new_row now db MediaItems
               ["user_id"; "filename"; "filesize"; "media_type"; "title"; "description"]
               [VInt (media.user_id m); VStr (media.filename m); VInt (media.size m);
                VStr (media.mimetype m); VStr title; VStr description]).
    split; [reflexivity|]. split; [now rewrite Hdb, set_table_same|].
    split; [intros t Hne; rewrite Hdb; now apply set_table_other|].
    split; [rewrite Hid; reflexivity|]. repeat split.
  - left. exists e. split; reflexivity.
Qed.

(** X15. The refactored [postMedia] with a file and without validation
    errors, where error messages are not empty.  The answer is 201 with the
    new [media_id] exactly when one row has been appended to MediaItems,
    made of the file's name, size and type, the two text fields and the
    user's id; in every other case it is 500 and the database is as it was:
    when [title] or [description] is missing from the body, since
    [execute] takes no undefined parameter; when table names are case
    sensitive, since the model writes [mediaItems]; and when the server
    rejects the row. *)
Theorem postMedia_stores_or_500 (message : failure -> string) (case_insensitive : bool)
        (now : Z) (db : database) (f : file.t) (title description : option string)
        (user_id : Z) :
  (forall e, message e <> EmptyString) ->
  let out := Refactored.postMedia message case_insensitive [] now db (Some f)
                                  title description user_id in
  let answered_500 e :=
      fst out = db
      /\ response (snd out)
         = Some (500, Some (JObject [("error", JObject [("message", JStr (message e));
                                                        ("status", JNum 500)])])) in
  (title = None \/ description = None -> answered_500 undefined_bind_parameter)
  /\ (forall t d,
        title = Some t -> description = Some d ->
        (case_insensitive = false -> answered_500 (server_error (NoSuchTable "mediaItems")))
        /\ (case_insensitive = true ->
            (exists e,
               answered_500 (server_error e)
               /\ snd (exec MediaSharingApp now db
                            (insert_media (VInt user_id) (VStr (file.filename f))
                                          (VInt (file.size f)) (VStr (file.mimetype f))
                                          (VStr t) (VStr d))) = Some e)
            \/ (exists id r,
                  response (snd out)
                  = Some (201, Some (JObject [("message", JStr "New media item added.");
                                              ("media_id", JNum id)]))
                  /\ rows (fst out "MediaItems") = rows (db "MediaItems") ++ [r]
                  /\ (forall t', t' <> "MediaItems" -> fst out t' = db t')
                  /\ get r "media_id" = VInt id
                  /\ get r "user_id" = VInt user_id
                  /\ get r "filename" = VStr (file.filename f)
                  /\ get r "filesize" = VInt (file.size f)
                  /\ get r "media_type" = VStr (file.mimetype f)
                  /\ get r "title" = VStr t
                  /\ get r "description" = VStr d))).
Proof.
  intros Hmsg out answered_500. subst out answered_500. cbv beta.
  unfold Refactored.postMedia. simpl negb. cbv iota. split.
  - intro Hmiss.
    assert (E : addMedia case_insensitive now db
                         (media.new title description user_id (file.filename f)
                                    (file.mimetype f) (file.size f))
                = (db, inr undefined_bind_parameter)).
    { unfold addMedia. simpl. destruct Hmiss as [-> | ->]; [reflexivity|].
      now destruct title. }
    rewrite E. cbv beta iota.
    rewrite (truthy_message _ (Hmsg undefined_bind_parameter)). split; reflexivity.
  - intros t d -> ->. split.
    + intros ->.
      change (addMedia false now db
                       (media.new (Some t) (Some d) user_id (file.filename f)
                                  (file.mimetype f) (file.size f)))
        with (db, @inr Z failure (server_error (NoSuchTable "mediaItems"))).
      cbv beta iota.
      rewrite (truthy_message _ (Hmsg (server_error (NoSuchTable "mediaItems")))).
      split; reflexivity.
    + intros ->.
      destruct (addMedia_result now db
                  (media.new (Some t) (Some d) user_id (file.filename f)
                             (file.mimetype f) (file.size f)) t d eq_refl eq_refl)
        as [[e [-> He]]|[db' [id [r [-> H]]]]].
      * left. exists e. cbv beta iota.
        rewrite (truthy_message _ (Hmsg (server_error e))).
        split; [split; reflexivity | exact He].
      * right. exists id, r. split; [reflexivity | exact H].
Qed.

(** A request of user 1 with a file and both text fields on the sample data,
    and the same request without [description]. *)
Lemma postMedia_stores_or_500_witness :
  (fst (Refactored.postMedia (fun _ => "rejected") true [] 0 (seed_db 0)
          (Some (file.new "3f9a" "image/png" 2048)) (Some "Cat") None 1) = seed_db 0
   /\ response (snd (Refactored.postMedia (fun _ => "rejected") true [] 0 (seed_db 0)
                       (Some (file.new "3f9a" "image/png" 2048)) (Some "Cat") None 1))
      = Some (500, Some (JObject [("error", JObject [("message", JStr "rejected");
                                                     ("status", JNum 500)])])))
  /\ response (snd (Refactored.postMedia (fun _ => "rejected") true [] 0 (seed_db 0)
                      (Some (file.new "3f9a" "image/png" 2048))
                      (Some "Cat") (Some "A cat") 1))
     = Some (201, Some (JObject [("message", JStr "New media item added.");
                                 ("media_id", JNum 5)])).
Proof.
  split.
  - refine (proj1 (postMedia_stores_or_500 (fun _ => "rejected") true 0 (seed_db 0)
                     (file.new "3f9a" "image/png" 2048) (Some "Cat") None 1 _) _).
    + intros _. discriminate.
    + now right.
  - reflexivity.
Defined.

(** * The mock media model *)

(** The array is the two mock items under the posted ones: the item posted
    first has the id 9593, the later ones have greater ids, and the first
    element has the greatest. *)
Lemma served_shape (s : list Mock.item) :
  Mock.served s ->
  s = Mock.mediaItems
  \/ exists added x,
      s = added ++ x :: Mock.mediaItems
      /\ Mock.media_id x = 9593
      /\ Mock.filesize x = undefined
      /\ (forall y, In y added -> 9593 < Mock.media_id y)
      /\ match s with
         | first :: _ => Mock.media_id first = 9593 + Z.of_nat (List.length added)
         | [] => False
         end.
Proof.
  induction 1 as [|s body _ IH]; [now left|].
  unfold Mock.postMedia.
  destruct (truthy (prop body "filename") && truthy (prop body "title")
            && truthy (prop body "description") && truthy (prop body "user_id"));
    [|exact IH].
  destruct IH as [->|[added [x [-> [Hx [Hfs [Hgt Hfirst]]]]]]].
  - right. unfold Mock.mediaItems at 1, Mock.addMedia. cbn [fst].
    eexists [], _. split; [reflexivity|]. repeat split. intros y [].
  - right.
    destruct (added ++ x :: Mock.mediaItems) as [|first rest] eqn:Es; [destruct Hfirst|].
    unfold Mock.addMedia. cbn [fst]. rewrite <- Es.
    eexists (_ :: added), x. split; [reflexivity|]. split; [assumption|].
    split; [assumption|]. split.
    + intros y [<-|Hy]; [cbn [Mock.media_id]; lia | now apply Hgt].
    + cbn [Mock.media_id]. rewrite Hfirst.
      change (List.length (_ :: added)) with (S (List.length added)). lia.
Qed.

Lemma served_not_empty (s : list Mock.item) : Mock.served s -> exists first rest, s = first :: rest.
Proof.
  intro H. destruct (served_shape s H) as [->|[added [x [-> [_ [_ [_ Hfirst]]]]]]].
  - now exists Mock.Desert, [Mock.Basement].
  - destruct (added ++ x :: Mock.mediaItems) as [|first rest]; [destruct Hfirst|].
    now exists first, rest.
Qed.

Lemma find_app_none {A : Type} (p : A -> bool) (l l' : list A) :
  (forall x, In x l -> p x = false) -> find p (l ++ l') = find p l'.
Proof.
  induction l as [|a l IH]; simpl; intro H; [reflexivity|].
  rewrite (H a (or_introl eq_refl)). apply IH. intros x Hx. apply H. now right.
Qed.

(** X16. The first item posted to the mock model gets the id 9593, which
    the mock item Basement has: from then on, a request for the id 9593 is
    answered with the posted item, which has no file size, and never again
    with Basement, although Basement is still in the list. *)
Theorem Basement_is_hidden (StringToNumber : string -> option Z) (s : list Mock.item)
        (id : string) :
  Mock.served s -> StringToNumber id = Some 9593 ->
  (s = Mock.mediaItems ->
   Mock.getMediaById StringToNumber s id = [res_json (Mock.to_js Mock.Basement)])
  /\ (s <> Mock.mediaItems ->
      exists later x,
        s = later ++ x :: Mock.mediaItems
        /\ Mock.media_id x = 9593
        /\ Mock.filesize x = undefined
        /\ Mock.findMediaById StringToNumber s id = Some x
        /\ Mock.getMediaById StringToNumber s id = [res_json (Mock.to_js x)]
        /\ Mock.getMediaById StringToNumber s id <> [res_json (Mock.to_js Mock.Basement)]).
Proof.
  intros Hs Hid. split.
  - intros ->. unfold Mock.getMediaById, Mock.findMediaById, Mock.loosely_equal.
    rewrite Hid. reflexivity.
  - intro Hne. destruct (served_shape s Hs) as [->|[added [x [-> [Hx [Hfs [Hgt _]]]]]]];
      [now elim Hne|].
    assert (Hfind : Mock.findMediaById StringToNumber (added ++ x :: Mock.mediaItems) id
                    = Some x).
    { unfold Mock.findMediaById. rewrite find_app_none.
      - simpl. unfold Mock.loosely_equal. rewrite Hid, Hx. reflexivity.
      - intros y Hy. unfold Mock.loosely_equal. rewrite Hid.
        specialize (Hgt y Hy). apply Z.eqb_neq. lia. }
    exists added, x. split; [reflexivity|]. split; [assumption|]. split; [assumption|].
    split; [assumption|]. unfold Mock.getMediaById. rewrite Hfind.
    split; [reflexivity|]. intro E. inversion E as [Ef]. rewrite Hfs in *.
    discriminate.
Qed.

Lemma Basement_is_hidden_witness :
  Mock.getMediaById (fun id => if String.eqb id "9593" then Some 9593 else None)
    (fst (Mock.postMedia Mock.mediaItems
            [("filename", JStr "cat.png"); ("title", JStr "Cat");
             ("description", JStr "A cat"); ("user_id", JNum 1)]))
    "9593"
  <> [res_json (Mock.to_js Mock.Basement)].
Proof.
  destruct (proj2 (Basement_is_hidden
                     (fun id => if String.eqb id "9593" then Some 9593 else None)
                     (fst (Mock.postMedia Mock.mediaItems
                             [("filename", JStr "cat.png"); ("title", JStr "Cat");
                              ("description", JStr "A cat"); ("user_id", JNum 1)]))
                     "9593" (Mock.posted _ _ Mock.started) eq_refl))
    as [later [x [_ [_ [_ [_ [_ Hne]]]]]]].
  - vm_compute. discriminate.
  - exact Hne.
Defined.

(** X17. The mock controller while the application runs: [postMedia]
    never throws; it answers 400 and keeps the array when one of
    [filename], [title], [description] and [user_id] is missing or falsy,
    an empty description included; otherwise it answers 201 and puts in
    front of the array an item with these four properties and the id of the
    former first item plus one, which a request for that id then returns.
    [putMedia] and [deleteMedia] answer 200 and change nothing. *)
Theorem mock_post_then_get (StringToNumber : string -> option Z) (s : list Mock.item)
        (body : list (string * js)) (id : string) :
  Mock.served s ->
  let complete := truthy (prop body "filename") && truthy (prop body "title")
                  && truthy (prop body "description") && truthy (prop body "user_id") in
  (complete = false -> Mock.postMedia s body = (s, [res_sendStatus 400]))
  /\ (prop body "description" = JStr EmptyString -> complete = false)
  /\ (complete = true ->
      exists first rest new,
        s = first :: rest
        /\ Mock.postMedia s body
           = (new :: s, [res_status 201;
                         res_json (JObject [("message", JStr "New media item added.")])])
        /\ response (snd (Mock.postMedia s body))
           = Some (201, Some (JObject [("message", JStr "New media item added.")]))
        /\ Mock.to_js new
           = JObject [("media_id", JNum (Mock.media_id first + 1));
                      ("filename", prop body "filename"); ("filesize", undefined);
                      ("title", prop body "title");
                      ("description", prop body "description");
                      ("user_id", prop body "user_id");
                      ("media_type", undefined); ("created_at", undefined)]
        /\ (StringToNumber id = Some (Mock.media_id first + 1) ->
            Mock.getMediaById StringToNumber (fst (Mock.postMedia s body)) id
            = [res_json (Mock.to_js new)]))
  /\ fst (Mock.putMedia s) = s /\ fst (Mock.deleteMedia s) = s.
Proof.
  intros Hs complete. split; [|split; [|split; [|split; reflexivity]]].
  - intro Hc. unfold Mock.postMedia. fold complete. now rewrite Hc.
  - intro Hd. unfold complete. rewrite Hd. simpl truthy.
    now rewrite andb_false_r.
  - intro Hc. destruct (served_not_empty s Hs) as [first [rest ->]].
    unfold Mock.postMedia. fold complete. rewrite Hc.
    unfold Mock.addMedia. eexists first, rest, _.
    split; [reflexivity|]. split; [reflexivity|]. split; [reflexivity|].
    split; [reflexivity|].
    intro Hid. cbn [fst]. unfold Mock.getMediaById, Mock.findMediaById.
    cbn [find Mock.media_id]. unfold Mock.loosely_equal at 1. cbn [Mock.media_id].
    rewrite Hid, Z.eqb_refl. reflexivity.
Qed.

Lemma mock_post_then_get_witness :
  Mock.postMedia Mock.mediaItems
                 [("filename", JStr "f504.jpg"); ("title", JStr "Desert");
                  ("description", JStr EmptyString); ("user_id", JNum 3609)]
  = (Mock.mediaItems, [res_sendStatus 400]).
Proof.
  refine (proj1 (mock_post_then_get (fun _ => None) Mock.mediaItems
                   [("filename", JStr "f504.jpg"); ("title", JStr "Desert");
                    ("description", JStr EmptyString); ("user_id", JNum 3609)]
                   EmptyString Mock.started) _).
  reflexivity.
Defined.

(** * Joins *)

Lemma eqb_append (t a b : string) :
  String.eqb (String.append t a) (String.append t b) = String.eqb a b.
Proof.
  induction t as [|x t IH]; simpl; [reflexivity|].
  now rewrite Ascii.eqb_refl.
Qed.

Lemma get_qualify (t : string) (r : row) (c : string) :
  get (qualify t r) (String.append t (String.append "." c)) = get r c.
Proof.
  unfold get, qualify. induction r as [|p r IH]; [reflexivity|].
  cbn [map find fst snd]. rewrite !eqb_append.
  destruct (String.eqb (fst p) c); [reflexivity | exact IH].
Qed.

Section JoinedRows.

Variables lt rt : string.

(** No column of the one table is a column of the other. *)
Hypothesis apart_names :
  forall a b, String.eqb (String.append lt (String.append "." a))
                         (String.append rt (String.append "." b)) = false.

Lemma get_left (l r : row) (c : string) :
  get (qualify lt l ++ qualify rt r) (String.append lt (String.append "." c)) = get l c.
Proof.
  induction l as [|p l IH].
  - unfold get, qualify. cbn [app map]. induction r as [|q r IHr]; [reflexivity|].
    cbn [map find fst]. rewrite String.eqb_sym, apart_names. exact IHr.
  - unfold get in *. cbn [qualify app map find fst snd]. rewrite !eqb_append.
    destruct (String.eqb (fst p) c); [reflexivity | exact IH].
Qed.

Lemma get_right (l r : row) (c : string) :
  get (qualify lt l ++ qualify rt r) (String.append rt (String.append "." c)) = get r c.
Proof.
  induction l as [|p l IH]; [apply get_qualify|].
  unfold get in *. cbn [qualify app map find fst]. rewrite apart_names. exact IH.
Qed.

End JoinedRows.

Lemma sql_eq_as_value_eqb_sym (a b : value) :
  b <> VNull -> sql_true (sql_eq a b) = value_eqb b a.
Proof.
  intro Hb.
  destruct b as [|y|y]; [now elim Hb | |]; destruct a; simpl;
    try reflexivity; rewrite 1?Z.eqb_sym, 1?String.eqb_sym;
    match goal with |- context [if ?c then _ else _] => now destruct c end.
Qed.

Lemma sql_eq_as_value_eqb (a b : value) :
  a <> VNull -> sql_true (sql_eq a b) = value_eqb b a.
Proof.
  intro Ha. rewrite value_eqb_sym.
  destruct a as [|x|x]; [now elim Ha | |]; destruct b; simpl;
    try reflexivity; match goal with |- context [if ?c then _ else _] => now destruct c end.
Qed.

Lemma sql_eq_with_value (a b : value) :
  b <> VNull -> sql_true (sql_eq a b) = value_eqb a b.
Proof.
  intro Hb. rewrite value_eqb_sym. now apply sql_eq_as_value_eqb_sym.
Qed.

Lemma find_is_first {A : Type} (f : A -> bool) (l : list A) :
  find f l = match filter f l with x :: _ => Some x | [] => None end.
Proof.
  induction l as [|a l IH]; simpl; [reflexivity|].
  destruct (f a); [reflexivity | exact IH].
Qed.

(** A value of a key column that some row has is the value of one row. *)
Lemma lookup_one (c : string) (v : value) (ps : list row) :
  key_collision [c] ps = false -> v <> VNull ->
  (exists p, In p ps /\ get p c = v) ->
  exists p, In p ps /\ get p c = v
            /\ filter (fun p => value_eqb (get p c) v) ps = [p].
Proof.
  intros Hk Hv [p0 [Hp0 E0]].
  pose proof (key_lookup_at_most_one c v ps Hk) as Hlen. unfold WHERE in Hlen.
  rewrite (filter_ext _ (fun p => value_eqb (get p c) v)) in Hlen.
  2: { intro p.
       destruct (get p c) as [|x|x]; destruct v as [|y|y]; simpl; try reflexivity;
         try (now elim Hv);
         match goal with |- context [if ?b then _ else _] => now destruct b end. }
  assert (Hin : In p0 (filter (fun p => value_eqb (get p c) v) ps))
    by (apply filter_In; split; [assumption | now apply value_eqb_eq]).
  destruct (filter (fun p => value_eqb (get p c) v) ps) as [|p [|p' l]] eqn:Ef.
  - destruct Hin.
  - destruct Hin as [->|[]]. exists p0. repeat split; assumption.
  - simpl in Hlen. lia.
Qed.

(** A join on a key of the right table, from a column that is not NULL and
    refers to it: each row of the left table once, with the row it refers
    to. *)
Lemma join_on_key (ct pt fk pk : string) (cs ps : list row) :
  (forall a b, String.eqb (String.append ct (String.append "." a))
                          (String.append pt (String.append "." b)) = false) ->
  key_collision [pk] ps = false ->
  (forall c, In c cs ->
             get c fk <> VNull /\ exists p, In p ps /\ get p pk = get c fk) ->
  JOIN ct cs pt ps
       (fun j => sql_eq (get j (String.append ct (String.append "." fk)))
                        (get j (String.append pt (String.append "." pk))))
  = map (fun c => qualify ct c
                  ++ qualify pt (match find (fun p => value_eqb (get p pk) (get c fk)) ps with
                                 | Some p => p
                                 | None => []
                                 end)) cs.
Proof.
  intros Hap Hk Hc. unfold JOIN. induction cs as [|c cs IH]; [reflexivity|].
  cbn [flat_map map]. rewrite IH by (intros c' Hc'; apply Hc; now right).
  destruct (Hc c (or_introl eq_refl)) as [Hnn Hex].
  destruct (lookup_one pk (get c fk) ps Hk Hnn Hex) as [p [Hp [Ep Ef]]].
  unfold WHERE at 1. rewrite filter_map_swap.
  rewrite (filter_ext _ (fun p => value_eqb (get p pk) (get c fk))).
  2: { intro q. rewrite (get_left ct pt Hap), (get_right ct pt Hap).
       now apply sql_eq_as_value_eqb. }
  rewrite find_is_first, Ef. reflexivity.
Qed.

(** In a reachable state, the [user_id] of a row of a table that declares
    it NOT NULL with a foreign key to Users is the [user_id] of a user. *)
Lemma user_exists (db : database) (t : string) (tbl : table) (r : row) :
  reachable MediaSharingApp db ->
  find_table MediaSharingApp t = Some tbl ->
  In (col "user_id" INT [NOT_NULL]) (tbl_cols tbl) ->
  In (FOREIGN_KEY "user_id" "Users" "user_id" None None) (tbl_fks tbl) ->
  In r (rows (db t)) ->
  get r "user_id" <> VNull
  /\ exists u, In u (rows (db "Users")) /\ get u "user_id" = get r "user_id".
Proof.
  intros Hr Hf Hc Hfk Hin.
  pose proof (reachable_rows_valid _ _ Hr t tbl r _ Hf Hin Hc) as Hv.
  apply column_violation_none in Hv. destruct Hv as [_ [Hnn _]].
  specialize (Hnn eq_refl).
  pose proof (reachable_refs_valid _ _ Hr t tbl r _ Hf Hin Hfk) as Href.
  apply fk_violation_none in Href. destruct Href as [Hnull|Hex]; [contradiction|].
  split; assumption.
Qed.

Lemma user_id_is_key (db : database) :
  reachable MediaSharingApp db -> key_collision ["user_id"] (rows (db "Users")) = false.
Proof.
  intro Hr. apply (reachable_keys_valid _ _ Hr "Users" Users); [reflexivity | declared].
Qed.

Lemma username_is_key (db : database) :
  reachable MediaSharingApp db -> key_collision ["username"] (rows (db "Users")) = false.
Proof.
  intro Hr. apply (reachable_keys_valid _ _ Hr "Users" Users); [reflexivity | declared].
Qed.

(** The user a row refers to, when there is one. *)
Lemma user_of_spec (db : database) (r : row) :
  reachable MediaSharingApp db ->
  get r "user_id" <> VNull ->
  (exists u, In u (rows (db "Users")) /\ get u "user_id" = get r "user_id") ->
  In (user_of db r) (rows (db "Users"))
  /\ get (user_of db r) "user_id" = get r "user_id".
Proof.
  intros Hr Hnn Hex.
  destruct (lookup_one "user_id" (get r "user_id") _ (user_id_is_key db Hr) Hnn Hex)
    as [u [Hu [Eu Ef]]].
  unfold user_of. rewrite find_is_first, Ef. split; assumption.
Qed.

(** X18. The comments of media item 1 with the names of their authors: in
    every reachable state the join loses no comment and repeats none; the
    result has one row for each Comments row with [media_id] 1, with the
    comment's time and text and the [username] of the one user whose
    [user_id] the comment has. *)
Theorem comments_with_usernames (db : database) :
  reachable MediaSharingApp db ->
  comments_of_media_item_1 db
  = map (fun c => [get c "created_at"; get (user_of db c) "username";
                   get c "comment_text"])
        (filter (fun c => value_eqb (get c "media_id") (VInt 1)) (rows (db "Comments")))
  /\ forall c, In c (rows (db "Comments")) ->
               In (user_of db c) (rows (db "Users"))
               /\ get (user_of db c) "user_id" = get c "user_id".
Proof.
  intro Hr.
  assert (Hc : forall c, In c (rows (db "Comments")) ->
                 get c "user_id" <> VNull
                 /\ exists u, In u (rows (db "Users")) /\ get u "user_id" = get c "user_id").
  { intros c Hin. apply (user_exists db "Comments" Comments c Hr); try assumption;
      [reflexivity | declared | declared]. }
  assert (Hap : forall a b, String.eqb (String.append "Comments" (String.append "." a))
                                       (String.append "Users" (String.append "." b)) = false)
    by reflexivity.
  split.
  - unfold comments_of_media_item_1.
    pose proof (join_on_key "Comments" "Users" "user_id" "user_id" _ _ Hap
                            (user_id_is_key db Hr) Hc) as Hjoin.
    cbn [String.append] in Hjoin. rewrite Hjoin. clear Hjoin.
    fold (user_of db). unfold WHERE, SELECT. rewrite filter_map_swap, map_map.
    rewrite (filter_ext _ (fun c => value_eqb (get c "media_id") (VInt 1))).
    + apply map_ext. intro c. cbn [map].
      rewrite (get_left "Comments" "Users" Hap _ _ "created_at").
      rewrite (get_right "Comments" "Users" Hap _ _ "username").
      rewrite (get_left "Comments" "Users" Hap _ _ "comment_text"). reflexivity.
    + intro c. rewrite (get_left "Comments" "Users" Hap _ _ "media_id").
      apply sql_eq_with_value. discriminate.
  - intros c Hin. destruct (Hc c Hin) as [Hnn Hex]. now apply user_of_spec.
Qed.

Lemma comments_with_usernames_witness :
  comments_of_media_item_1 (seed_db 0)
  = map (fun c => [get c "created_at"; get (user_of (seed_db 0) c) "username";
                   get c "comment_text"])
        (filter (fun c => value_eqb (get c "media_id") (VInt 1))
                (rows (seed_db 0 "Comments")))
  /\ forall c, In c (rows (seed_db 0 "Comments")) ->
               In (user_of (seed_db 0) c) (rows (seed_db 0 "Users"))
               /\ get (user_of (seed_db 0) c) "user_id" = get c "user_id".
Proof. exact (comments_with_usernames (seed_db 0) (seed_reachable 0)). Defined.

(** Two users with one name are one user. *)
Lemma same_username (db : database) (u u' : row) :
  reachable MediaSharingApp db ->
  In u (rows (db "Users")) -> In u' (rows (db "Users")) ->
  get u "username" = get u' "username" -> u = u'.
Proof.
  intros Hr Hu Hu' E.
  destruct (In_nth_error _ _ Hu) as [i Hi]. destruct (In_nth_error _ _ Hu') as [j Hj].
  assert (Hij : i = j).
  { apply (key_collision_positions ["username"] (rows (db "Users"))
             (username_is_key db Hr) i j u u' Hi Hj).
    - intros c [<-|[]].
      pose proof (reachable_rows_valid _ _ Hr "Users" Users u
                    (col "username" (VARCHAR 50) [NOT_NULL; UNIQUE]) eq_refl Hu
                    ltac:(declared)) as Hv.
      apply column_violation_none in Hv. destruct Hv as [_ [Hnn _]]. now apply Hnn.
    - intros c [<-|[]]. exact E. }
  subst j. congruence.
Qed.

(** From a choice for each element of a list, a list of choices. *)
Lemma Forall2_choice {A B : Type} (R : A -> B -> Prop) (l : list A) :
  (forall a, In a l -> exists b, R a b) -> exists l', Forall2 R l l'.
Proof.
  induction l as [|a l IH]; intro H.
  - exists []. constructor.
  - destruct (H a (or_introl eq_refl)) as [b Hb].
    destruct (IH (fun x Hx => H x (or_intror Hx))) as [l' Hl'].
    exists (b :: l'). now constructor.
Qed.

Lemma Forall2_map_eq {A B C : Type} (R : A -> B -> Prop) (f : A -> C) (g : B -> C)
      (l : list A) (l' : list B) :
  Forall2 R l l' -> (forall a b, R a b -> f a = g b) -> map f l = map g l'.
Proof.
  intros H Hfg. induction H as [|a b l l' Hab _ IH]; [reflexivity|].
  simpl. now rewrite (Hfg a b Hab), IH.
Qed.

Lemma Forall2_right {A B : Type} (R : A -> B -> Prop) (l : list A) (l' : list B) (b : B) :
  Forall2 R l l' -> In b l' -> exists a, In a l /\ R a b.
Proof.
  intro H. induction H as [|a b' l l' Hab _ IH]; intros [].
  - subst b'. exists a. split; [now left | assumption].
  - destruct (IH H) as [a' [Ha' Hr]]. exists a'. split; [now right | assumption].
Qed.

Lemma Forall2_left {A B : Type} (R : A -> B -> Prop) (l : list A) (l' : list B) (a : A) :
  Forall2 R l l' -> In a l -> exists b, In b l' /\ R a b.
Proof.
  intro H. induction H as [|a' b l l' Hab _ IH]; intros [].
  - subst a'. exists b. split; [now left | assumption].
  - destruct (IH H) as [b' [Hb' Hr]]. exists b'. split; [now right | assumption].
Qed.

Lemma filter_length_Permutation {A : Type} (f : A -> bool) (l l' : list A) :
  Permutation l l' -> List.length (filter f l) = List.length (filter f l').
Proof.
  induction 1 as [|x l l' _ IH|x y l|l l' l'' _ IH1 _ IH2]; simpl.
  - reflexivity.
  - destruct (f x); simpl; now rewrite IH.
  - destruct (f x), (f y); reflexivity.
  - now rewrite IH1.
Qed.

(** ** Counting the rows of a table by the name of the user they refer to *)

Section ByUsername.

Variable db : database.
Hypothesis Hreach : reachable MediaSharingApp db.

(** The table whose rows are counted, each row with its user. *)
Variable t : string.
Variable tbl : table.
Hypothesis Htable : find_table MediaSharingApp t = Some tbl.
Hypothesis Hcolumn : In (col "user_id" INT [NOT_NULL]) (tbl_cols tbl).
Hypothesis Hforeign : In (FOREIGN_KEY "user_id" "Users" "user_id" None None) (tbl_fks tbl).

(** The joined rows: one for each row of the table, in some order. *)
Variable joined : list row.
Variable F : row -> row.
Hypothesis Hjoined : Permutation joined (map F (rows (db t))).
Hypothesis Hname :
  forall c, get (F c) "Users.username" = get (user_of db c) "username".

(** The counted column is never NULL. *)
Variables counted_column alias : string.
Hypothesis Hcounted :
  forall c, In c (rows (db t)) -> get (F c) counted_column <> VNull.

Let number_of (u : row) : Z :=
  Z.of_nat (List.length (filter (fun c => value_eqb (get c "user_id") (get u "user_id"))
                                (rows (db t)))).

Lemma refers_to_user (c : row) :
  In c (rows (db t)) ->
  In (user_of db c) (rows (db "Users"))
  /\ get (user_of db c) "user_id" = get c "user_id".
Proof.
  intro Hc.
  destruct (user_exists db t tbl c Hreach Htable Hcolumn Hforeign Hc) as [Hnn Hex].
  now apply user_of_spec.
Qed.

(** Two rows are in one group when they have one [user_id]. *)
Lemma same_user_group (c c0 : row) :
  In c (rows (db t)) -> In c0 (rows (db t)) ->
  same_group ["Users.username"] (F c) (F c0)
  = value_eqb (get c "user_id") (get (user_of db c0) "user_id").
Proof.
  intros Hc Hc0.
  destruct (refers_to_user c Hc) as [Hu Eu]. destruct (refers_to_user c0 Hc0) as [Hu0 Eu0].
  unfold same_group. cbn [forallb]. rewrite andb_true_r, !Hname.
  destruct (value_eqb (get c "user_id") (get (user_of db c0) "user_id")) eqn:E.
  - apply value_eqb_eq in E. apply value_eqb_eq.
    assert (Hsame : user_of db c = user_of db c0)
      by (unfold user_of; now rewrite E, Eu0).
    now rewrite Hsame.
  - destruct (value_eqb (get (user_of db c) "username") (get (user_of db c0) "username"))
      eqn:E'; [|reflexivity].
    apply value_eqb_eq in E'.
    pose proof (same_username db _ _ Hreach Hu Hu0 E') as Hsame.
    rewrite <- Hsame, Eu, value_eqb_refl in E. discriminate.
Qed.

Lemma counted_by_username :
  exists users,
    SELECT_GROUP_BY [Column "Users.username"; Aggregate COUNT counted_column alias]
                    ["Users.username"] joined
    = Ok (map (fun u => [("Users.username", get u "username"); (alias, VInt (number_of u))])
              users)
    /\ (forall u, In u users -> In u (rows (db "Users")) /\ 1 <= number_of u)
    /\ (forall c, In c (rows (db t)) ->
                  exists u, In u users /\ get u "user_id" = get c "user_id").
Proof.
  set (by_cols := ["Users.username"]).
  set (items := [Column "Users.username"; Aggregate COUNT counted_column alias]).
  set (heads := first_rows by_cols joined).
  pose (R := fun (h u : row) =>
    In u (rows (db "Users")) /\ 1 <= number_of u
    /\ map (eval_item (group_of by_cols joined h)) items
       = [("Users.username", get u "username"); (alias, VInt (number_of u))]
    /\ forall c, In c (rows (db t)) -> same_group by_cols (F c) h = true ->
                 get u "user_id" = get c "user_id").
  assert (Hin_joined : forall x, In x joined -> exists c, In c (rows (db t)) /\ x = F c).
  { intros x Hx. apply (Permutation_in _ Hjoined) in Hx. apply in_map_iff in Hx.
    destruct Hx as [c [E Hc]]. now exists c. }
  assert (Hchoice : forall h, In h heads -> exists u, R h u).
  { intros h Hh. apply first_rows_In in Hh.
    destruct (Hin_joined h Hh) as [c0 [Hc0 ->]].
    destruct (refers_to_user c0 Hc0) as [Hu0 Eu0].
    assert (Hlen : List.length (group_of by_cols joined (F c0))
                   = List.length (filter (fun c => value_eqb (get c "user_id")
                                                             (get (user_of db c0) "user_id"))
                                         (rows (db t)))).
    { unfold group_of.
      rewrite (filter_length_Permutation _ _ _ Hjoined), filter_map_swap, length_map.
      f_equal. apply filter_ext_in. intros c Hc. now apply same_user_group. }
    exists (user_of db c0). split; [assumption|]. split; [|split].
    - unfold number_of. rewrite <- Hlen.
      destruct (group_of_first by_cols joined (F c0) Hh) as [h0 [g [-> _]]].
      cbn [List.length]. lia.
    - destruct (group_of_first by_cols joined (F c0) Hh) as [h0 [g [Eg Hs]]].
      unfold items. cbn [map]. f_equal; [|f_equal].
      + rewrite Eg. cbn [eval_item]. f_equal.
        rewrite (proj1 (same_group_agree by_cols h0 (F c0)) Hs "Users.username"
                       (or_introl eq_refl)).
        apply Hname.
      + cbn [eval_item eval_aggregate]. f_equal. f_equal. unfold number_of.
        rewrite <- Hlen. rewrite filter_all; [reflexivity|]. intros x Hx.
        apply filter_In in Hx. destruct Hx as [Hx _].
        destruct (Hin_joined x Hx) as [c [Hc ->]].
        apply negb_true_iff, is_null_false. now apply Hcounted.
    - intros c Hc Hs. unfold by_cols in Hs. rewrite (same_user_group c c0 Hc Hc0) in Hs.
      apply value_eqb_eq in Hs. now rewrite Hs. }
  destruct (Forall2_choice R heads Hchoice) as [users Husers].
  exists users. split; [|split].
  - unfold SELECT_GROUP_BY. fold items. fold by_cols.
    change (find (ambiguous_item by_cols) items) with (@None select_item).
    rewrite GROUP_BY_spec, map_map. fold heads. f_equal.
    apply (Forall2_map_eq R _ _ _ _ Husers). intros h u HR. apply HR.
  - intros u Hu. destruct (Forall2_right R _ _ u Husers Hu) as [h [_ HR]].
    split; apply HR.
  - intros c Hc.
    assert (Hj : In (F c) joined)
      by (apply (Permutation_in _ (Permutation_sym Hjoined)); now apply in_map).
    pose proof (first_rows_cover by_cols joined (F c) Hj) as Hcov.
    apply existsb_exists in Hcov. destruct Hcov as [h [Hh Hs]].
    destruct (Forall2_left R _ _ h Husers Hh) as [u [Hu HR]].
    exists u. split; [assumption|]. now apply HR.
Qed.

End ByUsername.

(** X19. The query the chapter calls 'username who have most likes for
    their media items' counts the likes a user has given: in every
    reachable state its grouped rows are the users who have liked
    something, each with the number of Likes rows that carry the user's own
    [user_id], whoever owns the liked media items; with ORDER BY likes DESC
    LIMIT 1 it returns no row when there are no likes, and otherwise one
    row, of a user whom no user exceeds in likes given. *)
Theorem likes_given_are_counted (db : database) :
  reachable MediaSharingApp db ->
  let given u :=
      Z.of_nat (List.length (filter (fun l => value_eqb (get l "user_id") (get u "user_id"))
                                    (rows (db "Likes")))) in
  let counted u := [("Users.username", get u "username"); ("likes", VInt (given u))] in
  exists likers : list row,
    likes_by_username db = Ok (map counted likers)
    /\ (forall u, In u likers -> In u (rows (db "Users")) /\ 1 <= given u)
    /\ (forall l, In l (rows (db "Likes")) ->
                  exists u, In u likers /\ get u "user_id" = get l "user_id")
    /\ match likers with
       | [] => username_with_most_likes db = Ok []
       | _ :: _ =>
         exists top, In top likers
                     /\ username_with_most_likes db = Ok [counted top]
                     /\ forall u, given u <= given top
       end.
Proof.
  intros Hr given counted.
  assert (Hap : forall a b, String.eqb (String.append "Likes" (String.append "." a))
                                       (String.append "Users" (String.append "." b)) = false)
    by reflexivity.
  assert (Hl : forall l, In l (rows (db "Likes")) ->
                 get l "user_id" <> VNull
                 /\ exists u, In u (rows (db "Users")) /\ get u "user_id" = get l "user_id").
  { intros l Hin. apply (user_exists db "Likes" Likes l Hr); try assumption;
      [reflexivity | declared | declared]. }
  pose proof (join_on_key "Likes" "Users" "user_id" "user_id" _ _ Hap
                          (user_id_is_key db Hr) Hl) as Hjoin.
  cbn [String.append] in Hjoin. fold (user_of db) in Hjoin.
  destruct (counted_by_username db Hr "Likes" Likes eq_refl ltac:(declared) ltac:(declared)
              (JOIN "Likes" (rows (db "Likes")) "Users" (rows (db "Users"))
                    (fun j => sql_eq (get j "Likes.user_id") (get j "Users.user_id")))
              (fun l => qualify "Likes" l ++ qualify "Users" (user_of db l))
              ltac:(rewrite Hjoin; apply Permutation_refl)
              (fun l => get_right "Likes" "Users" Hap l (user_of db l) "username")
              "Likes.media_id" "likes")
    as [likers [Hcounts [Hlikers Hcover]]].
  { intros l Hin. rewrite (get_left "Likes" "Users" Hap l _ "media_id").
    destruct (like_has_media_id db l Hr Hin) as [m ->]. discriminate. }
  change (likes_by_username db = Ok (map counted likers)) in Hcounts.
  change (forall u, In u likers -> In u (rows (db "Users")) /\ 1 <= given u) in Hlikers.
  exists likers. split; [exact Hcounts|]. split; [exact Hlikers|].
  split; [exact Hcover|].
  unfold username_with_most_likes. rewrite Hcounts.
  destruct likers as [|u0 rest] eqn:El; [reflexivity|]. rewrite <- El in *.
  pose proof (ORDER_BY_DESC_first "likes" (map counted likers)) as Hfirst.
  assert (Hints : forall r, In r (map counted likers) -> exists z, get r "likes" = VInt z).
  { intros r Hrow. apply in_map_iff in Hrow. destruct Hrow as [u [<- _]].
    now exists (given u). }
  specialize (Hfirst Hints).
  destruct (ORDER_BY_DESC "likes" (map counted likers)) as [|x l].
  - rewrite El in Hfirst. discriminate Hfirst.
  - destruct Hfirst as [Hx Hmax].
    apply in_map_iff in Hx. destruct Hx as [top [<- Htop]].
    exists top. split; [assumption|]. split; [reflexivity|].
    intro u. unfold given at 1.
    destruct (filter (fun l => value_eqb (get l "user_id") (get u "user_id"))
                     (rows (db "Likes"))) as [|l0 ls] eqn:Ef.
    + unfold given. cbn [List.length]. lia.
    + assert (Hl0 : In l0 (filter (fun l => value_eqb (get l "user_id") (get u "user_id"))
                                  (rows (db "Likes"))))
        by (rewrite Ef; now left).
      apply filter_In in Hl0. destruct Hl0 as [Hl0 E0]. apply value_eqb_eq in E0.
      destruct (Hcover l0 Hl0) as [u' [Hu' Eu']].
      specialize (Hmax (counted u') (in_map counted likers u' Hu')).
      change (get (counted u') "likes") with (VInt (given u')) in Hmax.
      change (get (counted top) "likes") with (VInt (given top)) in Hmax.
      apply Z.leb_le in Hmax.
      assert (Hsame : given u' = given u) by (unfold given; now rewrite Eu', E0).
      rewrite <- Ef. fold (given u). lia.
Qed.

(** On the sample data the user Anon5468, who owns no media item, is listed
    with the two likes given. *)
Lemma likes_given_are_counted_witness :
  (exists likers,
     likes_by_username (seed_db 0)
     = Ok (map (fun u =>
                  [("Users.username", get u "username");
                   ("likes",
                    VInt (Z.of_nat (List.length
                       (filter (fun l => value_eqb (get l "user_id") (get u "user_id"))
                               (rows (seed_db 0 "Likes"))))))])
               likers))
  /\ likes_by_username (seed_db 0)
     = Ok [[("Users.username", VStr "JaneSmith"); ("likes", VInt 2)];
           [("Users.username", VStr "JohnDoe"); ("likes", VInt 2)];
           [("Users.username", VStr "Anon5468"); ("likes", VInt 2)]]
  /\ filter (fun m => value_eqb (get m "user_id") (VInt 3)) (rows (seed_db 0 "MediaItems"))
     = [].
Proof.
  split; [|split; reflexivity].
  destruct (likes_given_are_counted (seed_db 0) (seed_reachable 0)) as [likers [H _]].
  exists likers. exact H.
Defined.

(** The two orders of a join give the same rows. *)
Lemma join_either_way {A B C : Type} (G : A -> B -> C) (m : A -> B -> bool)
      (la : list A) (lb : list B) :
  Permutation (flat_map (fun a => map (G a) (filter (m a) lb)) la)
              (flat_map (fun b => map (fun a => G a b) (filter (fun a => m a b) la)) lb).
Proof.
  induction la as [|a la IH].
  - simpl. induction lb as [|b lb IHb]; [constructor | exact IHb].
  - cbn [flat_map].
    apply (Permutation_trans (Permutation_app_head _ IH)). clear IH.
    induction lb as [|b lb IHb]; [constructor|].
    cbn [flat_map filter].
    set (rest := flat_map (fun b0 => map (fun a0 => G a0 b0)
                                         (filter (fun a0 => m a0 b0) la)) lb) in *.
    set (rest' := flat_map (fun b0 => map (fun a0 => G a0 b0)
                                          (filter (fun a0 => m a0 b0) (a :: la))) lb) in *.
    destruct (m a b); cbn [map app].
    + apply Permutation_cons; [reflexivity|].
      apply (Permutation_trans (Permutation_app_swap_app _ _ _)).
      apply Permutation_app_head. exact IHb.
    + apply (Permutation_trans (Permutation_app_swap_app _ _ _)).
      apply Permutation_app_head. exact IHb.
Qed.

Lemma flat_map_singletons {A B : Type} (f : A -> list B) (g : A -> B) (l : list A) :
  (forall a, In a l -> f a = [g a]) -> flat_map f l = map g l.
Proof.
  induction l as [|a l IH]; intro H; [reflexivity|].
  cbn [flat_map map]. rewrite (H a (or_introl eq_refl)), IH; [reflexivity|].
  intros x Hx. apply H. now right.
Qed.

(** The join from the side of the key: a permutation of the rows of the
    other table, each with the row it refers to. *)
Lemma join_from_key (pt ct pk fk : string) (ps cs : list row) :
  (forall a b, String.eqb (String.append pt (String.append "." a))
                          (String.append ct (String.append "." b)) = false) ->
  key_collision [pk] ps = false ->
  (forall c, In c cs ->
             get c fk <> VNull /\ exists p, In p ps /\ get p pk = get c fk) ->
  Permutation
    (JOIN pt ps ct cs
          (fun j => sql_eq (get j (String.append pt (String.append "." pk)))
                           (get j (String.append ct (String.append "." fk)))))
    (map (fun c => qualify pt (match find (fun p => value_eqb (get p pk) (get c fk)) ps with
                               | Some p => p
                               | None => []
                               end)
                   ++ qualify ct c) cs).
Proof.
  intros Hap Hk Hc. unfold JOIN, WHERE.
  rewrite (flat_map_ext _ (fun p => map (fun c => qualify pt p ++ qualify ct c)
                                        (filter (fun c => value_eqb (get p pk) (get c fk)) cs))).
  2: { intro p. rewrite filter_map_swap. f_equal. apply filter_ext_in. intros c Hin.
       rewrite (get_left pt ct Hap), (get_right pt ct Hap).
       rewrite sql_eq_as_value_eqb_sym by (now apply Hc). apply value_eqb_sym. }
  apply (Permutation_trans
           (join_either_way (fun p c => qualify pt p ++ qualify ct c)
                            (fun p c => value_eqb (get p pk) (get c fk)) ps cs)).
  rewrite (flat_map_singletons _ (fun c => qualify pt (match find (fun p => value_eqb (get p pk) (get c fk)) ps with
                               | Some p => p
                               | None => []
                               end) ++ qualify ct c)); [apply Permutation_refl|].
  intros c Hin. destruct (Hc c Hin) as [Hnn Hex].
  destruct (lookup_one pk (get c fk) ps Hk Hnn Hex) as [p [Hp [Ep Ef]]].
  now rewrite find_is_first, Ef.
Qed.

(** X20. The number of media items of each user: in every reachable state
    the query lists users who own at least one media item, each with the
    number of MediaItems rows that carry the user's [user_id]; the user of
    every media item is listed, and a user without media items is not: no
    row of the result has the count 0. *)
Theorem media_items_are_counted (db : database) :
  reachable MediaSharingApp db ->
  let owned u :=
      Z.of_nat (List.length (filter (fun m => value_eqb (get m "user_id") (get u "user_id"))
                                    (rows (db "MediaItems")))) in
  exists owners : list row,
    media_items_per_user db
    = Ok (map (fun u => [("Users.username", get u "username");
                         ("NumberOfMediaItems", VInt (owned u))]) owners)
    /\ (forall u, In u owners -> In u (rows (db "Users")) /\ 1 <= owned u)
    /\ (forall m, In m (rows (db "MediaItems")) ->
                  exists u, In u owners /\ get u "user_id" = get m "user_id").
Proof.
  intros Hr owned.
  assert (Hap : forall a b, String.eqb (String.append "Users" (String.append "." a))
                                       (String.append "MediaItems" (String.append "." b))
                            = false)
    by reflexivity.
  assert (Hm : forall m, In m (rows (db "MediaItems")) ->
                 get m "user_id" <> VNull
                 /\ exists u, In u (rows (db "Users")) /\ get u "user_id" = get m "user_id").
  { intros m Hin. apply (user_exists db "MediaItems" MediaItems m Hr); try assumption;
      [reflexivity | declared | declared]. }
  pose proof (join_from_key "Users" "MediaItems" "user_id" "user_id" _ _ Hap
                            (user_id_is_key db Hr) Hm) as Hjoin.
  cbn [String.append] in Hjoin. fold (user_of db) in Hjoin.
  apply (counted_by_username db Hr "MediaItems" MediaItems eq_refl ltac:(declared)
           ltac:(declared)
           (JOIN "Users" (rows (db "Users")) "MediaItems" (rows (db "MediaItems"))
                 (fun j => sql_eq (get j "Users.user_id") (get j "MediaItems.user_id")))
           (fun m => qualify "Users" (user_of db m) ++ qualify "MediaItems" m)
           Hjoin
           (fun m => get_left "Users" "MediaItems" Hap (user_of db m) m "username")
           "MediaItems.media_id" "NumberOfMediaItems").
  intros m Hin. rewrite (get_right "Users" "MediaItems" Hap _ m "media_id").
  destruct (int_stored MediaItems m
              (col "media_id" INT [NOT_NULL; AUTO_INCREMENT; PRIMARY_KEY]))
    as [z [Ez _]]; try reflexivity.
  - apply (reachable_rows_valid _ _ Hr "MediaItems" MediaItems m);
      [reflexivity | assumption | declared].
  - simpl col_name in Ez. rewrite Ez. discriminate.
Qed.

(** On the sample data two of the four users are listed. *)
Lemma media_items_are_counted_witness :
  (exists owners,
     media_items_per_user (seed_db 0)
     = Ok (map (fun u =>
                  [("Users.username", get u "username");
                   ("NumberOfMediaItems",
                    VInt (Z.of_nat (List.length
                       (filter (fun m => value_eqb (get m "user_id") (get u "user_id"))
                               (rows (seed_db 0 "MediaItems"))))))])
               owners))
  /\ media_items_per_user (seed_db 0)
     = Ok [[("Users.username", VStr "JohnDoe"); ("NumberOfMediaItems", VInt 2)];
           [("Users.username", VStr "JaneSmith"); ("NumberOfMediaItems", VInt 2)]]
  /\ List.length (rows (seed_db 0 "Users")) = 4%nat.
Proof.
  split; [|split; reflexivity].
  destruct (media_items_are_counted (seed_db 0) (seed_reachable 0)) as [owners [H _]].
  exists owners. exact H.
Defined.

(** * GET /api/media over the database *)

(** X21. The two read handlers over the database, where error messages are
    not empty.  When table names are case sensitive the model's
    [mediaItems] is no table: [getMedia] answers 500 with the error object,
    but [getMediaById] answers 200 with it, for every id, since the error
    object is truthy.  When they are not, [getMedia] answers 200 with all
    rows of MediaItems, and in a reachable state [getMediaById] answers
    200 with the one row that has the id, and 404 when no row has it or the
    id is no integer; it never answers 500. *)
Theorem media_read_answers (number_of_text : string -> option Z)
        (message : failure -> string) (as_object : row -> js)
        (db : database) (id : string) :
  (forall e, message e <> EmptyString) ->
  let no_table :=
      Some (JObject [("error", JStr (message (server_error (NoSuchTable "mediaItems"))))]) in
  response (getMedia message as_object false db) = Some (500, no_table)
  /\ response (getMediaById number_of_text message as_object false db id)
     = Some (200, no_table)
  /\ response (getMedia message as_object true db)
     = Some (200, Some (JArray (map as_object (rows (db "MediaItems")))))
  /\ (reachable MediaSharingApp db ->
      match number_of_text id with
      | None =>
        response (getMediaById number_of_text message as_object true db id)
        = Some (404, None)
      | Some n =>
        (forall m, In m (rows (db "MediaItems")) -> get m "media_id" = VInt n ->
                   response (getMediaById number_of_text message as_object true db id)
                   = Some (200, Some (as_object m)))
        /\ ((forall m, In m (rows (db "MediaItems")) -> get m "media_id" <> VInt n) ->
            response (getMediaById number_of_text message as_object true db id)
            = Some (404, None))
      end).
Proof.
  intros Hmsg no_table. split; [|split; [|split]].
  - unfold getMedia.
    change (listAllMedia false db)
      with (@inr (list row) failure (server_error (NoSuchTable "mediaItems"))).
    cbv beta iota. now rewrite (truthy_message _ (Hmsg _)).
  - reflexivity.
  - reflexivity.
  - intro Hr. unfold getMediaById, findMediaById.
    change (select_all MediaSharingApp db (table_named true MediaSharingApp "mediaItems"))
      with (Ok (rows (db "MediaItems"))).
    cbv beta iota.
    destruct (number_of_text id) as [n|].
    + pose proof (key_lookup_at_most_one "media_id" (VInt n) (rows (db "MediaItems"))
                    (reachable_keys_valid _ _ Hr "MediaItems" MediaItems ["media_id"]
                                          eq_refl ltac:(declared))) as Hlen.
      split.
      * intros m Hm Em.
        assert (Hin : In m (WHERE (fun m => sql_eq (get m "media_id") (VInt n))
                                  (rows (db "MediaItems")))).
        { apply filter_In. split; [assumption|]. rewrite Em. simpl.
          now rewrite Z.eqb_refl. }
        destruct (WHERE (fun m => sql_eq (get m "media_id") (VInt n))
                        (rows (db "MediaItems"))) as [|m' [|m'' l]].
        -- destruct Hin.
        -- destruct Hin as [->|[]]. reflexivity.
        -- simpl in Hlen. lia.
      * intro Hnone. unfold WHERE. rewrite filter_none; [reflexivity|].
        intros m Hm. specialize (Hnone m Hm).
        rewrite sql_eq_with_value by discriminate.
        destruct (value_eqb (get m "media_id") (VInt n)) eqn:E; [|reflexivity].
        apply value_eqb_eq in E. contradiction.
    + unfold WHERE. rewrite filter_none; [reflexivity|]. reflexivity.
Qed.

(** The second media item of the sample data, and an id that no row has. *)
Lemma media_read_answers_witness :
  response (getMediaById (fun id => if String.eqb id "2" then Some 2 else Some 0)
                         (fun _ => "rejected") (fun m => JObject [("title", JStr "row")])
                         false (seed_db 0) "2")
  = Some (200, Some (JObject [("error", JStr "rejected")]))
  /\ response (getMediaById (fun id => if String.eqb id "2" then Some 2 else Some 0)
                            (fun _ => "rejected") (fun m => JObject [("title", JStr "row")])
                            true (seed_db 0) "7")
     = Some (404, None).
Proof.
  split.
  - refine (proj1 (proj2 (media_read_answers _ (fun _ => "rejected") _ (seed_db 0) "2" _))).
    intros _. discriminate.
  - refine (proj2 (proj2 (proj2 (proj2
              (media_read_answers (fun id => if String.eqb id "2" then Some 2 else Some 0)
                 (fun _ => "rejected") (fun m => JObject [("title", JStr "row")])
                 (seed_db 0) "7" _))) (seed_reachable 0)) _).
    + intros _. discriminate.
    + intros m Hm. vm_compute in Hm.
      destruct Hm as [<-|[<-|[<-|[<-|[]]]]]; vm_compute; discriminate.
Defined.

(** * Grouping a text column *)

Lemma filter_swap {A : Type} (p q : A -> bool) (l : list A) :
  filter p (filter q l) = filter q (filter p l).
Proof.
  induction l as [|a l IH]; simpl; [reflexivity|].
  destruct (q a) eqn:Eq, (p a) eqn:Ep; simpl; rewrite ?Eq, ?Ep, IH; reflexivity.
Qed.

Section Firsts.

Context {A : Type} (same : A -> A -> bool).
Hypothesis same_refl : forall x, same x x = true.
Hypothesis same_sym : forall x y, same x y = same y x.
Hypothesis same_trans :
  forall x y z, same x y = true -> same y z = true -> same x z = true.

(** Equal elements are equal to the same elements. *)
Lemma same_subst (x y z : A) : same x y = true -> same z x = same z y.
Proof.
  intro H. destruct (same z y) eqn:E.
  - apply (same_trans z y x); [assumption|]. now rewrite same_sym.
  - destruct (same z x) eqn:E1; [|reflexivity].
    rewrite (same_trans z x y E1 H) in E. discriminate.
Qed.

Lemma firsts_In (h : A) (l : list A) : In h (firsts same l) -> In h l.
Proof.
  induction l as [|a l IH]; simpl; [tauto|].
  intros [<-|H]; [now left|]. right. apply IH. apply filter_In in H. tauto.
Qed.

(** Every element is equal to one of the first. *)
Lemma firsts_cover (x : A) (l : list A) :
  In x l -> exists h, In h (firsts same l) /\ same x h = true.
Proof.
  induction l as [|a l IH]; simpl; [intros []|].
  intros [<-|H].
  - exists a. split; [now left | apply same_refl].
  - destruct (IH H) as [h [Hh Hx]]. destruct (same h a) eqn:E.
    + exists a. split; [now left|]. now apply (same_trans x h a).
    + exists h. split; [|assumption]. right. apply filter_In.
      split; [assumption|]. now rewrite E.
Qed.

(** No two of the first are equal. *)
Lemma firsts_once (h : A) (l : list A) :
  In h (firsts same l) -> filter (fun h' => same h' h) (firsts same l) = [h].
Proof.
  induction l as [|a l IH]; simpl; [intros []|].
  intros [<-|H].
  - rewrite same_refl. f_equal. apply filter_none. intros y Hy.
    apply filter_In in Hy. destruct Hy as [_ Hy]. now apply negb_true_iff in Hy.
  - apply filter_In in H. destruct H as [H Hn]. apply negb_true_iff in Hn.
    rewrite (same_sym a h), Hn.
    rewrite filter_swap, (IH H). simpl. now rewrite Hn.
Qed.

End Firsts.

Section SameGroupUnder.

Variable co : collation.
Hypothesis Hco : equivalence co.
Variable by_cols : list string.

Lemma same_group_under_refl (r : row) : same_group_under co by_cols r r = true.
Proof. apply forallb_forall. intros c _. now apply value_eqb_under_refl. Qed.

Lemma same_group_under_sym (r r' : row) :
  same_group_under co by_cols r r' = same_group_under co by_cols r' r.
Proof. apply forallb_same. intros c _. now apply value_eqb_under_sym. Qed.

Lemma same_group_under_trans (r1 r2 r3 : row) :
  same_group_under co by_cols r1 r2 = true -> same_group_under co by_cols r2 r3 = true ->
  same_group_under co by_cols r1 r3 = true.
Proof.
  unfold same_group_under. rewrite !forallb_forall. intros H1 H2 c Hc.
  apply (value_eqb_under_trans co _ (get r2 c)); auto.
Qed.

(** Rows of one group have the same group. *)
Lemma class_of_same (rs : list row) (r h : row) :
  same_group_under co by_cols r h = true ->
  class_of co by_cols rs r = class_of co by_cols rs h.
Proof.
  intro H. unfold class_of. apply filter_ext. intro x.
  apply (same_subst _ same_group_under_sym same_group_under_trans). exact H.
Qed.

Lemma class_of_In (rs : list row) (h : row) : In h rs -> In h (class_of co by_cols rs h).
Proof. intro H. apply filter_In. split; [assumption | apply same_group_under_refl]. Qed.

End SameGroupUnder.

(** The grouped rows of a lawful server: the groups that a condition keeps,
    one row for each, in the order of the server. *)
Section Grouped.

Variable srv : server.
Hypothesis Hsrv : lawful srv.
Variable by_cols : list string.
Variable rs : list row.

Local Abbreviation same := (same_group_under (collate srv) by_cols).
Local Abbreviation class := (class_of (collate srv) by_cols rs).

(** The value returned for a column is its value in a row of the group. *)
Lemma any_value_in_class (c : string) (h : row) :
  In h rs ->
  exists r, In r rs /\ same r h = true /\ any_value srv c (class h) = get r c.
Proof.
  intro Hh.
  destruct (any_value_of_group srv Hsrv c (class h)) as [r [Hr Er]].
  - intro E. pose proof (class_of_In _ (collate_equivalence srv Hsrv) by_cols rs h Hh) as H.
    rewrite E in H. destruct H.
  - apply filter_In in Hr. exists r. tauto.
Qed.

Variable keep : list row -> bool.
Variable out : list row -> row.

Local Abbreviation grouped :=
  (unordered srv (map out (filter keep (groups (collate srv) by_cols rs)))).

(** The row returned for a group is in the group, as far as the grouping
    columns go. *)
Hypothesis out_in_class : forall h, In h rs -> same (out (class h)) h = true.

Lemma grouped_In (x : row) :
  In x grouped
  <-> exists h, In h (firsts same rs) /\ keep (class h) = true /\ x = out (class h).
Proof.
  split.
  - intro H.
    apply (Permutation_in _ (Permutation_sym (unordered_Permutation srv Hsrv _))) in H.
    apply in_map_iff in H. destruct H as [g [<- Hg]].
    apply filter_In in Hg. destruct Hg as [Hg Hk].
    unfold groups in Hg. apply in_map_iff in Hg. destruct Hg as [h [<- Hh]].
    exists h. repeat split; assumption.
  - intros [h [Hh [Hk ->]]]. apply (Permutation_in _ (unordered_Permutation srv Hsrv _)).
    apply in_map_iff. exists (class h). split; [reflexivity|].
    apply filter_In. split; [|assumption].
    unfold groups. apply in_map_iff. now exists h.
Qed.

(** Every row of a group that is kept is in one group with a row that is
    returned. *)
Lemma grouped_cover (r : row) :
  In r rs -> keep (class r) = true -> exists x, In x grouped /\ same r x = true.
Proof.
  intros Hr Hk.
  pose proof (collate_equivalence srv Hsrv) as Hco.
  destruct (firsts_cover same (same_group_under_refl _ Hco by_cols)
                         (same_group_under_trans _ Hco by_cols) r rs Hr) as [h [Hh Hs]].
  exists (out (class h)). split.
  - apply grouped_In. exists h. split; [assumption|]. split; [|reflexivity].
    now rewrite <- (class_of_same _ Hco by_cols rs r h Hs).
  - apply (same_group_under_trans _ Hco by_cols r h); [assumption|].
    rewrite same_group_under_sym by assumption. apply out_in_class.
    apply (firsts_In same). exact Hh.
Qed.

(** No two rows that are returned are in one group. *)
Lemma grouped_once (x : row) :
  In x grouped -> List.length (filter (fun x' => same x' x) grouped) = 1%nat.
Proof.
  intro Hx. apply grouped_In in Hx. destruct Hx as [h0 [Hh0 [Hk0 ->]]].
  pose proof (collate_equivalence srv Hsrv) as Hco.
  rewrite <- (filter_length_Permutation _ _ _ (unordered_Permutation srv Hsrv _)).
  unfold groups. rewrite (filter_map_swap keep), map_map, filter_map_swap, length_map.
  rewrite (filter_ext_in _ (fun h => same h h0)).
  - rewrite filter_swap.
    rewrite (firsts_once same (same_group_under_refl _ Hco by_cols)
                         (same_group_under_sym _ Hco by_cols) h0 rs Hh0).
    simpl. now rewrite Hk0.
  - intros h Hh. apply filter_In in Hh. destruct Hh as [Hh _].
    apply (firsts_In same) in Hh. apply (firsts_In same) in Hh0.
    rewrite (same_subst same (same_group_under_sym _ Hco by_cols)
                        (same_group_under_trans _ Hco by_cols)
                        (out (class h0)) h0 (out (class h)) (out_in_class h0 Hh0)).
    rewrite (same_group_under_sym _ Hco by_cols (out (class h)) h0).
    rewrite (same_subst same (same_group_under_sym _ Hco by_cols)
                        (same_group_under_trans _ Hco by_cols)
                        (out (class h)) h h0 (out_in_class h Hh)).
    apply same_group_under_sym. exact Hco.
Qed.

End Grouped.

Lemma plain_server_lawful (mode : bool) : lawful (plain_server mode).
Proof.
  split.
  - apply ascii_ci_equivalence.
  - intros c [|r g] Hg; [now elim Hg|]. exists r. split; [now left | reflexivity].
  - intro t. apply Permutation_refl.
Qed.

(** ** Ungrouped columns *)

(** C6, the claim as stated fails: on a server with the defaults of MariaDB,
    which does not set ONLY_FULL_GROUP_BY, the query of the chapter is not
    rejected: over the sample data it returns a row for each media type,
    here with the file size of the first item of the type. *)
Lemma ungrouped_filesize_returned :
  only_full_group_by (plain_server false) = false
  /\ media_type_with_filesize (plain_server false) (seed_db 0)
     = Ok [[("media_type", VStr "image/jpeg"); ("filesize", VInt 1024)];
           [("media_type", VStr "video/mp4"); ("filesize", VInt 20480)]].
Proof. split; vm_compute; reflexivity. Qed.

(** C6, amended: a query that groups MediaItems by [media_type] and selects
    another column of the table, neither grouped nor inside an aggregate,
    is rejected with AmbiguousProjection when the [sql_mode] of the server
    has ONLY_FULL_GROUP_BY.  When it has not, the query returns a result
    set; on a lawful server this has one row for each media type, made of
    the type of an item and of the value of the column in an item of that
    type. *)
Theorem ambiguous_projection_rejected :
  forall srv db c,
    In c (map col_name (tbl_cols MediaItems)) -> c <> "media_type" ->
    (only_full_group_by srv = true ->
     media_type_with srv c db = Err (AmbiguousProjection c))
    /\ (only_full_group_by srv = false ->
        exists t,
          media_type_with srv c db = Ok t
          /\ (lawful srv ->
              let items := rows (db "MediaItems") in
              let one_media_type := same_group_under (collate srv) ["media_type"] in
              (forall x, In x t ->
                 exists m m',
                   In m items /\ In m' items /\ one_media_type m m' = true
                   /\ x = [("media_type", get m "media_type"); (c, get m' c)])
              /\ (forall m, In m items -> exists x, In x t /\ one_media_type m x = true)
              /\ (forall x, In x t ->
                    List.length (filter (fun x' => one_media_type x' x) t) = 1%nat))).
Proof.
  intros srv db c _ Hc.
  assert (Hamb : find (ambiguous_item ["media_type"]) [Column "media_type"; Column c]
                 = Some (Column c)).
  { simpl. destruct (String.eqb_spec c "media_type"); [contradiction | reflexivity]. }
  unfold media_type_with, SELECT_GROUP_BY_HAVING. split; intros ->.
  - now rewrite Hamb.
  - eexists. split; [reflexivity|]. intros Hsrv.
    set (items := rows (db "MediaItems")).
    set (one_media_type := same_group_under (collate srv) ["media_type"]).
    pose proof (collate_equivalence srv Hsrv) as Hco.
    set (out := fun g : list row => [("media_type", any_value srv "media_type" g);
                                     (c, any_value srv c g)]).
    change (fun g => map (select_item_under srv g) [Column "media_type"; Column c])
      with out.
    change (fun g : list row => sql_true (every_group g)) with (fun _ : list row => true).
    assert (Hout : forall h, In h items ->
                             one_media_type (out (class_of (collate srv) ["media_type"] items h))
                                            h = true).
    { intros h Hh.
      destruct (any_value_in_class srv Hsrv ["media_type"] items "media_type" h Hh)
        as [r [_ [Hs E]]].
      unfold one_media_type, same_group_under, out in *. simpl in *. now rewrite E. }
    split; [|split].
    + intros x Hx.
      apply (grouped_In srv Hsrv ["media_type"] items (fun _ => true) out) in Hx.
      destruct Hx as [h [Hh [_ ->]]].
      apply (firsts_In (same_group_under (collate srv) ["media_type"])) in Hh.
      destruct (any_value_in_class srv Hsrv ["media_type"] items "media_type" h Hh)
        as [m [Hm [Hs E]]].
      destruct (any_value_in_class srv Hsrv ["media_type"] items c h Hh)
        as [m' [Hm' [Hs' E']]].
      exists m, m'. split; [assumption|]. split; [assumption|]. split.
      * apply (same_group_under_trans _ Hco _ m h m' Hs).
        now rewrite same_group_under_sym.
      * unfold out. now rewrite E, E'.
    + intros m Hm.
      apply (grouped_cover srv Hsrv ["media_type"] items (fun _ => true) out Hout m Hm
                           eq_refl).
    + intros x Hx.
      apply (grouped_once srv Hsrv ["media_type"] items (fun _ => true) out Hout x Hx).
Qed.

(** The query with [filesize], on a server that sets ONLY_FULL_GROUP_BY and
    on one that does not. *)
Lemma ambiguous_projection_rejected_witness :
  media_type_with_filesize (plain_server true) (seed_db 0)
  = Err (AmbiguousProjection "filesize")
  /\ exists t,
      media_type_with_filesize (plain_server false) (seed_db 0) = Ok t
      /\ forall m, In m (rows (seed_db 0 "MediaItems")) ->
                   exists x, In x t /\ same_group_under ascii_ci ["media_type"] m x = true.
Proof.
  split.
  - apply (proj1 (ambiguous_projection_rejected (plain_server true) (seed_db 0) "filesize"
                    ltac:(declared) ltac:(discriminate)) eq_refl).
  - destruct (proj2 (ambiguous_projection_rejected (plain_server false) (seed_db 0) "filesize"
                       ltac:(declared) ltac:(discriminate)) eq_refl) as [t [Ht H]].
    exists t. split; [exact Ht|].
    exact (proj1 (proj2 (H (plain_server_lawful false)))).
Defined.

(** ** DISTINCT and GROUP BY *)

(** A row made of the values returned for the grouping columns is in its
    group. *)
Lemma out_in_class_columns (srv : server) (by_cols : list string) (rs : list row)
      (out : list row -> row) :
  lawful srv ->
  (forall g c, In c by_cols -> get (out g) c = any_value srv c g) ->
  forall h, In h rs ->
            same_group_under (collate srv) by_cols
                             (out (class_of (collate srv) by_cols rs h)) h = true.
Proof.
  intros Hsrv Hget h Hh. unfold same_group_under at 1. apply forallb_forall. intros c Hc.
  rewrite (Hget _ c Hc).
  destruct (any_value_in_class srv Hsrv by_cols rs c h Hh) as [r [_ [Hs E]]].
  rewrite E. unfold same_group_under in Hs. rewrite forallb_forall in Hs. now apply Hs.
Qed.

Lemma distinct_as_grouped (srv : server) (c : string) (rs : list row) :
  SELECT_DISTINCT srv c rs
  = unordered srv
      (map (fun g => [(c, any_value srv c g)])
           (filter (fun _ => true)
                   (groups (collate srv) [c] (map (fun r => [(c, get r c)]) rs)))).
Proof.
  unfold SELECT_DISTINCT. rewrite (filter_all (fun _ => true)); [reflexivity|].
  intros g _. reflexivity.
Qed.

(** X7. "With one column GROUP BY works similarly to DISTINCT": on a lawful
    server, whatever its collation and the order of its results,
    [SELECT DISTINCT media_type FROM MediaItems] and
    [SELECT media_type FROM MediaItems GROUP BY media_type] both return rows
    made of the media type of an item, one for each media type: every item
    has the type of one of the rows, as the collation sees it, and no two
    rows have one type.  Grouped by [media_type] and [filesize], the rows
    are made of the type and the size of items that agree on both, one for
    each pair of a type and a size. *)
Theorem group_by_is_distinct (srv : server) (db : database) :
  lawful srv ->
  let items := rows (db "MediaItems") in
  let one_media_type := same_group_under (collate srv) ["media_type"] in
  let one_type_and_size := same_group_under (collate srv) ["media_type"; "filesize"] in
  let lists_once (same : row -> row -> bool) (t : list row) :=
      (forall m, In m items -> exists x, In x t /\ same m x = true)
      /\ (forall x, In x t -> List.length (filter (fun x' => same x' x) t) = 1%nat) in
  let lists_types (t : list row) :=
      forall x, In x t -> exists m, In m items /\ x = [("media_type", get m "media_type")] in
  (lists_once one_media_type (distinct_media_types srv db)
   /\ lists_types (distinct_media_types srv db))
  /\ (exists t, media_types srv db = Ok t /\ lists_once one_media_type t /\ lists_types t)
  /\ (exists t,
        media_types_and_sizes srv db = Ok t
        /\ lists_once one_type_and_size t
        /\ forall x, In x t ->
                     exists m m',
                       In m items /\ In m' items /\ one_type_and_size m m' = true
                       /\ x = [("media_type", get m "media_type");
                               ("filesize", get m' "filesize")]).
Proof.
  intros Hsrv items one_media_type one_type_and_size lists_once lists_types.
  pose proof (collate_equivalence srv Hsrv) as Hco.
  split; [|split].
  - unfold distinct_media_types. rewrite distinct_as_grouped. fold items.
    set (projected := map (fun r => [("media_type", get r "media_type")]) items).
    set (out := fun g : list row => [("media_type", any_value srv "media_type" g)]).
    assert (Hout : forall h, In h projected ->
                             one_media_type
                               (out (class_of (collate srv) ["media_type"] projected h)) h
                             = true).
    { apply out_in_class_columns; [assumption|]. intros g c [<-|[]]. reflexivity. }
    split; [split|].
    + intros m Hm.
      destruct (grouped_cover srv Hsrv ["media_type"] projected (fun _ => true) out Hout
                              [("media_type", get m "media_type")])
        as [x [Hx Hs]];
        [unfold projected; apply in_map_iff; exists m; now split | reflexivity |].
      exists x. split; [assumption | exact Hs].
    + apply (grouped_once srv Hsrv ["media_type"] projected (fun _ => true) out Hout).
    + intros x Hx.
      apply (grouped_In srv Hsrv ["media_type"] projected (fun _ => true) out) in Hx.
      destruct Hx as [h [Hh [_ ->]]].
      apply (firsts_In (same_group_under (collate srv) ["media_type"])) in Hh.
      destruct (any_value_in_class srv Hsrv ["media_type"] projected "media_type" h Hh)
        as [r [Hr [_ E]]].
      apply in_map_iff in Hr. destruct Hr as [m [<- Hm]].
      exists m. split; [assumption|]. unfold out. now rewrite E.
  - unfold media_types, SELECT_GROUP_BY_HAVING. fold items.
    change (find (ambiguous_item ["media_type"]) [Column "media_type"])
      with (@None select_item).
    replace (if only_full_group_by srv then None else None) with (@None select_item)
      by now destruct (only_full_group_by srv).
    eexists. split; [reflexivity|].
    set (out := fun g : list row => [("media_type", any_value srv "media_type" g)]).
    change (fun g => map (select_item_under srv g) [Column "media_type"]) with out.
    change (fun g : list row => sql_true (every_group g)) with (fun _ : list row => true).
    assert (Hout : forall h, In h items ->
                             one_media_type
                               (out (class_of (collate srv) ["media_type"] items h)) h
                             = true).
    { apply out_in_class_columns; [assumption|]. intros g c [<-|[]]. reflexivity. }
    split; [split|].
    + intros m Hm.
      apply (grouped_cover srv Hsrv ["media_type"] items (fun _ => true) out Hout m Hm
                           eq_refl).
    + apply (grouped_once srv Hsrv ["media_type"] items (fun _ => true) out Hout).
    + intros x Hx.
      apply (grouped_In srv Hsrv ["media_type"] items (fun _ => true) out) in Hx.
      destruct Hx as [h [Hh [_ ->]]].
      apply (firsts_In (same_group_under (collate srv) ["media_type"])) in Hh.
      destruct (any_value_in_class srv Hsrv ["media_type"] items "media_type" h Hh)
        as [m [Hm [_ E]]].
      exists m. split; [assumption|]. unfold out. now rewrite E.
  - unfold media_types_and_sizes, SELECT_GROUP_BY_HAVING. fold items.
    change (find (ambiguous_item ["media_type"; "filesize"])
                 [Column "media_type"; Column "filesize"])
      with (@None select_item).
    replace (if only_full_group_by srv then None else None) with (@None select_item)
      by now destruct (only_full_group_by srv).
    eexists. split; [reflexivity|].
    set (out := fun g : list row => [("media_type", any_value srv "media_type" g);
                                     ("filesize", any_value srv "filesize" g)]).
    change (fun g => map (select_item_under srv g) [Column "media_type"; Column "filesize"])
      with out.
    change (fun g : list row => sql_true (every_group g)) with (fun _ : list row => true).
    assert (Hout : forall h, In h items ->
                             one_type_and_size
                               (out (class_of (collate srv) ["media_type"; "filesize"]
                                              items h)) h
                             = true).
    { apply out_in_class_columns; [assumption|]. intros g c [<-|[<-|[]]]; reflexivity. }
    split; [split|].
    + intros m Hm.
      apply (grouped_cover srv Hsrv ["media_type"; "filesize"] items (fun _ => true) out
                           Hout m Hm eq_refl).
    + apply (grouped_once srv Hsrv ["media_type"; "filesize"] items (fun _ => true) out
                          Hout).
    + intros x Hx.
      apply (grouped_In srv Hsrv ["media_type"; "filesize"] items (fun _ => true) out)
        in Hx.
      destruct Hx as [h [Hh [_ ->]]].
      apply (firsts_In (same_group_under (collate srv) ["media_type"; "filesize"])) in Hh.
      destruct (any_value_in_class srv Hsrv ["media_type"; "filesize"] items
                                   "media_type" h Hh) as [m [Hm [Hs E]]].
      destruct (any_value_in_class srv Hsrv ["media_type"; "filesize"] items
                                   "filesize" h Hh) as [m' [Hm' [Hs' E']]].
      exists m, m'. split; [assumption|]. split; [assumption|]. split.
      * apply (same_group_under_trans _ Hco _ m h m' Hs).
        now rewrite same_group_under_sym.
      * unfold out. now rewrite E, E'.
Qed.

(** The sample data and an item of type IMAGE/JPEG, on a server that does
    not tell it from image/jpeg. *)
Lemma group_by_is_distinct_witness :
  (exists t,
     media_types (plain_server true)
                 (fst (exec MediaSharingApp 0 (seed_db 0)
                            (insert_media (VInt 1) (VStr "b2c4.jpg") (VInt 4096)
                                          (VStr "IMAGE/JPEG") (VStr "Harbour") VNull)))
     = Ok t
     /\ forall x, In x t ->
                  List.length
                    (filter (fun x' => same_group_under ascii_ci ["media_type"] x' x) t)
                  = 1%nat)
  /\ media_types (plain_server true)
                 (fst (exec MediaSharingApp 0 (seed_db 0)
                            (insert_media (VInt 1) (VStr "b2c4.jpg") (VInt 4096)
                                          (VStr "IMAGE/JPEG") (VStr "Harbour") VNull)))
     = Ok [[("media_type", VStr "image/jpeg")]; [("media_type", VStr "video/mp4")]].
Proof.
  split.
  - destruct (proj1 (proj2 (group_by_is_distinct
                              (plain_server true)
                              (fst (exec MediaSharingApp 0 (seed_db 0)
                                         (insert_media (VInt 1) (VStr "b2c4.jpg") (VInt 4096)
                                                       (VStr "IMAGE/JPEG") (VStr "Harbour")
                                                       VNull)))
                              (plain_server_lawful true))))
      as [t [Ht [[_ Honce] _]]].
    exists t. split; [exact Ht | exact Honce].
  - vm_compute. reflexivity.
Defined.

(** ** HAVING *)

Lemma value_eqb_under_null (co : collation) (a b : value) :
  value_eqb_under co a b = true -> is_null a = is_null b.
Proof. destruct a, b; simpl; congruence. Qed.

(** COUNT(c) over a group of GROUP BY c: its size, or 0 for the group of the
    rows where [c] is NULL. *)
Lemma count_of_class (co : collation) (c : string) (rs : list row) (h : row) :
  eval_aggregate COUNT c (class_of co [c] rs h)
  = VInt (if is_null (get h c) then 0
          else Z.of_nat (List.length (class_of co [c] rs h))).
Proof.
  simpl. f_equal.
  assert (Hg : forall x, In x (class_of co [c] rs h) -> is_null (get x c) = is_null (get h c)).
  { intros x Hx. apply filter_In in Hx. destruct Hx as [_ Hx].
    unfold same_group_under in Hx. simpl in Hx. rewrite andb_true_r in Hx.
    now apply (value_eqb_under_null co). }
  destruct (is_null (get h c)) eqn:En.
  - rewrite filter_none; [reflexivity|]. intros x Hx. now rewrite (Hg x Hx).
  - rewrite filter_all; [reflexivity|]. intros x Hx. now rewrite (Hg x Hx).
Qed.

(** The groups that HAVING COUNT(media_type) > 1 keeps. *)
Lemma having_on_class (co : collation) (rs : list row) (h : row) :
  sql_true (sql_gt (eval_aggregate COUNT "media_type" (class_of co ["media_type"] rs h))
                   (VInt 1)) = true
  <-> get h "media_type" <> VNull
      /\ (2 <= List.length (class_of co ["media_type"] rs h))%nat.
Proof.
  rewrite count_of_class.
  destruct (is_null (get h "media_type")) eqn:En; unfold sql_gt, sql_true.
  - split; [discriminate|]. intros [Hn _]. apply is_null_false in Hn. congruence.
  - apply is_null_false in En.
    destruct (Z.ltb_spec 1 (Z.of_nat (List.length (class_of co ["media_type"] rs h)))).
    + split; [|reflexivity]. intros _. split; [assumption | lia].
    + split; [discriminate|]. intros [_ H']. lia.
Qed.

(** X8. The two HAVING queries of the chapter, on a lawful server, whatever
    its collation and the order of its results: both return one row for
    each media type that is not NULL and that more than one media item has,
    as the collation sees it; the media type of a row is the type of one of
    these items, and [count], in the second query, is their number. *)
Theorem having_keeps_repeated_types (srv : server) (db : database) :
  lawful srv ->
  let items := rows (db "MediaItems") in
  let one_media_type := same_group_under (collate srv) ["media_type"] in
  let number_of (x : row) := List.length (filter (fun m => one_media_type m x) items) in
  let lists_the_repeated_types (t : list row) :=
      (forall x, In x t ->
         get x "media_type" <> VNull /\ (2 <= number_of x)%nat
         /\ exists m, In m items /\ get m "media_type" = get x "media_type")
      /\ (forall m, In m items -> get m "media_type" <> VNull -> (2 <= number_of m)%nat ->
            exists x, In x t /\ one_media_type m x = true)
      /\ (forall x, In x t ->
            List.length (filter (fun x' => one_media_type x' x) t) = 1%nat) in
  (exists t,
     media_types_with_several_items srv db = Ok t
     /\ lists_the_repeated_types t
     /\ forall x, In x t -> x = [("media_type", get x "media_type")])
  /\ (exists t,
        media_types_and_counts_of_several srv db = Ok t
        /\ lists_the_repeated_types t
        /\ forall x, In x t ->
                     x = [("media_type", get x "media_type");
                          ("count", VInt (Z.of_nat (number_of x)))]).
Proof.
  intros Hsrv items one_media_type number_of lists_the_repeated_types.
  pose proof (collate_equivalence srv Hsrv) as Hco.
  set (keep := fun g : list row =>
                 sql_true (sql_gt (eval_aggregate COUNT "media_type" g) (VInt 1))).
  assert (Hnone : forall its : list select_item,
             find (ambiguous_item ["media_type"]) its = None ->
             (if only_full_group_by srv then find (ambiguous_item ["media_type"]) its
              else None) = None).
  { intros its ->. now destruct (only_full_group_by srv). }
  (* what the two select lists have in common *)
  assert (Hlists : forall out : list row -> row,
             (forall g, get (out g) "media_type" = any_value srv "media_type" g) ->
             lists_the_repeated_types
               (unordered srv (map out (filter keep
                                          (groups (collate srv) ["media_type"] items))))
             /\ forall x,
                 In x (unordered srv (map out (filter keep
                                                 (groups (collate srv) ["media_type"]
                                                         items)))) ->
                 exists h, In h items /\ get h "media_type" <> VNull
                           /\ x = out (class_of (collate srv) ["media_type"] items h)
                           /\ number_of x
                              = List.length (class_of (collate srv) ["media_type"] items h)).
  { intros out Hget.
    assert (Hout : forall h, In h items ->
                             one_media_type
                               (out (class_of (collate srv) ["media_type"] items h)) h
                             = true).
    { apply out_in_class_columns; [assumption|]. intros g c [<-|[]]. apply Hget. }
    assert (Hrow : forall x,
               In x (unordered srv (map out (filter keep
                                               (groups (collate srv) ["media_type"]
                                                       items)))) ->
               exists h, In h items /\ get h "media_type" <> VNull
                         /\ (2 <= List.length (class_of (collate srv) ["media_type"]
                                                        items h))%nat
                         /\ x = out (class_of (collate srv) ["media_type"] items h)
                         /\ number_of x
                            = List.length (class_of (collate srv) ["media_type"] items h)).
    { intros x Hx.
      apply (grouped_In srv Hsrv ["media_type"] items keep out) in Hx.
      destruct Hx as [h [Hh [Hk ->]]].
      apply (firsts_In (same_group_under (collate srv) ["media_type"])) in Hh.
      apply having_on_class in Hk. destruct Hk as [Hn Hc].
      exists h. split; [assumption|]. split; [assumption|]. split; [assumption|].
      split; [reflexivity|].
      unfold number_of.
      change (filter (fun m => one_media_type m ?x) items)
        with (class_of (collate srv) ["media_type"] items x).
      now rewrite (class_of_same _ Hco ["media_type"] items _ h (Hout h Hh)). }
    split; [split; [|split]|].
    - intros x Hx. destruct (Hrow x Hx) as [h [Hh [Hn [Hc [-> Hnum]]]]].
      destruct (any_value_in_class srv Hsrv ["media_type"] items "media_type" h Hh)
        as [r [Hr [Hs E]]].
      rewrite Hget, E.
      unfold same_group_under in Hs. simpl in Hs. rewrite andb_true_r in Hs.
      split; [|split].
      + apply is_null_false. rewrite (value_eqb_under_null _ _ _ Hs).
        now apply is_null_false.
      + rewrite Hnum. exact Hc.
      + now exists r.
    - intros m Hm Hn Hc.
      apply (grouped_cover srv Hsrv ["media_type"] items keep out Hout m Hm).
      apply having_on_class. split; assumption.
    - apply (grouped_once srv Hsrv ["media_type"] items keep out Hout).
    - intros x Hx. destruct (Hrow x Hx) as [h [Hh [Hn [_ [E Hnum]]]]].
      exists h. repeat split; assumption. }
  split.
  - unfold media_types_with_several_items, SELECT_GROUP_BY_HAVING. fold items.
    rewrite (Hnone [Column "media_type"] eq_refl).
    eexists. split; [reflexivity|].
    set (out := fun g : list row => [("media_type", any_value srv "media_type" g)]).
    change (fun g => map (select_item_under srv g) [Column "media_type"]) with out.
    fold keep.
    destruct (Hlists out (fun g => eq_refl)) as [Hl Hrow].
    split; [exact Hl|].
    intros x Hx. destruct (Hrow x Hx) as [h [_ [_ [-> _]]]]. reflexivity.
  - unfold media_types_and_counts_of_several, SELECT_GROUP_BY_HAVING. fold items.
    rewrite (Hnone [Column "media_type"; Aggregate COUNT "media_type" "count"] eq_refl).
    eexists. split; [reflexivity|].
    set (out := fun g : list row => [("media_type", any_value srv "media_type" g);
                                     ("count", eval_aggregate COUNT "media_type" g)]).
    change (fun g => map (select_item_under srv g)
                         [Column "media_type"; Aggregate COUNT "media_type" "count"])
      with out.
    change (fun g : list row =>
              sql_true (sql_gt (snd (select_item_under
                                       srv g (Aggregate COUNT "media_type" "count")))
                               (VInt 1)))
      with keep.
    destruct (Hlists out (fun g => eq_refl)) as [Hl Hrow].
    split; [exact Hl|].
    intros x Hx. destruct (Hrow x Hx) as [h [Hh [Hn [E Hnum]]]].
    rewrite Hnum. rewrite E at 1. unfold out at 1. rewrite count_of_class.
    apply is_null_false in Hn. rewrite Hn. rewrite E. reflexivity.
Qed.

(** The sample data and an item of type IMAGE/JPEG, on a server that does
    not tell it from image/jpeg: four items are of that type. *)
Lemma having_keeps_repeated_types_witness :
  (exists t,
     media_types_and_counts_of_several
       (plain_server true)
       (fst (exec MediaSharingApp 0 (seed_db 0)
                  (insert_media (VInt 1) (VStr "b2c4.jpg") (VInt 4096)
                                (VStr "IMAGE/JPEG") (VStr "Harbour") VNull)))
     = Ok t
     /\ forall x, In x t -> get x "media_type" <> VNull)
  /\ media_types_and_counts_of_several
       (plain_server true)
       (fst (exec MediaSharingApp 0 (seed_db 0)
                  (insert_media (VInt 1) (VStr "b2c4.jpg") (VInt 4096)
                                (VStr "IMAGE/JPEG") (VStr "Harbour") VNull)))
     = Ok [[("media_type", VStr "image/jpeg"); ("count", VInt 4)]].
Proof.
  split.
  - destruct (proj2 (having_keeps_repeated_types
                       (plain_server true)
                       (fst (exec MediaSharingApp 0 (seed_db 0)
                                  (insert_media (VInt 1) (VStr "b2c4.jpg") (VInt 4096)
                                                (VStr "IMAGE/JPEG") (VStr "Harbour") VNull)))
                       (plain_server_lawful true)))
      as [t [Ht [[Hrows _] _]]].
    exists t. split; [exact Ht|]. intros x Hx. exact (proj1 (Hrows x Hx)).
  - vm_compute. reflexivity.
Defined.
